(** * examGenome: the geometry MCQ generators

    A shallow embedding of [code/python/randomShapeGenerator.py] (module
    [RSG]) and of its threaded sibling [code/python/untitled1.py] (module
    [U1]): the random source, the option builders, the ten shape
    generators, [gen_one], and the manifest records both scripts dump.

    Conventions.
    - Python [int] is [Z]; [float] is the kernel's binary64 [float], so
      [*], [+], [-], [/] and [math.sqrt] are the IEEE operations Python
      uses. [math.hypot], [math.sin] and [math.tan] come from the platform's
      libm and are parameters of the development (class [Libm]).
      [float(n)] of an [int] beyond the binary64 range is an infinity here
      (Python raises [OverflowError] at the conversion); the formulas below
      then end in [round], which raises on it.
    - The [random] module is a tape of raw draws; [randbelow n] reads one
      raw value and reduces it modulo [n], so every in-range outcome is
      produced by some tape and nothing else is.
    - A [set] is a [gset Z]; [list(s)] is [elements s] (Python leaves the
      order unspecified, and nothing below depends on it).
    - A [dict] built by a comprehension is the list of its items in
      insertion order.
    - [while] loops without a bound take fuel; running out of it is the
      result [OutOfFuel], distinct from every Python exception.
    - Calls that only paint on the matplotlib axes ([draw_*],
      [set_tidy_limits], [savefig]) have no effect on any returned value and
      are left out, except for the divisions in them that can raise. Each
      [gen_<shape>] is split into the prefix that samples the dimensions
      ([dims_<shape>]) and its branch on [qtype] ([ask_<shape>]). *)

From Stdlib Require Import ZArith QArith Qround Qabs Lqa Floats Lia OrderedTypeEx.
From stdpp Require Import gmap strings list pretty sorting.

Local Open Scope Z_scope.

(** ** Results, exceptions and the random tape *)

Inductive exn :=
  ValueError | IndexError | KeyError | OverflowError | ZeroDivisionError.

Inductive res (A : Type) : Type :=
| Ok (a : A)
| Raise (e : exn)
| OutOfFuel.
Arguments Ok {A} a.
Arguments Raise {A} e.
Arguments OutOfFuel {A}.

Definition tape := nat → nat.

Definition tl_tape (t : tape) : tape := fun i => t (S i).

Definition M (A : Type) : Type := tape → res (A * tape).

Definition ret {A} (a : A) : M A := fun t => Ok (a, t).

Definition bind {A B} (c : M A) (k : A → M B) : M B :=
  fun t => match c t with
           | Ok (a, t') => k a t'
           | Raise e => Raise e
           | OutOfFuel => OutOfFuel
           end.

Definition raise {A} (e : exn) : M A := fun _ => Raise e.

Definition out_of_fuel {A} : M A := fun _ => OutOfFuel.

Definition lift {A} (r : res A) : M A :=
  fun t => match r with
           | Ok a => Ok (a, t)
           | Raise e => Raise e
           | OutOfFuel => OutOfFuel
           end.

#[global] Instance M_ret : MRet M := @ret.
#[global] Instance M_bind : MBind M := fun A B k c => bind c k.

(** [random._randbelow(n)]: one raw draw, reduced to [0 .. n-1]. *)
Definition randbelow (n : Z) : M Z :=
  fun t => Ok (Z.of_nat (t 0%nat) mod n, tl_tape t).

(** [random.randint(a, b)]: [ValueError] on an empty range. *)
Definition randint (a b : Z) : M Z :=
  if b <? a then raise ValueError
  else r ← randbelow (b - a + 1); mret (a + r).

(** [seq[i]] for a list: [IndexError] out of range. *)
Definition getitem {A} (l : list A) (i : Z) : res A :=
  if i <? 0 then Raise IndexError
  else match l !! Z.to_nat i with
       | Some x => Ok x
       | None => Raise IndexError
       end.

(** [random.choice(seq)]. *)
Definition choice {A} (l : list A) : M A :=
  match l with
  | [] => raise IndexError
  | _ => i ← randbelow (Z.of_nat (length l)); lift (getitem l i)
  end.

(** [x[i], x[j] = x[j], x[i]]. *)
Definition swap {A} (x : list A) (i j : nat) : list A :=
  match x !! i, x !! j with
  | Some a, Some b => <[j:=a]> (<[i:=b]> x)
  | _, _ => x
  end.

(** [random.shuffle(x)]:
    [for i in reversed(range(1, len(x))): j = randbelow(i + 1); swap]. *)
Fixpoint shuffle_from {A} (i : nat) (x : list A) : M (list A) :=
  match i with
  | O => mret x
  | S i' =>
      j ← randbelow (Z.of_nat i + 1);
      shuffle_from i' (swap x i (Z.to_nat j))
  end.

Definition shuffle {A} (x : list A) : M (list A) :=
  shuffle_from (length x - 1) x.

(** [list.index(v)]: [ValueError] when absent. *)
Fixpoint index_from (l : list Z) (v : Z) (i : Z) : res Z :=
  match l with
  | [] => Raise ValueError
  | x :: l' => if x =? v then Ok i else index_from l' v (i + 1)
  end.

Definition index (l : list Z) (v : Z) : res Z := index_from l v 0.

(** ** Dictionaries in insertion order *)

Definition dict (V : Type) : Type := list (string * V).

Fixpoint dict_get {V} (d : dict V) (k : string) : res V :=
  match d with
  | [] => Raise KeyError
  | (k', v) :: d' => if String.eqb k' k then Ok v else dict_get d' k
  end.

Definition dict_values {V} (d : dict V) : list V := d.*2.

(** ** Strings of integers *)

(** [i2s(n) = str(int(n))]. *)
Definition i2s (n : Z) : string := pretty n.

(** ** Floats *)

(** [float(n)] for an [int]: the nearest binary64, ties to even. *)
Definition float_of_Z (n : Z) : float :=
  SF2Prim (binary_normalize prec emax n 0 false).

(** The exact rational a finite float denotes. *)
Definition float_val (x : float) : option Q :=
  match Prim2SF x with
  | S754_zero _ => Some 0%Q
  | S754_finite s m e =>
      Some (inject_Z (if s then Z.neg m else Z.pos m) * Qpower 2 e)%Q
  | _ => None
  end.

(** Rounding a rational to the nearest integer, ties to the even one. *)
Definition round_half_even (q : Q) : Z :=
  let f := Qfloor q in
  match Qcompare (q - inject_Z f) (1 # 2) with
  | Lt => f
  | Gt => f + 1
  | Eq => if Z.even f then f else f + 1
  end.

(** [round(x)] for a float [x] with one argument: an [int]; [ValueError] on a
    NaN and [OverflowError] on an infinity. *)
Definition py_round (x : float) : res Z :=
  match Prim2SF x with
  | S754_nan => Raise ValueError
  | S754_infinity _ => Raise OverflowError
  | _ => match float_val x with
         | Some q => Ok (round_half_even q)
         | None => Raise ValueError
         end
  end.

(** [int(x)] for a float: truncation toward zero. *)
Definition py_int (x : float) : res Z :=
  match Prim2SF x with
  | S754_nan => Raise ValueError
  | S754_infinity _ => Raise OverflowError
  | _ => match float_val x with
         | Some q => Ok (Qnum q ÷ Z.pos (Qden q))
         | None => Raise ValueError
         end
  end.

(** [x / y] on floats: Python raises where IEEE would give an infinity or
    a NaN for a zero divisor. Divisions by a non-zero literal are written
    with the IEEE operation. *)
Definition py_div (x y : float) : res float :=
  if is_zero y then Raise ZeroDivisionError else Ok (x / y)%float.

Definition res_bind {A B} (r : res A) (k : A → res B) : res B :=
  match r with
  | Ok a => k a
  | Raise e => Raise e
  | OutOfFuel => OutOfFuel
  end.

(** [math.pi]. *)
Definition math_pi : float := 0x1.921fb54442d18p+1%float.

(** The libm functions the scripts call on computed values. *)
Class Libm := {
  hypot : float → float → float;
  sin : float → float;
  tan : float → float
}.

(** ** What both scripts share by value *)

Definition labels : list string := ["A"; "B"; "C"; "D"; "E"].

Definition DIFF_RANGES : dict (Z * Z) :=
  [("easy", (1, 10)); ("medium", (11, 50)); ("difficult", (51, 100))].

Definition SHAPES : list string :=
  ["square"; "rectangle"; "equilateral_triangle"; "isosceles_triangle";
   "scalene_triangle"; "trapezium"; "parallelogram"; "circle";
   "regular_hexagon"; "regular_pentagon"].

Definition Q_TYPES : list string := ["area"; "perimeter"; "missing"; "symmetry"].

Definition BASE_IMG_DIR : string := "images".

(** [os.path.join(BASE_IMG_DIR, diff, f"Q{i}.png")] on POSIX. *)
Definition img_path_of (diff : string) (i : Z) : string :=
  BASE_IMG_DIR +:+ "/" +:+ diff +:+ "/" +:+ "Q" +:+ i2s i +:+ ".png".

(** A question as the generators return it: text, options, correct letter. *)
Definition question : Type := string * dict string * string.

(** [{labels[i]: i2s(opts[i]) for i in range(5)}]. *)
Fixpoint options_dict (opts : list Z) (rng5 : list Z) : res (dict string) :=
  match rng5 with
  | [] => Ok []
  | i :: rng5' =>
      match getitem labels i, getitem opts i with
      | Ok l, Ok v =>
          match options_dict opts rng5' with
          | Ok d => Ok ((l, i2s v) :: d)
          | Raise e => Raise e
          | OutOfFuel => OutOfFuel
          end
      | Raise e, _ => Raise e
      | _, Raise e => Raise e
      | _, _ => OutOfFuel
      end
  end.

(** One element of the manifest both scripts dump as JSON. *)
Record record := {
  r_question : string;
  r_correct_answer : string;
  r_options : dict string;
  r_difficulty_level : string;
  r_img_path : string
}.

Definition area_text : string := "What is the area of the given shape?".
Definition perimeter_text : string := "What is the perimeter of the given shape?".
Definition circumference_text : string :=
  "What is the circumference of the given shape?".
Definition symmetry_text : string :=
  "How many lines of symmetry does this shape contain?".

(** [f"{x}"] inside the texts, and the float literals of the scripts. *)
Abbreviation F z := (float_of_Z z) (only parsing).
Notation "'0.5'" := (0x1p-1)%float (only parsing) : float_scope.
Notation "'0.2'" := (0x1.999999999999ap-3)%float (only parsing) : float_scope.

(** [max(x, 0.0)]: Python keeps [x] unless [0.0 > x]. *)
Definition fmax0 (x : float) : float :=
  if (x <? 0)%float then 0%float else x.

(** The dimensions a generator has sampled when it reaches its branch on
    [qtype], one constructor per [gen_<shape>]. *)
Inductive dims :=
| DSquare (s : Z)
| DRectangle (w h : Z)
| DEquilateral (s : Z)
| DIsosceles (base height : Z)
| DScalene (a b c : Z)
| DTrapezium (top bottom h : Z)
| DParallelogram (b h slant : Z)
| DCircle (r : Z)
| DNgon (n s : Z).

(** The [if qtype == "area" ... elif ... else] chain every generator has. *)
Definition by_qtype {A} (qtype : string) (area perimeter missing other : A) : A :=
  if String.eqb qtype "area" then area
  else if String.eqb qtype "perimeter" then perimeter
  else if String.eqb qtype "missing" then missing
  else other.

(** The shapes [gen_one] dispatches to [d]'s generator. *)
Definition dims_for (shape : string) (d : dims) : Prop :=
  match d with
  | DSquare _ => shape = "square"
  | DRectangle _ _ => shape = "rectangle"
  | DEquilateral _ => shape = "equilateral_triangle"
  | DIsosceles _ _ => shape = "isosceles_triangle"
  | DScalene _ _ _ => shape = "scalene_triangle"
  | DTrapezium _ _ _ => shape = "trapezium"
  | DParallelogram _ _ _ => shape = "parallelogram"
  | DCircle _ => shape = "circle"
  | DNgon n _ => (shape = "regular_hexagon" ∧ n = 6)
                 ∨ (shape = "regular_pentagon" ∧ n = 5)
  end.

(** Whether the last branch of [d]'s generator is the symmetry question
    (the circle's last branch asks for the circumference). *)
Definition asks_symmetry (d : dims) (qtype : string) : bool :=
  match d with
  | DCircle _ => false
  | _ => by_qtype qtype false false false true
  end.

(** * randomShapeGenerator.py *)
Module RSG.

(** [clamp_int(n) = int(round(n))]. *)
Definition clamp_int (n : float) : res Z := py_round n.

(** U+00B2, the superscript two of the texts, in UTF-8. *)
Definition sup2 : string :=
  String (Ascii.ascii_of_nat 194) (String (Ascii.ascii_of_nat 178) "").

(** The [while len(cand) < 5] loop of [mcq_options_int]. *)
Fixpoint mcq_int_loop (fuel : nat) (correct limit : Z) (cand : gset Z)
  : M (gset Z) :=
  if decide (size cand < 5)%nat then
    match fuel with
    | O => out_of_fuel
    | S fuel' =>
        delta ← randint 1 limit;
        sign ← choice [-1; 1];
        let val := correct + sign * delta in
        mcq_int_loop fuel' correct limit
          (if 0 <? val then cand ∪ {[val]} else cand)
    end
  else mret cand.

Definition mcq_options_int (fuel : nat) (correct_value : Z) (spread : Z)
  : M (dict string * string) :=
  let correct := correct_value in
  r ← lift (py_round (F (Z.abs correct) * 0.2)%float);
  let base := Z.max 6 r in
  let limit := Z.max spread base in
  cand ← mcq_int_loop fuel correct limit {[correct]};
  opts ← shuffle (elements cand);
  i ← lift (index opts correct);
  correct_letter ← lift (getitem labels i);
  d ← lift (options_dict opts (seqZ 0 5));
  mret (d, correct_letter).

(** The [while len(chosen) < 5] loop of [mcq_options_small_set]. *)
Fixpoint small_set_loop (fuel : nat) (pool chosen : gset Z) : M (gset Z) :=
  if decide (size chosen < 5)%nat then
    match fuel with
    | O => out_of_fuel
    | S fuel' =>
        v ← choice (elements pool);
        small_set_loop fuel' pool (chosen ∪ {[v]})
    end
  else mret chosen.

Definition mcq_options_small_set (fuel : nat) (correct : Z) (candidates : list Z)
  : M (dict string * string) :=
  let pool : gset Z := list_to_set candidates ∪ {[correct]} in
  chosen ← small_set_loop fuel pool {[correct]};
  opts ← shuffle (elements chosen);
  i ← lift (index opts correct);
  correct_letter ← lift (getitem labels i);
  d ← lift (options_dict opts (seqZ 0 5));
  mret (d, correct_letter).

(** [symmetry_count]: [None] for shapes without an entry and for the circle. *)
Definition symmetry_count (shape_name : string) : option Z :=
  match dict_get
          [("square", Some 4); ("rectangle", Some 2);
           ("equilateral_triangle", Some 3); ("isosceles_triangle", Some 1);
           ("scalene_triangle", Some 0); ("trapezium", Some 1);
           ("parallelogram", Some 0); ("circle", None);
           ("regular_hexagon", Some 6); ("regular_pentagon", Some 5)]
          shape_name with
  | Ok v => v
  | _ => None
  end.

Section Shapes.
Context {libm : Libm}.
Variable fuel : nat.

(** *** square *)
Definition dims_square (rng : Z * Z) : M Z := randint rng.1 rng.2.

Definition ask_square (s : Z) (qtype : string) : M question :=
  if String.eqb qtype "area" then
    let correct := s * s in
    let qtext := area_text in
    '(opts, letter) ← mcq_options_int fuel correct 8;
    mret (qtext, opts, letter)
  else if String.eqb qtype "perimeter" then
    let correct := 4 * s in
    let qtext := perimeter_text in
    '(opts, letter) ← mcq_options_int fuel correct 8;
    mret (qtext, opts, letter)
  else if String.eqb qtype "missing" then
    let qtext := "The area is " +:+ i2s (s * s) +:+ " cm" +:+ sup2
                 +:+ ". Find the side length (in cm)." in
    let correct := s in
    '(opts, letter) ← mcq_options_int fuel correct 8;
    mret (qtext, opts, letter)
  else
    let correct := 4 in
    let qtext := symmetry_text in
    '(opts, letter) ← mcq_options_small_set fuel correct [0; 1; 2; 3; 4; 6];
    mret (qtext, opts, letter).

Definition gen_square (rng : Z * Z) (qtype : string) : M question :=
  s ← dims_square rng; ask_square s qtype.

(** *** rectangle *)
Definition dims_rectangle (rng : Z * Z) : M (Z * Z) :=
  w ← randint rng.1 rng.2;
  h ← randint rng.1 rng.2;
  let w := if w =? h then w + 1 else w in
  mret (w, h).

Definition ask_rectangle (w h : Z) (qtype : string) : M question :=
  if String.eqb qtype "area" then
    let correct := w * h in
    let qtext := area_text in
    '(opts, letter) ← mcq_options_int fuel correct 8;
    mret (qtext, opts, letter)
  else if String.eqb qtype "perimeter" then
    let correct := 2 * (w + h) in
    let qtext := perimeter_text in
    '(opts, letter) ← mcq_options_int fuel correct 8;
    mret (qtext, opts, letter)
  else if String.eqb qtype "missing" then
    let area := w * h in
    let qtext := "The area is " +:+ i2s area +:+ " cm" +:+ sup2
                 +:+ ". Find the width (in cm)." in
    let correct := w in
    '(opts, letter) ← mcq_options_int fuel correct 8;
    mret (qtext, opts, letter)
  else
    let correct := 2 in
    let qtext := symmetry_text in
    '(opts, letter) ← mcq_options_small_set fuel correct [0; 1; 2; 3; 4];
    mret (qtext, opts, letter).

Definition gen_rectangle (rng : Z * Z) (qtype : string) : M question :=
  '(w, h) ← dims_rectangle rng; ask_rectangle w h qtype.

(** *** equilateral triangle *)
Definition dims_equilateral_triangle (rng : Z * Z) : M Z := randint rng.1 rng.2.

Definition ask_equilateral_triangle (s : Z) (qtype : string) : M question :=
  if String.eqb qtype "area" then
    correct ← lift (clamp_int (sqrt (F 3) / 4 * F s * F s)%float);
    let qtext := area_text in
    '(opts, letter) ← mcq_options_int fuel correct 8;
    mret (qtext, opts, letter)
  else if String.eqb qtype "perimeter" then
    let correct := 3 * s in
    let qtext := perimeter_text in
    '(opts, letter) ← mcq_options_int fuel correct 8;
    mret (qtext, opts, letter)
  else if String.eqb qtype "missing" then
    area ← lift (clamp_int (sqrt (F 3) / 4 * F s * F s)%float);
    let qtext := "The area is " +:+ i2s area +:+ " cm" +:+ sup2
                 +:+ ". Find the side length (in cm)." in
    let correct := s in
    '(opts, letter) ← mcq_options_int fuel correct 8;
    mret (qtext, opts, letter)
  else
    let correct := 3 in
    let qtext := symmetry_text in
    '(opts, letter) ← mcq_options_small_set fuel correct [0; 1; 2; 3; 6];
    mret (qtext, opts, letter).

Definition gen_equilateral_triangle (rng : Z * Z) (qtype : string) : M question :=
  s ← dims_equilateral_triangle rng; ask_equilateral_triangle s qtype.

(** *** isosceles triangle *)
Definition dims_isosceles_triangle (rng : Z * Z) : M (Z * Z) :=
  base ← randint rng.1 rng.2;
  height ← randint rng.1 rng.2;
  mret (base, height).

Definition ask_isosceles_triangle (base height : Z) (qtype : string)
  : M question :=
  if String.eqb qtype "area" then
    correct ← lift (clamp_int (0.5 * F base * F height)%float);
    let qtext := area_text in
    '(opts, letter) ← mcq_options_int fuel correct 8;
    mret (qtext, opts, letter)
  else if String.eqb qtype "perimeter" then
    let side := hypot (F base / 2)%float (F height) in
    correct ← lift (clamp_int (F 2 * side + F base)%float);
    let qtext := perimeter_text in
    '(opts, letter) ← mcq_options_int fuel correct 8;
    mret (qtext, opts, letter)
  else if String.eqb qtype "missing" then
    area ← lift (clamp_int (0.5 * F base * F height)%float);
    let qtext := "The area is " +:+ i2s area +:+ " cm" +:+ sup2
                 +:+ ". Find the height (in cm)." in
    let correct := height in
    '(opts, letter) ← mcq_options_int fuel correct 8;
    mret (qtext, opts, letter)
  else
    let correct := 1 in
    let qtext := symmetry_text in
    '(opts, letter) ← mcq_options_small_set fuel correct [0; 1; 2; 3];
    mret (qtext, opts, letter).

Definition gen_isosceles_triangle (rng : Z * Z) (qtype : string) : M question :=
  '(base, height) ← dims_isosceles_triangle rng;
  ask_isosceles_triangle base height qtype.

(** *** scalene triangle *)
Definition valid (a b c : Z) : bool :=
  (c <? a + b) && (b <? a + c) && (a <? b + c).

(** [while not valid(a, b, c) and attempts < 100], [n] being
    [100 - attempts]. *)
Fixpoint scalene_loop (n : nat) (rng : Z * Z) (a b c : Z) : M (Z * Z * Z) :=
  if negb (valid a b c) then
    match n with
    | O => mret (a, b, c)
    | S n' =>
        a ← randint rng.1 rng.2;
        b ← randint rng.1 rng.2;
        c ← randint rng.1 rng.2;
        scalene_loop n' rng a b c
    end
  else mret (a, b, c).

(** The sampled sides; the last line is the division by [2.0 * a] of the
    vertex computation, the only drawing step that can raise. *)
Definition dims_scalene_triangle (rng : Z * Z) : M (Z * Z * Z) :=
  a ← randint rng.1 rng.2;
  b ← randint rng.1 rng.2;
  c ← randint rng.1 rng.2;
  '(a, b, c) ← scalene_loop 100 rng a b c;
  if a =? 0 then raise ZeroDivisionError else mret (a, b, c).

Definition ask_scalene_triangle (a b c : Z) (qtype : string) : M question :=
  if String.eqb qtype "area" then
    let s := (0.5 * F (a + b + c))%float in
    let area := sqrt (fmax0 (s * (s - F a) * (s - F b) * (s - F c))%float) in
    correct ← lift (clamp_int area);
    let qtext := area_text in
    '(opts, letter) ← mcq_options_int fuel correct 8;
    mret (qtext, opts, letter)
  else if String.eqb qtype "perimeter" then
    let correct := a + b + c in
    let qtext := perimeter_text in
    '(opts, letter) ← mcq_options_int fuel correct 8;
    mret (qtext, opts, letter)
  else if String.eqb qtype "missing" then
    let total := a + b + c in
    let qtext := "The perimeter is " +:+ i2s total
                 +:+ " cm. Find the missing side (in cm)." in
    let correct := a in
    '(opts, letter) ← mcq_options_int fuel correct 8;
    mret (qtext, opts, letter)
  else
    let correct := 0 in
    let qtext := symmetry_text in
    '(opts, letter) ← mcq_options_small_set fuel correct [0; 1; 2; 3];
    mret (qtext, opts, letter).

Definition gen_scalene_triangle (rng : Z * Z) (qtype : string) : M question :=
  '(a, b, c) ← dims_scalene_triangle rng; ask_scalene_triangle a b c qtype.

(** *** trapezium *)
Definition dims_trapezium (rng : Z * Z) : M (Z * Z * Z) :=
  top ← randint rng.1 rng.2;
  bottom ← randint (Z.max (top + 2) (rng.1 + 2))
                   (rng.2 + Z.max 0 (top - rng.1));
  let bottom := Z.min bottom (Z.max (top + 2) rng.2) in
  h ← randint rng.1 rng.2;
  mret (top, bottom, h).

Definition ask_trapezium (top bottom h : Z) (qtype : string) : M question :=
  let dx := (F (bottom - top) / 2)%float in
  if String.eqb qtype "area" then
    correct ← lift (clamp_int (F ((top + bottom) * h) / 2)%float);
    let qtext := area_text in
    '(opts, letter) ← mcq_options_int fuel correct 8;
    mret (qtext, opts, letter)
  else if String.eqb qtype "perimeter" then
    let leg := hypot dx (F h) in
    correct ← lift (clamp_int (F (top + bottom) + F 2 * leg)%float);
    let qtext := perimeter_text in
    '(opts, letter) ← mcq_options_int fuel correct 8;
    mret (qtext, opts, letter)
  else if String.eqb qtype "missing" then
    area ← lift (clamp_int (F ((top + bottom) * h) / 2)%float);
    let qtext := "The area is " +:+ i2s area +:+ " cm" +:+ sup2
                 +:+ ". Find the height (in cm)." in
    let correct := h in
    '(opts, letter) ← mcq_options_int fuel correct 8;
    mret (qtext, opts, letter)
  else
    let correct := 1 in
    let qtext := symmetry_text in
    '(opts, letter) ← mcq_options_small_set fuel correct [0; 1; 2; 3];
    mret (qtext, opts, letter).

Definition gen_trapezium (rng : Z * Z) (qtype : string) : M question :=
  '(top, bottom, h) ← dims_trapezium rng; ask_trapezium top bottom h qtype.

(** *** parallelogram *)
Definition dims_parallelogram (rng : Z * Z) : M (Z * Z * Z) :=
  b ← randint rng.1 rng.2;
  h ← randint rng.1 rng.2;
  slant ← randint 1 (Z.max 2 (Z.min 10 (b `div` 2)));
  mret (b, h, slant).

Definition ask_parallelogram (b h slant : Z) (qtype : string) : M question :=
  if String.eqb qtype "area" then
    let correct := b * h in
    let qtext := area_text in
    '(opts, letter) ← mcq_options_int fuel correct 8;
    mret (qtext, opts, letter)
  else if String.eqb qtype "perimeter" then
    let side := hypot (F slant) (F h) in
    correct ← lift (clamp_int (F 2 * (F b + side))%float);
    let qtext := perimeter_text in
    '(opts, letter) ← mcq_options_int fuel correct 8;
    mret (qtext, opts, letter)
  else if String.eqb qtype "missing" then
    let area := b * h in
    let qtext := "The area is " +:+ i2s area +:+ " cm" +:+ sup2
                 +:+ ". Find the base (in cm)." in
    let correct := b in
    '(opts, letter) ← mcq_options_int fuel correct 8;
    mret (qtext, opts, letter)
  else
    let correct := 0 in
    let qtext := symmetry_text in
    '(opts, letter) ← mcq_options_small_set fuel correct [0; 1; 2; 3];
    mret (qtext, opts, letter).

Definition gen_parallelogram (rng : Z * Z) (qtype : string) : M question :=
  '(b, h, slant) ← dims_parallelogram rng; ask_parallelogram b h slant qtype.

(** *** circle *)
Definition dims_circle (rng : Z * Z) : M Z := randint rng.1 rng.2.

Definition ask_circle (r : Z) (qtype : string) : M question :=
  if String.eqb qtype "area" then
    correct ← lift (clamp_int (math_pi * F r * F r)%float);
    let qtext := area_text in
    '(opts, letter) ← mcq_options_int fuel correct 8;
    mret (qtext, opts, letter)
  else if String.eqb qtype "perimeter" then
    correct ← lift (clamp_int (F 2 * math_pi * F r)%float);
    let qtext := circumference_text in
    '(opts, letter) ← mcq_options_int fuel correct 8;
    mret (qtext, opts, letter)
  else if String.eqb qtype "missing" then
    C ← lift (clamp_int (F 2 * math_pi * F r)%float);
    let qtext := "The circumference is " +:+ i2s C
                 +:+ " cm. Find the radius (in cm)." in
    let correct := r in
    '(opts, letter) ← mcq_options_int fuel correct 8;
    mret (qtext, opts, letter)
  else
    correct ← lift (clamp_int (F 2 * math_pi * F r)%float);
    let qtext := circumference_text in
    '(opts, letter) ← mcq_options_int fuel correct 8;
    mret (qtext, opts, letter).

Definition gen_circle (rng : Z * Z) (qtype : string) : M question :=
  r ← dims_circle rng; ask_circle r qtype.

(** *** regular n-gon *)
Definition dims_regular_ngon (rng : Z * Z) : M Z := randint rng.1 rng.2.

Definition ask_regular_ngon (n s : Z) (qtype : string) : M question :=
  if String.eqb qtype "area" then
    angle ← lift (py_div math_pi (F n));
    area ← lift (py_div (F (n * s * s)) (4 * tan angle)%float);
    correct ← lift (clamp_int area);
    let qtext := area_text in
    '(opts, letter) ← mcq_options_int fuel correct 8;
    mret (qtext, opts, letter)
  else if String.eqb qtype "perimeter" then
    let correct := n * s in
    let qtext := perimeter_text in
    '(opts, letter) ← mcq_options_int fuel correct 8;
    mret (qtext, opts, letter)
  else if String.eqb qtype "missing" then
    let P := n * s in
    let qtext := "The perimeter is " +:+ i2s P
                 +:+ " cm. Find the side length (in cm)." in
    let correct := s in
    '(opts, letter) ← mcq_options_int fuel correct 8;
    mret (qtext, opts, letter)
  else
    let sym := n in
    let qtext := symmetry_text in
    '(opts, letter) ← mcq_options_small_set fuel sym (seqZ 0 (n + 1));
    mret (qtext, opts, letter).

(** The two divisions are those of the circumradius
    [R = s / (2 * math.sin(math.pi / n))], the only drawing step that can
    raise. *)
Definition gen_regular_ngon (rng : Z * Z) (qtype : string) (n : Z)
  : M question :=
  s ← dims_regular_ngon rng;
  angle ← lift (py_div math_pi (F n));
  R ← lift (py_div (F s) (F 2 * sin angle)%float);
  ask_regular_ngon n s qtype.

(** *** the branch on [qtype], by shape *)
Definition ask (d : dims) (qtype : string) : M question :=
  match d with
  | DSquare s => ask_square s qtype
  | DRectangle w h => ask_rectangle w h qtype
  | DEquilateral s => ask_equilateral_triangle s qtype
  | DIsosceles base height => ask_isosceles_triangle base height qtype
  | DScalene a b c => ask_scalene_triangle a b c qtype
  | DTrapezium top bottom h => ask_trapezium top bottom h qtype
  | DParallelogram b h slant => ask_parallelogram b h slant qtype
  | DCircle r => ask_circle r qtype
  | DNgon n s => ask_regular_ngon n s qtype
  end.

(** The value each branch binds to [correct] ([sym] in the n-gon's last one). *)
Definition computeAnswer (d : dims) (qtype : string) : res Z :=
  match d with
  | DSquare s => by_qtype qtype (Ok (s * s)) (Ok (4 * s)) (Ok s) (Ok 4)
  | DRectangle w h =>
      by_qtype qtype (Ok (w * h)) (Ok (2 * (w + h))) (Ok w) (Ok 2)
  | DEquilateral s =>
      by_qtype qtype (clamp_int (sqrt (F 3) / 4 * F s * F s)%float)
        (Ok (3 * s)) (Ok s) (Ok 3)
  | DIsosceles base height =>
      by_qtype qtype (clamp_int (0.5 * F base * F height)%float)
        (clamp_int (F 2 * hypot (F base / 2)%float (F height) + F base)%float)
        (Ok height) (Ok 1)
  | DScalene a b c =>
      let s := (0.5 * F (a + b + c))%float in
      by_qtype qtype
        (clamp_int (sqrt (fmax0 (s * (s - F a) * (s - F b) * (s - F c))%float)))
        (Ok (a + b + c)) (Ok a) (Ok 0)
  | DTrapezium top bottom h =>
      by_qtype qtype (clamp_int (F ((top + bottom) * h) / 2)%float)
        (clamp_int (F (top + bottom)
                    + F 2 * hypot (F (bottom - top) / 2)%float (F h))%float)
        (Ok h) (Ok 1)
  | DParallelogram b h slant =>
      by_qtype qtype (Ok (b * h))
        (clamp_int (F 2 * (F b + hypot (F slant) (F h)))%float) (Ok b) (Ok 0)
  | DCircle r =>
      by_qtype qtype (clamp_int (math_pi * F r * F r)%float)
        (clamp_int (F 2 * math_pi * F r)%float) (Ok r)
        (clamp_int (F 2 * math_pi * F r)%float)
  | DNgon n s =>
      by_qtype qtype
        (res_bind (py_div math_pi (F n)) (λ angle,
           res_bind (py_div (F (n * s * s)) (4 * tan angle)%float) clamp_int))
        (Ok (n * s)) (Ok s) (Ok n)
  end.

(** The quantity a missing-dimension question states: the area, or the
    perimeter (circumference) for the scalene triangle, the circle and the
    n-gon. *)
Definition known_kind (d : dims) : string :=
  match d with
  | DScalene _ _ _ | DCircle _ | DNgon _ _ => "perimeter"
  | _ => "area"
  end.

(** The text of [d]'s missing-dimension question stating [known]. *)
Definition missing_text (d : dims) (known : Z) : string :=
  match d with
  | DSquare _ | DEquilateral _ =>
      "The area is " +:+ i2s known +:+ " cm" +:+ sup2
      +:+ ". Find the side length (in cm)."
  | DRectangle _ _ =>
      "The area is " +:+ i2s known +:+ " cm" +:+ sup2
      +:+ ". Find the width (in cm)."
  | DIsosceles _ _ | DTrapezium _ _ _ =>
      "The area is " +:+ i2s known +:+ " cm" +:+ sup2
      +:+ ". Find the height (in cm)."
  | DScalene _ _ _ =>
      "The perimeter is " +:+ i2s known +:+ " cm. Find the missing side (in cm)."
  | DParallelogram _ _ _ =>
      "The area is " +:+ i2s known +:+ " cm" +:+ sup2
      +:+ ". Find the base (in cm)."
  | DCircle _ =>
      "The circumference is " +:+ i2s known +:+ " cm. Find the radius (in cm)."
  | DNgon _ _ =>
      "The perimeter is " +:+ i2s known +:+ " cm. Find the side length (in cm)."
  end.

(** The dimension a missing-dimension question hides. *)
Definition hidden (d : dims) : Z :=
  match d with
  | DSquare s | DEquilateral s | DNgon _ s => s
  | DRectangle w _ => w
  | DIsosceles _ height => height
  | DScalene a _ _ => a
  | DTrapezium _ _ h => h
  | DParallelogram b _ _ => b
  | DCircle r => r
  end.

(** *** dispatch *)
Definition choose_qtype (shape : string) : M string :=
  choice (if negb (String.eqb shape "circle") then Q_TYPES
          else ["area"; "perimeter"; "missing"]).

Definition gen_one (shape diff : string) : M question :=
  rng ← lift (dict_get DIFF_RANGES diff);
  qtype ← choose_qtype shape;
  if String.eqb shape "square" then gen_square rng qtype
  else if String.eqb shape "rectangle" then gen_rectangle rng qtype
  else if String.eqb shape "equilateral_triangle" then
    gen_equilateral_triangle rng qtype
  else if String.eqb shape "isosceles_triangle" then
    gen_isosceles_triangle rng qtype
  else if String.eqb shape "scalene_triangle" then gen_scalene_triangle rng qtype
  else if String.eqb shape "trapezium" then gen_trapezium rng qtype
  else if String.eqb shape "parallelogram" then gen_parallelogram rng qtype
  else if String.eqb shape "circle" then gen_circle rng qtype
  else if String.eqb shape "regular_hexagon" then gen_regular_ngon rng qtype 6
  else if String.eqb shape "regular_pentagon" then gen_regular_ngon rng qtype 5
  else
    '(opts, letter) ← mcq_options_int fuel 1 8;
    mret (area_text, opts, letter).

(** *** main: one iteration of the loop, then the loop *)
Definition DIFF_LIST : list string := DIFF_RANGES.*1.

Definition main_record (i : Z) : M record :=
  diff ← choice DIFF_LIST;
  shape ← choice SHAPES;
  '(qtext, options, correct_letter) ← gen_one shape diff;
  let img_path := img_path_of diff i in
  answer ← lift (dict_get options correct_letter);
  mret {| r_question := qtext;
          r_correct_answer := answer;
          r_options := options;
          r_difficulty_level := diff;
          r_img_path := img_path |}.

Fixpoint main_loop (ids : list Z) (out : list record) : M (list record) :=
  match ids with
  | [] => mret out
  | i :: ids' => r ← main_record i; main_loop ids' (out ++ [r])
  end.

Definition main (questionVolume : Z) : M (list record) :=
  main_loop (seqZ 1 questionVolume) [].

End Shapes.
End RSG.

(** * untitled1.py *)
Module U1.

(** [clamp_int(x) = int(round(x))]. *)
Definition clamp_int (x : float) : res Z := py_round x.

(** The [while len(cand) < 5] loop of [mcq_options_int]. *)
Fixpoint mcq_int_loop (fuel : nat) (correct spread : Z) (cand : gset Z)
  : M (gset Z) :=
  if decide (size cand < 5)%nat then
    match fuel with
    | O => out_of_fuel
    | S fuel' =>
        delta ← randint 1 spread;
        d ← choice [- delta; delta];
        let val := correct + d in
        mcq_int_loop fuel' correct spread
          (if 0 <? val then cand ∪ {[val]} else cand)
    end
  else mret cand.

Definition mcq_options_int (fuel : nat) (correct_value : Z)
  : M (dict string * string) :=
  let correct := correct_value in
  r ← lift (py_int (F (Z.abs correct) * 0.2)%float);
  let spread := Z.max 6 r in
  cand ← mcq_int_loop fuel correct spread {[correct]};
  opts ← shuffle (elements cand);
  i ← lift (index opts correct);
  correct_letter ← lift (getitem labels i);
  d ← lift (options_dict opts (seqZ 0 5));
  mret (d, correct_letter).

(** The [while len(chosen) < 5] loop of [mcq_options_small]. *)
Fixpoint small_loop (fuel : nat) (s chosen : gset Z) : M (gset Z) :=
  if decide (size chosen < 5)%nat then
    match fuel with
    | O => out_of_fuel
    | S fuel' =>
        v ← choice (elements s);
        small_loop fuel' s (chosen ∪ {[v]})
    end
  else mret chosen.

Definition mcq_options_small (fuel : nat) (correct : Z) (pool : list Z)
  : M (dict string * string) :=
  let s : gset Z := list_to_set pool ∪ {[correct]} in
  chosen ← small_loop fuel s {[correct]};
  opts ← shuffle (elements chosen);
  i ← lift (index opts correct);
  correct_letter ← lift (getitem labels i);
  d ← lift (options_dict opts (seqZ 0 5));
  mret (d, correct_letter).

Section Shapes.
Context {libm : Libm}.
Variable fuel : nat.

(** *** square *)
Definition dims_square (rng : Z * Z) : M Z := randint rng.1 rng.2.

Definition ask_square (s : Z) (qtype : string) : M question :=
  if String.eqb qtype "area" then
    let correct := s * s in
    let qtext := area_text in
    '(opts, letter) ← mcq_options_int fuel correct;
    mret (qtext, opts, letter)
  else if String.eqb qtype "perimeter" then
    let correct := 4 * s in
    let qtext := perimeter_text in
    '(opts, letter) ← mcq_options_int fuel correct;
    mret (qtext, opts, letter)
  else if String.eqb qtype "missing" then
    let qtext := "The area is " +:+ i2s (s * s) +:+ " cm^2. Find the side length (in cm)." in
    let correct := s in
    '(opts, letter) ← mcq_options_int fuel correct;
    mret (qtext, opts, letter)
  else
    let correct := 4 in
    let qtext := symmetry_text in
    '(opts, letter) ← mcq_options_small fuel correct [0; 1; 2; 3; 4; 6];
    mret (qtext, opts, letter).

Definition gen_square (rng : Z * Z) (qtype : string) : M question :=
  s ← dims_square rng; ask_square s qtype.

(** *** rectangle *)
Definition dims_rectangle (rng : Z * Z) : M (Z * Z) :=
  w ← randint rng.1 rng.2;
  h ← randint rng.1 rng.2;
  let w := if w =? h then w + 1 else w in
  mret (w, h).

Definition ask_rectangle (w h : Z) (qtype : string) : M question :=
  if String.eqb qtype "area" then
    let correct := w * h in
    let qtext := area_text in
    '(opts, letter) ← mcq_options_int fuel correct;
    mret (qtext, opts, letter)
  else if String.eqb qtype "perimeter" then
    let correct := 2 * (w + h) in
    let qtext := perimeter_text in
    '(opts, letter) ← mcq_options_int fuel correct;
    mret (qtext, opts, letter)
  else if String.eqb qtype "missing" then
    let area := w * h in
    let qtext := "The area is " +:+ i2s area +:+ " cm^2. Find the width (in cm)." in
    let correct := w in
    '(opts, letter) ← mcq_options_int fuel correct;
    mret (qtext, opts, letter)
  else
    let correct := 2 in
    let qtext := symmetry_text in
    '(opts, letter) ← mcq_options_small fuel correct [0; 1; 2; 3; 4];
    mret (qtext, opts, letter).

Definition gen_rectangle (rng : Z * Z) (qtype : string) : M question :=
  '(w, h) ← dims_rectangle rng; ask_rectangle w h qtype.

(** *** equilateral triangle *)
Definition dims_equilateral_triangle (rng : Z * Z) : M Z := randint rng.1 rng.2.

Definition ask_equilateral_triangle (s : Z) (qtype : string) : M question :=
  if String.eqb qtype "area" then
    correct ← lift (clamp_int (sqrt (F 3) / 4 * F s * F s)%float);
    let qtext := area_text in
    '(opts, letter) ← mcq_options_int fuel correct;
    mret (qtext, opts, letter)
  else if String.eqb qtype "perimeter" then
    let correct := 3 * s in
    let qtext := perimeter_text in
    '(opts, letter) ← mcq_options_int fuel correct;
    mret (qtext, opts, letter)
  else if String.eqb qtype "missing" then
    area ← lift (clamp_int (sqrt (F 3) / 4 * F s * F s)%float);
    let qtext := "The area is " +:+ i2s area +:+ " cm^2. Find the side length (in cm)." in
    let correct := s in
    '(opts, letter) ← mcq_options_int fuel correct;
    mret (qtext, opts, letter)
  else
    let correct := 3 in
    let qtext := symmetry_text in
    '(opts, letter) ← mcq_options_small fuel correct [0; 1; 2; 3; 6];
    mret (qtext, opts, letter).

Definition gen_equilateral_triangle (rng : Z * Z) (qtype : string) : M question :=
  s ← dims_equilateral_triangle rng; ask_equilateral_triangle s qtype.

(** *** isosceles triangle *)
Definition dims_isosceles_triangle (rng : Z * Z) : M (Z * Z) :=
  base ← randint rng.1 rng.2;
  height ← randint rng.1 rng.2;
  mret (base, height).

Definition ask_isosceles_triangle (base height : Z) (qtype : string)
  : M question :=
  if String.eqb qtype "area" then
    correct ← lift (clamp_int (0.5 * F base * F height)%float);
    let qtext := area_text in
    '(opts, letter) ← mcq_options_int fuel correct;
    mret (qtext, opts, letter)
  else if String.eqb qtype "perimeter" then
    let side := hypot (F base / 2)%float (F height) in
    correct ← lift (clamp_int (F base + F 2 * side)%float);
    let qtext := perimeter_text in
    '(opts, letter) ← mcq_options_int fuel correct;
    mret (qtext, opts, letter)
  else if String.eqb qtype "missing" then
    area ← lift (clamp_int (0.5 * F base * F height)%float);
    let qtext := "The area is " +:+ i2s area +:+ " cm^2. Find the height (in cm)." in
    let correct := height in
    '(opts, letter) ← mcq_options_int fuel correct;
    mret (qtext, opts, letter)
  else
    let correct := 1 in
    let qtext := symmetry_text in
    '(opts, letter) ← mcq_options_small fuel correct [0; 1; 2; 3];
    mret (qtext, opts, letter).

Definition gen_isosceles_triangle (rng : Z * Z) (qtype : string) : M question :=
  '(base, height) ← dims_isosceles_triangle rng;
  ask_isosceles_triangle base height qtype.

(** *** scalene triangle *)
Definition valid (a b c : Z) : bool :=
  (c <? a + b) && (b <? a + c) && (a <? b + c).

(** [while tries < 100], [n] being [100 - tries]; [a = b = c = 0] before
    the first draw. *)
Fixpoint scalene_loop (n : nat) (rng : Z * Z) (a b c : Z) : M (Z * Z * Z) :=
  match n with
  | O => mret (a, b, c)
  | S n' =>
      a ← randint rng.1 rng.2;
      b ← randint rng.1 rng.2;
      c ← randint rng.1 rng.2;
      if valid a b c && bool_decide (size ({[a; b; c]} : gset Z) = 3%nat)
      then mret (a, b, c)
      else scalene_loop n' rng a b c
  end.

(** The sampled sides; the last line is the division by [2.0 * a] of the
    vertex computation, the only drawing step that can raise. *)
Definition dims_scalene_triangle (rng : Z * Z) : M (Z * Z * Z) :=
  '(a, b, c) ← scalene_loop 100 rng 0 0 0;
  if a =? 0 then raise ZeroDivisionError else mret (a, b, c).

Definition ask_scalene_triangle (a b c : Z) (qtype : string) : M question :=
  if String.eqb qtype "area" then
    let s := (0.5 * F (a + b + c))%float in
    let area := sqrt (fmax0 (s * (s - F a) * (s - F b) * (s - F c))%float) in
    correct ← lift (clamp_int area);
    let qtext := area_text in
    '(opts, letter) ← mcq_options_int fuel correct;
    mret (qtext, opts, letter)
  else if String.eqb qtype "perimeter" then
    let correct := a + b + c in
    let qtext := perimeter_text in
    '(opts, letter) ← mcq_options_int fuel correct;
    mret (qtext, opts, letter)
  else if String.eqb qtype "missing" then
    let total := a + b + c in
    let qtext := "The perimeter is " +:+ i2s total
                 +:+ " cm. Find the missing side (in cm)." in
    let correct := a in
    '(opts, letter) ← mcq_options_int fuel correct;
    mret (qtext, opts, letter)
  else
    let correct := 0 in
    let qtext := symmetry_text in
    '(opts, letter) ← mcq_options_small fuel correct [0; 1; 2; 3];
    mret (qtext, opts, letter).

Definition gen_scalene_triangle (rng : Z * Z) (qtype : string) : M question :=
  '(a, b, c) ← dims_scalene_triangle rng; ask_scalene_triangle a b c qtype.

(** *** trapezium *)
Definition dims_trapezium (rng : Z * Z) : M (Z * Z * Z) :=
  top ← randint rng.1 rng.2;
  bottom ← randint (Z.max (top + 2) (rng.1 + 2)) (Z.max (top + 2) rng.2);
  h ← randint rng.1 rng.2;
  mret (top, bottom, h).

Definition ask_trapezium (top bottom h : Z) (qtype : string) : M question :=
  let dx := (F (bottom - top) / 2)%float in
  if String.eqb qtype "area" then
    correct ← lift (clamp_int (F ((top + bottom) * h) / 2)%float);
    let qtext := area_text in
    '(opts, letter) ← mcq_options_int fuel correct;
    mret (qtext, opts, letter)
  else if String.eqb qtype "perimeter" then
    let leg := hypot dx (F h) in
    correct ← lift (clamp_int (F (top + bottom) + F 2 * leg)%float);
    let qtext := perimeter_text in
    '(opts, letter) ← mcq_options_int fuel correct;
    mret (qtext, opts, letter)
  else if String.eqb qtype "missing" then
    area ← lift (clamp_int (F ((top + bottom) * h) / 2)%float);
    let qtext := "The area is " +:+ i2s area +:+ " cm^2. Find the height (in cm)." in
    let correct := h in
    '(opts, letter) ← mcq_options_int fuel correct;
    mret (qtext, opts, letter)
  else
    let correct := 1 in
    let qtext := symmetry_text in
    '(opts, letter) ← mcq_options_small fuel correct [0; 1; 2; 3];
    mret (qtext, opts, letter).

Definition gen_trapezium (rng : Z * Z) (qtype : string) : M question :=
  '(top, bottom, h) ← dims_trapezium rng; ask_trapezium top bottom h qtype.

(** *** parallelogram *)
Definition dims_parallelogram (rng : Z * Z) : M (Z * Z * Z) :=
  b ← randint rng.1 rng.2;
  h ← randint rng.1 rng.2;
  slant ← randint 1 (Z.max 2 (Z.min 10 (b `div` 2)));
  mret (b, h, slant).

Definition ask_parallelogram (b h slant : Z) (qtype : string) : M question :=
  if String.eqb qtype "area" then
    let correct := b * h in
    let qtext := area_text in
    '(opts, letter) ← mcq_options_int fuel correct;
    mret (qtext, opts, letter)
  else if String.eqb qtype "perimeter" then
    let side := hypot (F slant) (F h) in
    correct ← lift (clamp_int (F 2 * (F b + side))%float);
    let qtext := perimeter_text in
    '(opts, letter) ← mcq_options_int fuel correct;
    mret (qtext, opts, letter)
  else if String.eqb qtype "missing" then
    let area := b * h in
    let qtext := "The area is " +:+ i2s area +:+ " cm^2. Find the base (in cm)." in
    let correct := b in
    '(opts, letter) ← mcq_options_int fuel correct;
    mret (qtext, opts, letter)
  else
    let correct := 0 in
    let qtext := symmetry_text in
    '(opts, letter) ← mcq_options_small fuel correct [0; 1; 2; 3];
    mret (qtext, opts, letter).

Definition gen_parallelogram (rng : Z * Z) (qtype : string) : M question :=
  '(b, h, slant) ← dims_parallelogram rng; ask_parallelogram b h slant qtype.

(** *** circle *)
Definition dims_circle (rng : Z * Z) : M Z := randint rng.1 rng.2.

Definition ask_circle (r : Z) (qtype : string) : M question :=
  if String.eqb qtype "area" then
    correct ← lift (clamp_int (math_pi * F r * F r)%float);
    let qtext := area_text in
    '(opts, letter) ← mcq_options_int fuel correct;
    mret (qtext, opts, letter)
  else if String.eqb qtype "perimeter" then
    correct ← lift (clamp_int (F 2 * math_pi * F r)%float);
    let qtext := circumference_text in
    '(opts, letter) ← mcq_options_int fuel correct;
    mret (qtext, opts, letter)
  else if String.eqb qtype "missing" then
    C ← lift (clamp_int (F 2 * math_pi * F r)%float);
    let qtext := "The circumference is " +:+ i2s C
                 +:+ " cm. Find the radius (in cm)." in
    let correct := r in
    '(opts, letter) ← mcq_options_int fuel correct;
    mret (qtext, opts, letter)
  else
    correct ← lift (clamp_int (F 2 * math_pi * F r)%float);
    let qtext := circumference_text in
    '(opts, letter) ← mcq_options_int fuel correct;
    mret (qtext, opts, letter).

Definition gen_circle (rng : Z * Z) (qtype : string) : M question :=
  r ← dims_circle rng; ask_circle r qtype.

(** *** regular n-gon *)
Definition dims_regular_ngon (rng : Z * Z) : M Z := randint rng.1 rng.2.

Definition ask_regular_ngon (n s : Z) (qtype : string) : M question :=
  if String.eqb qtype "area" then
    angle ← lift (py_div math_pi (F n));
    area ← lift (py_div (F (n * s * s)) (4 * tan angle)%float);
    correct ← lift (clamp_int area);
    let qtext := area_text in
    '(opts, letter) ← mcq_options_int fuel correct;
    mret (qtext, opts, letter)
  else if String.eqb qtype "perimeter" then
    let correct := n * s in
    let qtext := perimeter_text in
    '(opts, letter) ← mcq_options_int fuel correct;
    mret (qtext, opts, letter)
  else if String.eqb qtype "missing" then
    let P := n * s in
    let qtext := "The perimeter is " +:+ i2s P
                 +:+ " cm. Find the side length (in cm)." in
    let correct := s in
    '(opts, letter) ← mcq_options_int fuel correct;
    mret (qtext, opts, letter)
  else
    let correct := n in
    let qtext := symmetry_text in
    '(opts, letter) ← mcq_options_small fuel correct (seqZ 0 (Z.max 8 (n + 1)));
    mret (qtext, opts, letter).

(** The two divisions are those of the circumradius
    [R = s / (2 * math.sin(math.pi / n))], the only drawing step that can
    raise. *)
Definition gen_regular_ngon (rng : Z * Z) (qtype : string) (n : Z)
  : M question :=
  s ← dims_regular_ngon rng;
  angle ← lift (py_div math_pi (F n));
  R ← lift (py_div (F s) (F 2 * sin angle)%float);
  ask_regular_ngon n s qtype.

(** *** the branch on [qtype], by shape *)
Definition ask (d : dims) (qtype : string) : M question :=
  match d with
  | DSquare s => ask_square s qtype
  | DRectangle w h => ask_rectangle w h qtype
  | DEquilateral s => ask_equilateral_triangle s qtype
  | DIsosceles base height => ask_isosceles_triangle base height qtype
  | DScalene a b c => ask_scalene_triangle a b c qtype
  | DTrapezium top bottom h => ask_trapezium top bottom h qtype
  | DParallelogram b h slant => ask_parallelogram b h slant qtype
  | DCircle r => ask_circle r qtype
  | DNgon n s => ask_regular_ngon n s qtype
  end.

(** The value each branch binds to [correct]. *)
Definition computeAnswer (d : dims) (qtype : string) : res Z :=
  match d with
  | DSquare s => by_qtype qtype (Ok (s * s)) (Ok (4 * s)) (Ok s) (Ok 4)
  | DRectangle w h =>
      by_qtype qtype (Ok (w * h)) (Ok (2 * (w + h))) (Ok w) (Ok 2)
  | DEquilateral s =>
      by_qtype qtype (clamp_int (sqrt (F 3) / 4 * F s * F s)%float)
        (Ok (3 * s)) (Ok s) (Ok 3)
  | DIsosceles base height =>
      by_qtype qtype (clamp_int (0.5 * F base * F height)%float)
        (clamp_int (F base + F 2 * hypot (F base / 2)%float (F height))%float)
        (Ok height) (Ok 1)
  | DScalene a b c =>
      let s := (0.5 * F (a + b + c))%float in
      by_qtype qtype
        (clamp_int (sqrt (fmax0 (s * (s - F a) * (s - F b) * (s - F c))%float)))
        (Ok (a + b + c)) (Ok a) (Ok 0)
  | DTrapezium top bottom h =>
      by_qtype qtype (clamp_int (F ((top + bottom) * h) / 2)%float)
        (clamp_int (F (top + bottom)
                    + F 2 * hypot (F (bottom - top) / 2)%float (F h))%float)
        (Ok h) (Ok 1)
  | DParallelogram b h slant =>
      by_qtype qtype (Ok (b * h))
        (clamp_int (F 2 * (F b + hypot (F slant) (F h)))%float) (Ok b) (Ok 0)
  | DCircle r =>
      by_qtype qtype (clamp_int (math_pi * F r * F r)%float)
        (clamp_int (F 2 * math_pi * F r)%float) (Ok r)
        (clamp_int (F 2 * math_pi * F r)%float)
  | DNgon n s =>
      by_qtype qtype
        (res_bind (py_div math_pi (F n)) (λ angle,
           res_bind (py_div (F (n * s * s)) (4 * tan angle)%float) clamp_int))
        (Ok (n * s)) (Ok s) (Ok n)
  end.

(** *** dispatch *)
Definition choose_qtype (shape : string) : M string :=
  choice (if negb (String.eqb shape "circle") then Q_TYPES
          else ["area"; "perimeter"; "missing"]).

Definition gen_one (shape diff : string) : M question :=
  rng ← lift (dict_get DIFF_RANGES diff);
  qtype ← choose_qtype shape;
  if String.eqb shape "square" then gen_square rng qtype
  else if String.eqb shape "rectangle" then gen_rectangle rng qtype
  else if String.eqb shape "equilateral_triangle" then
    gen_equilateral_triangle rng qtype
  else if String.eqb shape "isosceles_triangle" then
    gen_isosceles_triangle rng qtype
  else if String.eqb shape "scalene_triangle" then gen_scalene_triangle rng qtype
  else if String.eqb shape "trapezium" then gen_trapezium rng qtype
  else if String.eqb shape "parallelogram" then gen_parallelogram rng qtype
  else if String.eqb shape "circle" then gen_circle rng qtype
  else if String.eqb shape "regular_hexagon" then gen_regular_ngon rng qtype 6
  else if String.eqb shape "regular_pentagon" then gen_regular_ngon rng qtype 5
  else gen_square rng "area".

(** *** the per-question worker *)
Definition DIFF_LEVELS : list string := DIFF_RANGES.*1.

Definition build_one (idx : Z) : M record :=
  diff ← choice DIFF_LEVELS;
  shape ← choice SHAPES;
  '(qtext, options, correct_letter) ← gen_one shape diff;
  let img_path := img_path_of diff idx in
  mret {| r_question := qtext;
          r_correct_answer := correct_letter;
          r_options := options;
          r_difficulty_level := diff;
          r_img_path := img_path |}.

End Shapes.

(** *** main: its last step, the sort

    [out] is the list the [as_completed] loop has appended to when the
    executor's [with] block ends: one record per submitted future, in the
    order the workers finished. [out.sort(key=lambda r: r["img_path"])] is a
    stable sort on the path strings, compared by code point. The function
    with its executor loop is [main_threads] below. *)
Fixpoint insert_by_path (r : record) (l : list record) : list record :=
  match l with
  | [] => [r]
  | x :: l' =>
      if String.ltb (r_img_path r) (r_img_path x) then r :: x :: l'
      else x :: insert_by_path r l'
  end.

Definition sort_by_path (out : list record) : list record :=
  foldl (fun acc r => insert_by_path r acc) [] out.

Definition main (out : list record) : list record := sort_by_path out.

(** *** main: the whole of it, workers included

    [futures = [ex.submit(build_one, i) for i in range(1, questionVolume + 1)]]
    and [for f in as_completed(futures): out.append(f.result())], then the
    sort above. The workers draw from the one generator of the [random]
    module, so which draws a worker gets depends on how the threads
    interleave: [draws idx] is the sequence worker [idx] obtains, and
    [completed] lists the indices in the order their futures complete.
    [f.result()] raises again what the worker raised. Leaving the [with]
    block waits for every worker, so one that never returns keeps [main]
    from returning, whatever the others did. *)
Section Workers.
Context {libm : Libm}.
Variable fuel : nat.

Fixpoint as_completed (draws : Z → tape) (completed : list Z)
    (out : list record) : res (list record) :=
  match completed with
  | [] => Ok out
  | idx :: completed' =>
      match build_one fuel idx (draws idx) with
      | Ok (r, _) => as_completed draws completed' (out ++ [r])
      | Raise e => Raise e
      | OutOfFuel => OutOfFuel
      end
  end.

(** Worker [idx] comes to an end, with a record or an exception. *)
Definition ends (draws : Z → tape) (idx : Z) : bool :=
  match build_one fuel idx (draws idx) with
  | OutOfFuel => false
  | _ => true
  end.

Definition main_threads (questionVolume : Z) (draws : Z → tape)
    (completed : list Z) : res (list record) :=
  if forallb (ends draws) (seqZ 1 questionVolume) then
    res_bind (as_completed draws completed []) (λ out, Ok (main out))
  else OutOfFuel.

End Workers.

End U1.

(** * Definitions the statements use *)

(** [post c P]: every value [c] returns satisfies [P]. *)
Definition post {A} (c : M A) (P : A → Prop) : Prop :=
  ∀ t a t', c t = Ok (a, t') → P a.

(** [total c]: [c] returns on every tape. *)
Definition total {A} (c : M A) : Prop := ∀ t, ∃ a t', c t = Ok (a, t').

(** The last five lines of each of the four option builders: shuffle the
    candidates, find the correct one's letter, label the options. *)
Definition assemble (correct : Z) (cand : gset Z) : M (dict string * string) :=
  opts ← shuffle (elements cand);
  i ← lift (index opts correct);
  correct_letter ← lift (getitem labels i);
  d ← lift (options_dict opts (seqZ 0 5));
  mret (d, correct_letter).

(** What a builder hands back for [correct]: the five labels in order, each
    with the decimal string of one of five distinct integers [vals], the
    correct one at the returned letter. *)
Record built (correct : Z) (vals : list Z) (q : dict string * string) : Prop := {
  built_dict : q.1 = zip labels (i2s <$> vals);
  built_length : length vals = 5%nat;
  built_NoDup : NoDup vals;
  built_correct : correct ∈ vals;
  built_letter : q.2 ∈ labels;
  built_lookup : dict_get q.1 q.2 = Ok (i2s correct)
}.

(** A distractor is any of the five values other than the correct one. *)
Definition distractors (correct : Z) (vals : list Z) (P : Z → Prop) : Prop :=
  ∀ v, v ∈ vals → v ≠ correct → P v.

(** [q] is the question a builder made for [correct]; its distractors are
    positive, or merely non-negative when the question is the symmetry one. *)
Definition asked (correct : Z) (symmetry : bool) (q : question) : Prop :=
  ∃ vals, built correct vals (q.1.2, q.2) ∧
          distractors correct vals (λ v, if symmetry then 0 ≤ v else 0 < v).

(** [q] came out of one of the builders. *)
Definition well_formed (q : question) : Prop :=
  ∃ correct vals, built correct vals (q.1.2, q.2).

(** [s] begins with a decimal digit. *)
Definition starts_digit (s : string) : Prop :=
  ∃ n rest, (n < 10)%N ∧ s = String (pretty_N_char n) rest.

(** Tapes for concrete runs: the draws 0, 1, 2, ...; a given prefix of
    draws followed by zeros; one draw repeated for ever. *)
Definition tape_id : tape := λ i, i.

(** A tape whose draws hit every residue often enough for the loops to end. *)
Definition tape_sq : tape := λ i, (i * i + i `div` 3)%nat.


Definition tape_const (n : nat) : tape := λ _, n.

(** The tape [t] after a first draw [n]. *)
Definition tape_cons (n : nat) (t : tape) : tape :=
  λ i, match i with O => n | S j => t j end.

(** A libm for runs that never call it. *)
Definition libm_nan : Libm :=
  {| hypot := λ _ _, nan; sin := λ _, nan; tan := λ _, nan |}.

(** What a run returns, without the tape it leaves. *)
Definition value_of {A} (r : res (A * tape)) : res A :=
  match r with
  | Ok (a, _) => Ok a
  | Raise e => Raise e
  | OutOfFuel => OutOfFuel
  end.

(** A string that prints a positive integer. *)
Definition positive_value (s : string) : Prop := ∃ v, 0 < v ∧ s = i2s v.

(** [x] lies in the inclusive range [rng] of a tier. *)
Definition in_range (rng : Z * Z) (x : Z) : Prop := rng.1 ≤ x ≤ rng.2.

(** Draws that give the sides 1, 1, 10 a hundred and one times, then mix. *)
Definition tape_degenerate : tape :=
  λ i, if (i <? 303)%nat then (if (i `mod` 3 =? 2)%nat then 9 else 0)%nat
       else tape_sq i.

(** The value one pass of the loop of [RSG.mcq_options_int] tries. *)
Definition RSG_try (correct limit : Z) : M Z :=
  delta ← randint 1 limit;
  sign ← choice [-1; 1];
  mret (correct + sign * delta).

(** The value one pass of the loop of [U1.mcq_options_int] tries. *)
Definition U1_try (correct spread : Z) : M Z :=
  delta ← randint 1 spread;
  d ← choice [- delta; delta];
  mret (correct + d).

(** The positive values the first [n] passes try on tape [t]. *)
Fixpoint tried (try : M Z) (n : nat) (t : tape) : gset Z :=
  match n with
  | O => ∅
  | S n' =>
      match try t with
      | Ok (val, t') => (if 0 <? val then {[val]} else ∅) ∪ tried try n' t'
      | _ => ∅
      end
  end.

(** [r1] does not come after [r2] in Python's order on their paths. *)
Definition path_le (r1 r2 : record) : Prop :=
  String.leb (r_img_path r1) (r_img_path r2) = true.

(** What the three tiers have in common: a positive low end and at least
    three values. *)
Definition tier (rng : Z * Z) : Prop := 1 ≤ rng.1 ∧ rng.1 + 2 ≤ rng.2.

(** Both scripts round [x] to the half of [n] rounded half to even. *)
Definition half_product (x : float) (n : Z) : bool :=
  match RSG.clamp_int x, U1.clamp_int x with
  | Ok v, Ok v' => (v =? round_half_even (n # 2)) && (v' =? v)
  | _, _ => false
  end.

(** The run of [shape]'s generator in randomShapeGenerator.py before its
    branch on [qtype]: from tape [t] it draws the dimensions [d] and leaves
    the tape [t']. *)
Definition RSG_sampled (shape : string) (rng : Z * Z) (d : dims) (t t' : tape)
  : Prop :=
  match d with
  | DSquare s => shape = "square" ∧ RSG.dims_square rng t = Ok (s, t')
  | DRectangle w h =>
      shape = "rectangle" ∧ RSG.dims_rectangle rng t = Ok ((w, h), t')
  | DEquilateral s =>
      shape = "equilateral_triangle" ∧
      RSG.dims_equilateral_triangle rng t = Ok (s, t')
  | DIsosceles base height =>
      shape = "isosceles_triangle" ∧
      RSG.dims_isosceles_triangle rng t = Ok ((base, height), t')
  | DScalene a b c =>
      shape = "scalene_triangle" ∧
      RSG.dims_scalene_triangle rng t = Ok ((a, b, c), t')
  | DTrapezium top bottom h =>
      shape = "trapezium" ∧ RSG.dims_trapezium rng t = Ok ((top, bottom, h), t')
  | DParallelogram b h slant =>
      shape = "parallelogram" ∧
      RSG.dims_parallelogram rng t = Ok ((b, h, slant), t')
  | DCircle r => shape = "circle" ∧ RSG.dims_circle rng t = Ok (r, t')
  | DNgon n s =>
      ((shape = "regular_hexagon" ∧ n = 6) ∨ (shape = "regular_pentagon" ∧ n = 5))
      ∧ RSG.dims_regular_ngon rng t = Ok (s, t')
  end.

(** The same for untitled1.py. *)
Definition U1_sampled (shape : string) (rng : Z * Z) (d : dims) (t t' : tape)
  : Prop :=
  match d with
  | DSquare s => shape = "square" ∧ U1.dims_square rng t = Ok (s, t')
  | DRectangle w h =>
      shape = "rectangle" ∧ U1.dims_rectangle rng t = Ok ((w, h), t')
  | DEquilateral s =>
      shape = "equilateral_triangle" ∧
      U1.dims_equilateral_triangle rng t = Ok (s, t')
  | DIsosceles base height =>
      shape = "isosceles_triangle" ∧
      U1.dims_isosceles_triangle rng t = Ok ((base, height), t')
  | DScalene a b c =>
      shape = "scalene_triangle" ∧
      U1.dims_scalene_triangle rng t = Ok ((a, b, c), t')
  | DTrapezium top bottom h =>
      shape = "trapezium" ∧ U1.dims_trapezium rng t = Ok ((top, bottom, h), t')
  | DParallelogram b h slant =>
      shape = "parallelogram" ∧
      U1.dims_parallelogram rng t = Ok ((b, h, slant), t')
  | DCircle r => shape = "circle" ∧ U1.dims_circle rng t = Ok (r, t')
  | DNgon n s =>
      ((shape = "regular_hexagon" ∧ n = 6) ∨ (shape = "regular_pentagon" ∧ n = 5))
      ∧ U1.dims_regular_ngon rng t = Ok (s, t')
  end.

(** * Reasoning about runs *)

Section Runs.
Context {A B : Type}.

Lemma bind_Ok (c : M A) (k : A → M B) t b t' :
  (c ≫= k) t = Ok (b, t') ↔ ∃ a t1, c t = Ok (a, t1) ∧ k a t1 = Ok (b, t').
Proof.
  unfold mbind, M_bind, bind. split.
  - destruct (c t) as [[a t1]| |]; [eauto | done | done].
  - intros (a & t1 & -> & ?). done.
Qed.

Lemma bind_run (c : M A) (k : A → M B) t a t1 :
  c t = Ok (a, t1) → (c ≫= k) t = k a t1.
Proof. unfold mbind, M_bind, bind. by intros ->. Qed.

Lemma bind_OutOfFuel (c : M A) (k : A → M B) t :
  c t = OutOfFuel → (c ≫= k) t = OutOfFuel.
Proof. unfold mbind, M_bind, bind. by intros ->. Qed.

Lemma post_ret (a : A) (P : A → Prop) : P a → post (mret a) P.
Proof. intros H t a' t' [= <- _]. done. Qed.

Lemma post_bind (c : M A) (k : A → M B) (P : A → Prop) (Q : B → Prop) :
  post c P → (∀ a, P a → post (k a) Q) → post (c ≫= k) Q.
Proof.
  intros Hc Hk t b t' (a & t1 & H1 & H2)%bind_Ok.
  eapply Hk; [eapply Hc|]; eauto.
Qed.

Lemma post_lift (r : res A) (P : A → Prop) :
  (∀ a, r = Ok a → P a) → post (lift r) P.
Proof. intros H t a t'. unfold lift. destruct r; [|done..]. intros [= <- _]. auto. Qed.

Lemma post_weaken (c : M A) (P Q : A → Prop) :
  post c P → (∀ a, P a → Q a) → post c Q.
Proof. intros Hc HPQ t a t' H. eauto. Qed.

Lemma post_raise e (P : A → Prop) : post (raise e) P.
Proof. by intros t a t'. Qed.

Lemma total_ret (a : A) : total (mret a).
Proof. intros t. by exists a, t. Qed.

Lemma total_bind (c : M A) (k : A → M B) (P : A → Prop) :
  total c → post c P → (∀ a, P a → total (k a)) → total (c ≫= k).
Proof.
  intros Hc HP Hk t. destruct (Hc t) as (a & t1 & H1).
  destruct (Hk a (HP _ _ _ H1) t1) as (b & t2 & H2).
  exists b, t2. by rewrite (bind_run _ _ _ _ _ H1).
Qed.

End Runs.

Lemma randbelow_run n t : randbelow n t = Ok (Z.of_nat (t 0%nat) mod n, tl_tape t).
Proof. done. Qed.

Lemma post_randbelow n : 0 < n → post (randbelow n) (λ r, 0 ≤ r < n).
Proof. intros Hn t a t' [= <- _]. by apply Z.mod_pos_bound. Qed.

Lemma total_randbelow n : total (randbelow n).
Proof. intros t. by eexists _, _. Qed.

Lemma post_randint a b : post (randint a b) (λ r, a ≤ r ≤ b).
Proof.
  unfold randint. destruct (Z.ltb_spec b a); [apply post_raise|].
  eapply post_bind; [apply post_randbelow; lia|].
  intros r Hr. apply post_ret. simpl in *. lia.
Qed.

Lemma total_randint a b : a ≤ b → total (randint a b).
Proof.
  intros Hab. unfold randint. destruct (Z.ltb_spec b a); [lia|].
  eapply total_bind with (P := λ _, True);
    [apply total_randbelow | done | intros; apply total_ret].
Qed.

Lemma getitem_Ok {A} (l : list A) i x :
  getitem l i = Ok x ↔ 0 ≤ i ∧ l !! Z.to_nat i = Some x.
Proof.
  unfold getitem. destruct (Z.ltb_spec i 0).
  - split; [done | lia].
  - destruct (l !! Z.to_nat i); split; try done; naive_solver.
Qed.

Lemma post_choice {A} (l : list A) : post (choice l) (λ x, x ∈ l).
Proof.
  unfold choice. destruct l as [|y l]; [apply post_raise|].
  eapply post_bind; [apply post_randbelow; simpl; lia|].
  intros i Hi. apply post_lift. intros x [_ Hx]%getitem_Ok.
  by eapply list_elem_of_lookup_2.
Qed.

Lemma total_choice {A} (l : list A) : l ≠ [] → total (choice l).
Proof.
  intros Hl. unfold choice. destruct l as [|y l]; [done|].
  eapply total_bind; [apply total_randbelow | apply post_randbelow; simpl; lia|].
  intros i Hi t.
  destruct (lookup_lt_is_Some_2 (y :: l) (Z.to_nat i)) as [x Hx]; [simpl in *; lia|].
  exists x, t. unfold lift. by rewrite (proj2 (getitem_Ok _ _ _) (conj (proj1 Hi) Hx)).
Qed.

(** ** [random.shuffle] returns a permutation *)

Lemma swap_Permutation {A} (x : list A) i j : swap x i j ≡ₚ x.
Proof.
  unfold swap.
  destruct (x !! i) as [a|] eqn:Hi; [|done].
  destruct (x !! j) as [b|] eqn:Hj; [|done].
  by apply Permutation_insert_swap.
Qed.

Lemma shuffle_from_run {A} i (x : list A) t :
  ∃ x' t', shuffle_from i x t = Ok (x', t') ∧ x' ≡ₚ x.
Proof.
  revert x t. induction i as [|i IH]; intros x t.
  - by exists x, t.
  - cbn [shuffle_from]. erewrite bind_run by apply randbelow_run.
    destruct (IH (swap x (S i) (Z.to_nat (Z.of_nat (t 0%nat) mod (Z.of_nat (S i) + 1))))
                 (tl_tape t)) as (x' & t' & Hrun & Hperm).
    exists x', t'. split; [done|]. by rewrite Hperm, swap_Permutation.
Qed.

Lemma shuffle_run {A} (x : list A) t :
  ∃ x' t', shuffle x t = Ok (x', t') ∧ x' ≡ₚ x.
Proof. apply shuffle_from_run. Qed.

Lemma post_shuffle {A} (x : list A) : post (shuffle x) (λ x', x' ≡ₚ x).
Proof.
  intros t a t' H. destruct (shuffle_run x t) as (x' & t1 & H1 & ?). congruence.
Qed.

Lemma total_shuffle {A} (x : list A) : total (shuffle x).
Proof. intros t. destruct (shuffle_run x t) as (x' & t1 & H1 & ?). eauto. Qed.

(** ** Assembling the options

    The last five lines are the same in all four option builders. *)

Lemma assemble_five (correct a b c d e : Z) :
  correct ∈ [a; b; c; d; e] →
  ∃ i letter,
    index [a; b; c; d; e] correct = Ok i ∧ getitem labels i = Ok letter ∧
    options_dict [a; b; c; d; e] (seqZ 0 5)
    = Ok (zip labels (i2s <$> [a; b; c; d; e])) ∧
    letter ∈ labels ∧
    dict_get (zip labels (i2s <$> [a; b; c; d; e])) letter = Ok (i2s correct).
Proof.
  intros Hin. unfold index. cbn [index_from].
  destruct (Z.eqb_spec a correct) as [->|Ha].
  { exists 0, "A". repeat split; try done. set_solver. }
  destruct (Z.eqb_spec b correct) as [->|Hb].
  { exists 1, "B". repeat split; try done. set_solver. }
  destruct (Z.eqb_spec c correct) as [->|Hc].
  { exists 2, "C". repeat split; try done. set_solver. }
  destruct (Z.eqb_spec d correct) as [->|Hd].
  { exists 3, "D". repeat split; try done. set_solver. }
  destruct (Z.eqb_spec e correct) as [->|He].
  { exists 4, "E". repeat split; try done. set_solver. }
  set_solver.
Qed.

Lemma assemble_run correct (cand : gset Z) t :
  size cand = 5%nat → correct ∈ cand →
  ∃ q t' vals, assemble correct cand t = Ok (q, t') ∧
               built correct vals q ∧ vals ≡ₚ elements cand.
Proof.
  intros Hsize Hin. unfold assemble.
  destruct (shuffle_run (elements cand) t) as (opts & t1 & Hsh & Hperm).
  erewrite bind_run by exact Hsh.
  assert (Hlen : length opts = 5%nat) by by rewrite Hperm.
  assert (Hnd : NoDup opts) by (rewrite Hperm; apply NoDup_elements).
  assert (Hc : correct ∈ opts) by (rewrite Hperm; by apply elem_of_elements).
  destruct opts as [|a [|b [|c [|d [|e [|]]]]]]; try done.
  destruct (assemble_five correct a b c d e Hc)
    as (i & letter & Hi & Hl & Hd & Hlab & Hget).
  exists (zip labels (i2s <$> [a; b; c; d; e]), letter), t1, [a; b; c; d; e].
  split; [|split; [by constructor|done]].
  unfold mbind, M_bind, bind, lift. by rewrite Hi, Hl, Hd.
Qed.

Lemma post_assemble correct (cand : gset Z) :
  size cand = 5%nat → correct ∈ cand →
  post (assemble correct cand)
       (λ q, ∃ vals, built correct vals q ∧ vals ≡ₚ elements cand).
Proof.
  intros Hsize Hin t q t' Hrun.
  destruct (assemble_run correct cand t Hsize Hin) as (q' & t1 & vals & H1 & ? & ?).
  rewrite Hrun in H1. injection H1 as <- <-. by exists vals.
Qed.

(** ** The option builders *)

Lemma post_out_of_fuel {A} (P : A → Prop) : post out_of_fuel P.
Proof. by intros t a t'. Qed.

Lemma size_add_le (cand : gset Z) v : (size (cand ∪ {[v]}) ≤ S (size cand))%nat.
Proof.
  destruct (decide (v ∈ cand)) as [Hin|Hin].
  - replace (cand ∪ {[v]}) with cand by set_solver. lia.
  - rewrite size_union, size_singleton by set_solver. lia.
Qed.

Lemma RSG_mcq_int_loop_post fuel correct limit (cand : gset Z) :
  (size cand ≤ 5)%nat →
  post (RSG.mcq_int_loop fuel correct limit cand)
       (λ cand', size cand' = 5%nat ∧ cand ⊆ cand' ∧
                 ∀ v, v ∈ cand' → v ∈ cand ∨ 0 < v).
Proof.
  revert cand. induction fuel as [|fuel IH]; intros cand Hle;
    cbn [RSG.mcq_int_loop]; case_decide;
    try (apply post_ret; split; [lia | set_solver]).
  { apply post_out_of_fuel. }
  eapply post_bind; [apply post_randint|]. intros delta _.
  eapply post_bind; [apply post_choice|]. intros sign _. cbv zeta.
  destruct (Z.ltb_spec 0 (correct + sign * delta)) as [Hpos|Hneg].
  - eapply post_weaken.
    + apply IH. pose proof (size_add_le cand (correct + sign * delta)). lia.
    + intros cand' (? & ? & Hv). split; [done|]. split; [set_solver|].
      intros v Hin. destruct (Hv v Hin) as [Hc|?]; [|auto].
      apply elem_of_union in Hc as [?|Hs]; [auto|].
      apply elem_of_singleton in Hs as ->. auto.
  - apply IH. lia.
Qed.

Lemma U1_mcq_int_loop_post fuel correct spread (cand : gset Z) :
  (size cand ≤ 5)%nat →
  post (U1.mcq_int_loop fuel correct spread cand)
       (λ cand', size cand' = 5%nat ∧ cand ⊆ cand' ∧
                 ∀ v, v ∈ cand' → v ∈ cand ∨ 0 < v).
Proof.
  revert cand. induction fuel as [|fuel IH]; intros cand Hle;
    cbn [U1.mcq_int_loop]; case_decide;
    try (apply post_ret; split; [lia | set_solver]).
  { apply post_out_of_fuel. }
  eapply post_bind; [apply post_randint|]. intros delta _.
  eapply post_bind; [apply post_choice|]. intros d _. cbv zeta.
  destruct (Z.ltb_spec 0 (correct + d)) as [Hpos|Hneg].
  - eapply post_weaken.
    + apply IH. pose proof (size_add_le cand (correct + d)). lia.
    + intros cand' (? & ? & Hv). split; [done|]. split; [set_solver|].
      intros v Hin. destruct (Hv v Hin) as [Hc|?]; [|auto].
      apply elem_of_union in Hc as [?|Hs]; [auto|].
      apply elem_of_singleton in Hs as ->. auto.
  - apply IH. lia.
Qed.

Lemma RSG_small_set_loop_post fuel (pool chosen : gset Z) :
  (size chosen ≤ 5)%nat →
  post (RSG.small_set_loop fuel pool chosen)
       (λ chosen', size chosen' = 5%nat ∧ chosen ⊆ chosen' ∧
                   chosen' ⊆ chosen ∪ pool).
Proof.
  revert chosen. induction fuel as [|fuel IH]; intros chosen Hle;
    cbn [RSG.small_set_loop]; case_decide;
    try (apply post_ret; split; [lia | set_solver]).
  { apply post_out_of_fuel. }
  eapply post_bind; [apply post_choice|]. intros v Hv%elem_of_elements.
  eapply post_weaken.
  - apply IH. pose proof (size_add_le chosen v). lia.
  - intros chosen' (? & ? & ?). split; [done|]. set_solver.
Qed.

Lemma U1_small_loop_post fuel (pool chosen : gset Z) :
  (size chosen ≤ 5)%nat →
  post (U1.small_loop fuel pool chosen)
       (λ chosen', size chosen' = 5%nat ∧ chosen ⊆ chosen' ∧
                   chosen' ⊆ chosen ∪ pool).
Proof.
  revert chosen. induction fuel as [|fuel IH]; intros chosen Hle;
    cbn [U1.small_loop]; case_decide;
    try (apply post_ret; split; [lia | set_solver]).
  { apply post_out_of_fuel. }
  eapply post_bind; [apply post_choice|]. intros v Hv%elem_of_elements.
  eapply post_weaken.
  - apply IH. pose proof (size_add_le chosen v). lia.
  - intros chosen' (? & ? & ?). split; [done|]. set_solver.
Qed.

Lemma post_assemble_from correct (cand0 : gset Z) (P : Z → Prop) (cand : gset Z) :
  size cand = 5%nat → correct ∈ cand →
  (∀ v, v ∈ cand → v = correct ∨ P v) →
  post (assemble correct cand)
       (λ q, ∃ vals, built correct vals q ∧ distractors correct vals P).
Proof.
  intros Hsize Hin HP. eapply post_weaken; [by apply post_assemble|].
  intros q (vals & Hb & Hperm). exists vals. split; [done|].
  intros v Hv Hne. destruct (HP v); [|done..].
  rewrite Hperm in Hv. by apply elem_of_elements in Hv.
Qed.

Lemma RSG_mcq_options_int_post fuel correct spread :
  post (RSG.mcq_options_int fuel correct spread)
       (λ q, ∃ vals, built correct vals q ∧ distractors correct vals (λ v, 0 < v)).
Proof.
  unfold RSG.mcq_options_int. cbv zeta.
  eapply post_bind; [apply post_lift; intros; exact I|]. intros r _.
  eapply post_bind.
  { apply RSG_mcq_int_loop_post. rewrite size_singleton. lia. }
  intros cand (Hsize & Hsub & Hv).
  apply (post_assemble_from correct cand); [done|set_solver|].
  intros v Hin. destruct (Hv v Hin) as [Hs|?]; [|auto].
  apply elem_of_singleton in Hs as ->. auto.
Qed.

Lemma U1_mcq_options_int_post fuel correct :
  post (U1.mcq_options_int fuel correct)
       (λ q, ∃ vals, built correct vals q ∧ distractors correct vals (λ v, 0 < v)).
Proof.
  unfold U1.mcq_options_int. cbv zeta.
  eapply post_bind; [apply post_lift; intros; exact I|]. intros r _.
  eapply post_bind.
  { apply U1_mcq_int_loop_post. rewrite size_singleton. lia. }
  intros cand (Hsize & Hsub & Hv).
  apply (post_assemble_from correct cand); [done|set_solver|].
  intros v Hin. destruct (Hv v Hin) as [Hs|?]; [|auto].
  apply elem_of_singleton in Hs as ->. auto.
Qed.

Lemma RSG_mcq_options_small_set_post fuel correct candidates :
  post (RSG.mcq_options_small_set fuel correct candidates)
       (λ q, ∃ vals, built correct vals q ∧
                     distractors correct vals (λ v, v ∈ candidates)).
Proof.
  unfold RSG.mcq_options_small_set. cbv zeta.
  eapply post_bind.
  { apply RSG_small_set_loop_post. rewrite size_singleton. lia. }
  intros chosen (Hsize & Hsub & Hsup).
  apply (post_assemble_from correct chosen); [done|set_solver|].
  intros v Hv. apply Hsup in Hv. set_solver.
Qed.

Lemma U1_mcq_options_small_post fuel correct pool :
  post (U1.mcq_options_small fuel correct pool)
       (λ q, ∃ vals, built correct vals q ∧
                     distractors correct vals (λ v, v ∈ pool)).
Proof.
  unfold U1.mcq_options_small. cbv zeta.
  eapply post_bind.
  { apply U1_small_loop_post. rewrite size_singleton. lia. }
  intros chosen (Hsize & Hsub & Hsup).
  apply (post_assemble_from correct chosen); [done|set_solver|].
  intros v Hv. apply Hsup in Hv. set_solver.
Qed.

(** ** Every branch of every generator goes through a builder *)

Ltac float_step :=
  eapply post_bind;
  [ apply post_lift; let c := fresh "c" in let H := fresh "H" in
    intros c H; exact H
  | let c := fresh "correct" in let H := fresh "Hcorrect" in intros c H ].

Ltac builder_step lem :=
  eapply post_bind; [ apply lem | ];
  let opts := fresh "opts" in let letter := fresh "letter" in
  let vals := fresh "vals" in let Hb := fresh "Hb" in let Hd := fresh "Hd" in
  intros [opts letter] (vals & Hb & Hd); apply post_ret.

Lemma distractors_pool correct vals (pool : list Z) :
  distractors correct vals (λ v, v ∈ pool) → Forall (λ v, 0 ≤ v) pool →
  distractors correct vals (λ v, 0 ≤ v).
Proof.
  intros Hd Hpool v Hv Hne. rewrite Forall_forall in Hpool. apply Hpool.
  by apply Hd.
Qed.

Lemma seqZ_nonneg n : Forall (λ v, 0 ≤ v) (seqZ 0 n).
Proof. apply Forall_forall. intros v Hv%elem_of_seqZ. lia. Qed.

Lemma post_True {A} (c : M A) : post c (λ _, True).
Proof. by intros t a t' _. Qed.

Lemma res_bind_Ok {A B} (r : res A) (k : A → res B) a :
  r = Ok a → res_bind r k = k a.
Proof. by intros ->. Qed.

Ltac finish_forall :=
  repeat first [ apply Forall_nil_2 | apply Forall_cons_2; [cbv beta; lia|] ].

Section RSG_ask.
Context {libm : Libm}.

Lemma RSG_ask_post fuel d qtype :
  post (RSG.ask fuel d qtype)
       (λ q, ∃ correct, RSG.computeAnswer d qtype = Ok correct ∧
                        asked correct (asks_symmetry d qtype) q).
Proof.
  destruct d; cbn [RSG.ask RSG.computeAnswer asks_symmetry];
    unfold RSG.ask_square, RSG.ask_rectangle, RSG.ask_equilateral_triangle,
      RSG.ask_isosceles_triangle, RSG.ask_scalene_triangle, RSG.ask_trapezium,
      RSG.ask_parallelogram, RSG.ask_circle, RSG.ask_regular_ngon, by_qtype;
    cbv zeta;
    repeat (match goal with |- context [String.eqb qtype ?s] =>
              destruct (String.eqb qtype s) end);
    repeat (float_step; cbv beta in * ).
  all: try (builder_step RSG_mcq_options_int_post;
            eexists; split;
            [first [eassumption | reflexivity | by repeat erewrite res_bind_Ok]|];
            eexists; split; [eassumption | exact Hd]).
  all: builder_step RSG_mcq_options_small_set_post.
  all: eexists; split; [reflexivity|]; eexists; split; [eassumption|].
  all: eapply distractors_pool; [exact Hd|];
    first [ apply seqZ_nonneg | finish_forall ].
Qed.

Ltac via_ask d :=
  eapply post_weaken;
  [ apply (RSG_ask_post _ d _)
  | let c := fresh "c" in
    intros ? (c & ? & ?); eexists d, _, c; split; [|split; eassumption];
    cbn [dims_for]; auto ].

Lemma RSG_gen_one_post fuel shape diff :
  shape ∈ SHAPES →
  post (RSG.gen_one fuel shape diff)
       (λ q, ∃ d qtype correct,
           dims_for shape d ∧ RSG.computeAnswer d qtype = Ok correct ∧
           asked correct (asks_symmetry d qtype) q).
Proof.
  intros Hshape. unfold RSG.gen_one.
  eapply post_bind; [apply post_True|]. intros rng _.
  eapply post_bind; [apply post_True|]. intros qtype _.
  repeat (match goal with |- context [String.eqb shape ?s] =>
            destruct (String.eqb_spec shape s) as [->|?] end;
          [ unfold RSG.gen_square, RSG.gen_rectangle,
              RSG.gen_equilateral_triangle, RSG.gen_isosceles_triangle,
              RSG.gen_scalene_triangle, RSG.gen_trapezium,
              RSG.gen_parallelogram, RSG.gen_circle, RSG.gen_regular_ngon;
            eapply post_bind; [apply post_True|] | ]).
  - intros s _. via_ask (DSquare s).
  - intros [w h] _. via_ask (DRectangle w h).
  - intros s _. via_ask (DEquilateral s).
  - intros [base height] _. via_ask (DIsosceles base height).
  - intros [[a b] c] _. via_ask (DScalene a b c).
  - intros [[top bottom] h] _. via_ask (DTrapezium top bottom h).
  - intros [[b h] slant] _. via_ask (DParallelogram b h slant).
  - intros r _. via_ask (DCircle r).
  - intros s _. do 2 (eapply post_bind; [apply post_True|]; intros ? _).
    via_ask (DNgon 6 s).
  - intros s _. do 2 (eapply post_bind; [apply post_True|]; intros ? _).
    via_ask (DNgon 5 s).
  - apply list_elem_of_In in Hshape. simpl in Hshape. intuition congruence.
Qed.

End RSG_ask.

Lemma asked_well_formed correct symmetry q : asked correct symmetry q → well_formed q.
Proof. intros (vals & ? & _). by exists correct, vals. Qed.

Section U1_ask.
Context {libm : Libm}.

Ltac u1_ask :=
  unfold U1.ask_square, U1.ask_rectangle, U1.ask_equilateral_triangle,
    U1.ask_isosceles_triangle, U1.ask_scalene_triangle, U1.ask_trapezium,
    U1.ask_parallelogram, U1.ask_circle, U1.ask_regular_ngon;
  cbv zeta;
  repeat (match goal with |- context [String.eqb ?q ?s] =>
            destruct (String.eqb q s) end);
  repeat float_step;
  first [ builder_step U1_mcq_options_int_post
        | builder_step U1_mcq_options_small_post ];
  eexists _, _; eassumption.

Ltac u1_gen :=
  unfold U1.gen_square, U1.gen_rectangle, U1.gen_equilateral_triangle,
    U1.gen_isosceles_triangle, U1.gen_scalene_triangle, U1.gen_trapezium,
    U1.gen_parallelogram, U1.gen_circle, U1.gen_regular_ngon;
  eapply post_bind; [apply post_True|];
  first [ intros [[? ?] ?] _ | intros [? ?] _ | intros ? _ ];
  first [ u1_ask
        | do 2 (eapply post_bind; [apply post_True|]; intros ? _); u1_ask ].

Lemma U1_gen_one_post fuel shape diff :
  post (U1.gen_one fuel shape diff) well_formed.
Proof.
  unfold U1.gen_one.
  eapply post_bind; [apply post_True|]. intros rng _.
  eapply post_bind; [apply post_True|]. intros qtype _.
  repeat (match goal with |- context [String.eqb shape ?s] =>
            destruct (String.eqb shape s) end; [u1_gen|]).
  u1_gen.
Qed.

End U1_ask.

(** ** Decimal strings are not letters *)

Lemma pretty_N_go_starts_digit x s :
  starts_digit s → starts_digit (pretty_N_go x s).
Proof.
  revert s. induction (N.lt_wf_0 x) as [x _ IH]; intros s Hs.
  assert (x = 0 ∨ 0 < x)%N as [->|?] by lia.
  - by rewrite pretty_N_go_0.
  - rewrite pretty_N_go_step by done. apply IH.
    { by apply N.div_lt. }
    exists (x `mod` 10)%N, s. split; [|done]. by apply N.mod_lt.
Qed.

Lemma pretty_pos_starts_digit (p : positive) : starts_digit (pretty (N.pos p)).
Proof.
  unfold pretty, pretty_N. case_decide; [done|].
  rewrite pretty_N_go_step by lia. apply pretty_N_go_starts_digit.
  eexists _, _. split; [|done]. by apply N.mod_lt.
Qed.

Lemma i2s_not_label z letter : letter ∈ labels → i2s z ≠ letter.
Proof.
  intros Hl Heq.
  assert (starts_digit letter ∨ ∃ rest, letter = "-" +:+ rest) as [H|H].
  { rewrite <-Heq. unfold i2s, pretty, pretty_Z. destruct z as [|p|p].
    - left. by exists 0%N, "".
    - left. apply pretty_pos_starts_digit.
    - right. by eexists. }
  - destruct H as (n & rest & Hn & ->).
    assert (n = 0 ∨ n = 1 ∨ n = 2 ∨ n = 3 ∨ n = 4 ∨ n = 5 ∨ n = 6
            ∨ n = 7 ∨ n = 8 ∨ n = 9)%N as Hcases by lia.
    unfold labels in Hl. set_unfold.
    destruct Hcases as [->|[->|[->|[->|[->|[->|[->|[->|[->| ->]]]]]]]]];
      naive_solver.
  - destruct H as [rest ->]. unfold labels in Hl. set_unfold. naive_solver.
Qed.

(** ** Concrete tapes and a libm for runs that never reach it *)

Lemma value_of_Ok {A} (r : res (A * tape)) a :
  value_of r = Ok a → ∃ t', r = Ok (a, t').
Proof. destruct r as [[a' t']| |]; [|done..]. intros [= ->]. by exists t'. Qed.

Lemma built_values correct vals q :
  built correct vals q → dict_values q.1 = i2s <$> vals.
Proof.
  intros [-> Hlen _ _ _ _]. unfold dict_values. apply snd_zip.
  rewrite length_fmap, Hlen. simpl. lia.
Qed.

Lemma i2s_inj : Inj (=) (=) i2s.
Proof. unfold i2s. apply _. Qed.

Lemma lift_Ok {A} (r : res A) t a t' : lift r t = Ok (a, t') → r = Ok a ∧ t' = t.
Proof. unfold lift. destruct r; [|done..]. by intros [= -> ->]. Qed.

Section Generated.
Context {libm : Libm}.

Lemma U1_ask_post fuel d qtype :
  post (U1.ask fuel d qtype)
       (λ q, ∃ correct, U1.computeAnswer d qtype = Ok correct ∧
                        asked correct (asks_symmetry d qtype) q).
Proof.
  destruct d; cbn [U1.ask U1.computeAnswer asks_symmetry];
    unfold U1.ask_square, U1.ask_rectangle, U1.ask_equilateral_triangle,
      U1.ask_isosceles_triangle, U1.ask_scalene_triangle, U1.ask_trapezium,
      U1.ask_parallelogram, U1.ask_circle, U1.ask_regular_ngon, by_qtype;
    cbv zeta;
    repeat (match goal with |- context [String.eqb qtype ?s] =>
              destruct (String.eqb qtype s) end);
    repeat (float_step; cbv beta in * ).
  all: try (builder_step U1_mcq_options_int_post;
            eexists; split;
            [first [eassumption | reflexivity | by repeat erewrite res_bind_Ok]|];
            eexists; split; [eassumption | exact Hd]).
  all: builder_step U1_mcq_options_small_post.
  all: eexists; split; [reflexivity|]; eexists; split; [eassumption|].
  all: eapply distractors_pool; [exact Hd|];
    first [ apply seqZ_nonneg | finish_forall ].
Qed.

(** What a run of [gen_one] consists of, for a shape of the catalogue: the
    tier's range is looked up, the question type drawn, the dimensions
    sampled, and the question built from these dimensions and this type. *)
Lemma RSG_gen_one_run fuel shape diff t q t' :
  shape ∈ SHAPES →
  RSG.gen_one fuel shape diff t = Ok (q, t') →
  ∃ rng qtype t1 d t2,
    dict_get DIFF_RANGES diff = Ok rng ∧
    RSG.choose_qtype shape t = Ok (qtype, t1) ∧
    RSG_sampled shape rng d t1 t2 ∧
    RSG.ask fuel d qtype t2 = Ok (q, t').
Proof.
  intros Hshape Hrun. unfold RSG.gen_one in Hrun.
  apply bind_Ok in Hrun as (rng & t0 & [Hrng ->]%lift_Ok & Hrun).
  apply bind_Ok in Hrun as (qtype & t1 & Hq & Hrun).
  exists rng, qtype, t1.
  repeat (match type of Hrun with context [String.eqb shape ?s] =>
            destruct (String.eqb_spec shape s) as [->|?] end;
          [ unfold RSG.gen_square, RSG.gen_rectangle,
              RSG.gen_equilateral_triangle, RSG.gen_isosceles_triangle,
              RSG.gen_scalene_triangle, RSG.gen_trapezium,
              RSG.gen_parallelogram, RSG.gen_circle, RSG.gen_regular_ngon
              in Hrun;
            apply bind_Ok in Hrun as (x & t2 & Hs & Hrun) | ]).
  - exists (DSquare x), t2. by repeat split.
  - destruct x as [w h]. exists (DRectangle w h), t2. by repeat split.
  - exists (DEquilateral x), t2. by repeat split.
  - destruct x as [base height]. exists (DIsosceles base height), t2.
    by repeat split.
  - destruct x as [[a b] c]. exists (DScalene a b c), t2. by repeat split.
  - destruct x as [[top bottom] h]. exists (DTrapezium top bottom h), t2.
    by repeat split.
  - destruct x as [[b h] slant]. exists (DParallelogram b h slant), t2.
    by repeat split.
  - exists (DCircle x), t2. by repeat split.
  - apply bind_Ok in Hrun as (angle & ? & [_ ->]%lift_Ok & Hrun).
    apply bind_Ok in Hrun as (R & ? & [_ ->]%lift_Ok & Hrun).
    exists (DNgon 6 x), t2. cbn [RSG_sampled RSG.ask]. auto 10.
  - apply bind_Ok in Hrun as (angle & ? & [_ ->]%lift_Ok & Hrun).
    apply bind_Ok in Hrun as (R & ? & [_ ->]%lift_Ok & Hrun).
    exists (DNgon 5 x), t2. cbn [RSG_sampled RSG.ask]. auto 10.
  - apply list_elem_of_In in Hshape. simpl in Hshape. intuition congruence.
Qed.

Lemma U1_gen_one_run fuel shape diff t q t' :
  shape ∈ SHAPES →
  U1.gen_one fuel shape diff t = Ok (q, t') →
  ∃ rng qtype t1 d t2,
    dict_get DIFF_RANGES diff = Ok rng ∧
    U1.choose_qtype shape t = Ok (qtype, t1) ∧
    U1_sampled shape rng d t1 t2 ∧
    U1.ask fuel d qtype t2 = Ok (q, t').
Proof.
  intros Hshape Hrun. unfold U1.gen_one in Hrun.
  apply bind_Ok in Hrun as (rng & t0 & [Hrng ->]%lift_Ok & Hrun).
  apply bind_Ok in Hrun as (qtype & t1 & Hq & Hrun).
  exists rng, qtype, t1.
  repeat (match type of Hrun with context [String.eqb shape ?s] =>
            destruct (String.eqb_spec shape s) as [->|?] end;
          [ unfold U1.gen_square, U1.gen_rectangle,
              U1.gen_equilateral_triangle, U1.gen_isosceles_triangle,
              U1.gen_scalene_triangle, U1.gen_trapezium,
              U1.gen_parallelogram, U1.gen_circle, U1.gen_regular_ngon
              in Hrun;
            apply bind_Ok in Hrun as (x & t2 & Hs & Hrun) | ]).
  - exists (DSquare x), t2. by repeat split.
  - destruct x as [w h]. exists (DRectangle w h), t2. by repeat split.
  - exists (DEquilateral x), t2. by repeat split.
  - destruct x as [base height]. exists (DIsosceles base height), t2.
    by repeat split.
  - destruct x as [[a b] c]. exists (DScalene a b c), t2. by repeat split.
  - destruct x as [[top bottom] h]. exists (DTrapezium top bottom h), t2.
    by repeat split.
  - destruct x as [[b h] slant]. exists (DParallelogram b h slant), t2.
    by repeat split.
  - exists (DCircle x), t2. by repeat split.
  - apply bind_Ok in Hrun as (angle & ? & [_ ->]%lift_Ok & Hrun).
    apply bind_Ok in Hrun as (R & ? & [_ ->]%lift_Ok & Hrun).
    exists (DNgon 6 x), t2. cbn [U1_sampled U1.ask]. auto 10.
  - apply bind_Ok in Hrun as (angle & ? & [_ ->]%lift_Ok & Hrun).
    apply bind_Ok in Hrun as (R & ? & [_ ->]%lift_Ok & Hrun).
    exists (DNgon 5 x), t2. cbn [U1_sampled U1.ask]. auto 10.
  - apply list_elem_of_In in Hshape. simpl in Hshape. intuition congruence.
Qed.

End Generated.

Lemma asked_options correct symmetry (q : question) :
  asked correct symmetry q →
  ∃ vals,
    q.1.2 = zip labels (i2s <$> vals) ∧
    length (dict_values q.1.2) = 5%nat ∧
    NoDup (dict_values q.1.2) ∧
    (∃ i, ∀ j, dict_values q.1.2 !! j = Some (i2s correct) ↔ j = i) ∧
    (∀ v, v ∈ vals → v ≠ correct → if symmetry then 0 ≤ v else 0 < v).
Proof.
  intros (vals & Hb & Hdis). exists vals.
  pose proof (built_values _ _ _ Hb) as Hvals. simpl in Hvals.
  destruct Hb as [Hdict Hlen Hnd Hin _ _]. simpl in Hdict.
  assert (Hndv : NoDup (dict_values q.1.2)).
  { rewrite Hvals. apply (NoDup_fmap_2 _), Hnd. }
  split; [done|]. split; [by rewrite Hvals, length_fmap|]. split; [done|].
  split; [|exact Hdis].
  apply list_elem_of_lookup in Hin as [i Hi]. exists i. intros j. split.
  - intros Hj. eapply NoDup_lookup; [exact Hndv|exact Hj|].
    by rewrite Hvals, list_lookup_fmap, Hi.
  - intros ->. by rewrite Hvals, list_lookup_fmap, Hi.
Qed.

(** C1, as stated, fails: when the first draw picks the symmetry question
    for a rectangle, the options are the five values 0..4, and "0" is not
    positive. *)
Lemma C1_counterexample :
  ∃ q, value_of (RSG.gen_one (libm := libm_nan) 50 "rectangle" "easy"
                   (tape_cons 3 tape_id)) = Ok q ∧
       q.1.1 = symmetry_text ∧
       (∀ s, s ∈ dict_values q.1.2 ↔ s ∈ ["0"; "1"; "2"; "3"; "4"]) ∧
       ¬ Forall positive_value (dict_values q.1.2).
Proof.
  eexists. split; [vm_compute; reflexivity|]. split; [reflexivity|].
  split.
  { intros s. cbn. set_unfold. tauto. }
  intros H. cbn in H. rewrite !Forall_cons in H.
  destruct H as (_ & (v & Hv & Heq) & _).
  change "0" with (i2s 0) in Heq. apply i2s_inj in Heq. lia.
Qed.

(** C1 (amended): a run of [gen_one] that returns a question for a shape of
    the catalogue has drawn a question type [qtype], sampled dimensions [d]
    and built the question from them; the options of that question lie
    under the labels A..E in order and hold the decimal strings of five
    pairwise distinct integers; exactly one position holds the answer
    computed for [d] and [qtype]; every other value is positive, or
    non-negative when the question is the symmetry one. In both scripts. *)
Theorem C1_options_invariant (libm : Libm) fuel shape diff t q t' :
  shape ∈ SHAPES →
  (RSG.gen_one fuel shape diff t = Ok (q, t') →
   ∃ rng qtype t1 d t2 correct vals,
     dict_get DIFF_RANGES diff = Ok rng ∧
     RSG.choose_qtype shape t = Ok (qtype, t1) ∧
     RSG_sampled shape rng d t1 t2 ∧
     RSG.ask fuel d qtype t2 = Ok (q, t') ∧
     RSG.computeAnswer d qtype = Ok correct ∧
     q.1.2 = zip labels (i2s <$> vals) ∧
     length (dict_values q.1.2) = 5%nat ∧
     NoDup (dict_values q.1.2) ∧
     (∃ i, ∀ j, dict_values q.1.2 !! j = Some (i2s correct) ↔ j = i) ∧
     (∀ v, v ∈ vals → v ≠ correct →
           if asks_symmetry d qtype then 0 ≤ v else 0 < v)) ∧
  (U1.gen_one fuel shape diff t = Ok (q, t') →
   ∃ rng qtype t1 d t2 correct vals,
     dict_get DIFF_RANGES diff = Ok rng ∧
     U1.choose_qtype shape t = Ok (qtype, t1) ∧
     U1_sampled shape rng d t1 t2 ∧
     U1.ask fuel d qtype t2 = Ok (q, t') ∧
     U1.computeAnswer d qtype = Ok correct ∧
     q.1.2 = zip labels (i2s <$> vals) ∧
     length (dict_values q.1.2) = 5%nat ∧
     NoDup (dict_values q.1.2) ∧
     (∃ i, ∀ j, dict_values q.1.2 !! j = Some (i2s correct) ↔ j = i) ∧
     (∀ v, v ∈ vals → v ≠ correct →
           if asks_symmetry d qtype then 0 ≤ v else 0 < v)).
Proof.
  intros Hshape. split; intros Hrun.
  - destruct (RSG_gen_one_run _ _ _ _ _ _ Hshape Hrun)
      as (rng & qtype & t1 & d & t2 & Hrng & Hq & Hs & Hask).
    destruct (RSG_ask_post _ _ _ _ _ _ Hask) as (correct & Hc & Hasked).
    destruct (asked_options _ _ _ Hasked) as (vals & Hopts).
    exists rng, qtype, t1, d, t2, correct, vals. auto 10.
  - destruct (U1_gen_one_run _ _ _ _ _ _ Hshape Hrun)
      as (rng & qtype & t1 & d & t2 & Hrng & Hq & Hs & Hask).
    destruct (U1_ask_post _ _ _ _ _ _ Hask) as (correct & Hc & Hasked).
    destruct (asked_options _ _ _ Hasked) as (vals & Hopts).
    exists rng, qtype, t1, d, t2, correct, vals. auto 10.
Qed.

Lemma C1_options_invariant_witness :
  ∃ q rng qtype t1 d t2 correct vals,
    value_of (RSG.gen_one (libm := libm_nan) 50 "rectangle" "easy" tape_sq) = Ok q ∧
    dict_get DIFF_RANGES "easy" = Ok rng ∧
    RSG.choose_qtype "rectangle" tape_sq = Ok (qtype, t1) ∧
    RSG_sampled "rectangle" rng d t1 t2 ∧
    value_of (RSG.ask (libm := libm_nan) 50 d qtype t2) = Ok q ∧
    RSG.computeAnswer (libm := libm_nan) d qtype = Ok correct ∧
    q.1.2 = zip labels (i2s <$> vals) ∧
    length (dict_values q.1.2) = 5%nat ∧
    NoDup (dict_values q.1.2) ∧
    (∃ i, ∀ j, dict_values q.1.2 !! j = Some (i2s correct) ↔ j = i) ∧
    (∀ v, v ∈ vals → v ≠ correct →
          if asks_symmetry d qtype then 0 ≤ v else 0 < v).
Proof.
  assert (∃ q, value_of (RSG.gen_one (libm := libm_nan) 50 "rectangle" "easy"
                           tape_sq) = Ok q) as [q Hq].
  { eexists. vm_compute. reflexivity. }
  destruct (value_of_Ok _ _ Hq) as [t' E].
  assert (Hs : "rectangle" ∈ SHAPES) by (apply list_elem_of_In; simpl; tauto).
  destruct (proj1 (C1_options_invariant libm_nan 50 "rectangle" "easy" tape_sq
                     q t' Hs) E)
    as (rng & qtype & t1 & d & t2 & correct & vals & H1 & H2 & H3 & H4 & H).
  exists q, rng, qtype, t1, d, t2, correct, vals.
  split; [exact Hq|]. split; [exact H1|]. split; [exact H2|].
  split; [exact H3|]. split; [by rewrite H4|exact H].
Defined.

(** C2: in every builder of both scripts the options mapping looked up at
    the returned letter gives the decimal string of the builder's argument
    [correct]; and a run of [gen_one] of either script that returns a
    question has drawn a type [qtype], sampled dimensions [d], built the
    question from them, and the options looked up at the returned letter
    give the decimal string of the very integer computed for [d] and
    [qtype]. *)
Theorem C2_correct_letter_lookup :
  (∀ fuel correct spread t opts letter t',
      RSG.mcq_options_int fuel correct spread t = Ok ((opts, letter), t') →
      dict_get opts letter = Ok (i2s correct)) ∧
  (∀ fuel correct candidates t opts letter t',
      RSG.mcq_options_small_set fuel correct candidates t
      = Ok ((opts, letter), t') →
      dict_get opts letter = Ok (i2s correct)) ∧
  (∀ fuel correct t opts letter t',
      U1.mcq_options_int fuel correct t = Ok ((opts, letter), t') →
      dict_get opts letter = Ok (i2s correct)) ∧
  (∀ fuel correct pool t opts letter t',
      U1.mcq_options_small fuel correct pool t = Ok ((opts, letter), t') →
      dict_get opts letter = Ok (i2s correct)) ∧
  (∀ (libm : Libm) fuel shape diff t qtext opts letter t',
      shape ∈ SHAPES →
      RSG.gen_one fuel shape diff t = Ok ((qtext, opts, letter), t') →
      ∃ rng qtype t1 d t2 correct,
        dict_get DIFF_RANGES diff = Ok rng ∧
        RSG.choose_qtype shape t = Ok (qtype, t1) ∧
        RSG_sampled shape rng d t1 t2 ∧
        RSG.ask fuel d qtype t2 = Ok ((qtext, opts, letter), t') ∧
        RSG.computeAnswer d qtype = Ok correct ∧
        letter ∈ labels ∧
        dict_get opts letter = Ok (i2s correct)) ∧
  (∀ (libm : Libm) fuel shape diff t qtext opts letter t',
      shape ∈ SHAPES →
      U1.gen_one fuel shape diff t = Ok ((qtext, opts, letter), t') →
      ∃ rng qtype t1 d t2 correct,
        dict_get DIFF_RANGES diff = Ok rng ∧
        U1.choose_qtype shape t = Ok (qtype, t1) ∧
        U1_sampled shape rng d t1 t2 ∧
        U1.ask fuel d qtype t2 = Ok ((qtext, opts, letter), t') ∧
        U1.computeAnswer d qtype = Ok correct ∧
        letter ∈ labels ∧
        dict_get opts letter = Ok (i2s correct)).
Proof.
  split_and!.
  - intros fuel correct spread t opts letter t' Hrun.
    destruct (RSG_mcq_options_int_post _ _ _ _ _ _ Hrun) as (vals & Hb & _).
    apply Hb.
  - intros fuel correct candidates t opts letter t' Hrun.
    destruct (RSG_mcq_options_small_set_post _ _ _ _ _ _ Hrun) as (vals & Hb & _).
    apply Hb.
  - intros fuel correct t opts letter t' Hrun.
    destruct (U1_mcq_options_int_post _ _ _ _ _ Hrun) as (vals & Hb & _).
    apply Hb.
  - intros fuel correct pool t opts letter t' Hrun.
    destruct (U1_mcq_options_small_post _ _ _ _ _ _ Hrun) as (vals & Hb & _).
    apply Hb.
  - intros libm fuel shape diff t qtext opts letter t' Hshape Hrun.
    destruct (RSG_gen_one_run _ _ _ _ _ _ Hshape Hrun)
      as (rng & qtype & t1 & d & t2 & Hrng & Hq & Hs & Hask).
    destruct (RSG_ask_post _ _ _ _ _ _ Hask) as (correct & Hc & vals & Hb & _).
    exists rng, qtype, t1, d, t2, correct.
    split_and!; [done..|apply Hb|apply Hb].
  - intros libm fuel shape diff t qtext opts letter t' Hshape Hrun.
    destruct (U1_gen_one_run _ _ _ _ _ _ Hshape Hrun)
      as (rng & qtype & t1 & d & t2 & Hrng & Hq & Hs & Hask).
    destruct (U1_ask_post _ _ _ _ _ _ Hask) as (correct & Hc & vals & Hb & _).
    exists rng, qtype, t1, d, t2, correct.
    split_and!; [done..|apply Hb|apply Hb].
Qed.

Lemma C2_correct_letter_lookup_witness :
  ∃ qtext opts letter rng qtype t1 d t2 correct,
    value_of (U1.gen_one (libm := libm_nan) 50 "square" "easy" tape_sq)
      = Ok (qtext, opts, letter) ∧
    dict_get DIFF_RANGES "easy" = Ok rng ∧
    U1.choose_qtype "square" tape_sq = Ok (qtype, t1) ∧
    U1_sampled "square" rng d t1 t2 ∧
    U1.computeAnswer (libm := libm_nan) d qtype = Ok correct ∧
    letter ∈ labels ∧
    dict_get opts letter = Ok (i2s correct).
Proof.
  assert (∃ q, value_of (U1.gen_one (libm := libm_nan) 50 "square" "easy"
                           tape_sq) = Ok q) as [[[qtext opts] letter] Hq].
  { eexists. vm_compute. reflexivity. }
  destruct (value_of_Ok _ _ Hq) as [t' E].
  assert (Hs : "square" ∈ SHAPES) by (apply list_elem_of_In; simpl; tauto).
  destruct (proj2 (proj2 (proj2 (proj2 (proj2 C2_correct_letter_lookup))))
              libm_nan 50%nat "square" "easy" tape_sq qtext opts letter t' Hs E)
    as (rng & qtype & t1 & d & t2 & correct & H1 & H2 & H3 & _ & H5 & H6 & H7).
  exists qtext, opts, letter, rng, qtype, t1, d, t2, correct.
  split; [exact Hq|]. split; [exact H1|]. split; [exact H2|].
  split; [exact H3|]. split; [exact H5|]. split; [exact H6|exact H7].
Defined.

(** ** The circle *)

Lemma ask_circle_text fuel r qtype :
  post (RSG.ask_circle fuel r qtype)
       (λ q, q.1.1 = area_text ∨ q.1.1 = circumference_text
             ∨ ∃ C, q.1.1 = "The circumference is " +:+ i2s C
                            +:+ " cm. Find the radius (in cm)." ).
Proof.
  unfold RSG.ask_circle. cbv zeta.
  repeat (match goal with |- context [String.eqb qtype ?s] =>
            destruct (String.eqb qtype s) end);
    float_step; builder_step RSG_mcq_options_int_post; simpl; eauto.
Qed.

(** C9: for the circle, [gen_one] draws the question type from area,
    perimeter and missing only; given any other type (symmetry included)
    the circle generator runs its circumference branch; and no question
    returned for a circle carries the symmetry text. *)
Theorem C9_circle_never_symmetry :
  (∀ t qtype t', RSG.choose_qtype "circle" t = Ok (qtype, t') →
                 qtype ∈ ["area"; "perimeter"; "missing"]) ∧
  (∀ fuel r qtype, qtype ∉ ["area"; "perimeter"; "missing"] →
                   RSG.ask_circle fuel r qtype = RSG.ask_circle fuel r "perimeter") ∧
  (∀ fuel rng qtype t q t',
      RSG.gen_circle fuel rng qtype t = Ok (q, t') → q.1.1 ≠ symmetry_text) ∧
  (∀ (libm : Libm) fuel diff t q t',
      RSG.gen_one fuel "circle" diff t = Ok (q, t') → q.1.1 ≠ symmetry_text).
Proof.
  assert (Htext : ∀ fuel rng qtype,
             post (RSG.gen_circle fuel rng qtype) (λ q, q.1.1 ≠ symmetry_text)).
  { intros fuel rng qtype. unfold RSG.gen_circle.
    eapply post_bind; [apply post_True|]. intros r _.
    eapply post_weaken; [apply ask_circle_text|].
    intros q [->|[->|[C ->]]]; done. }
  repeat split.
  - intros t qtype t' Hrun. exact (post_choice _ _ _ _ Hrun).
  - intros fuel r qtype Hq. unfold RSG.ask_circle.
    destruct (String.eqb_spec qtype "area") as [->|_]; [set_solver|].
    destruct (String.eqb_spec qtype "perimeter") as [->|_]; [set_solver|].
    destruct (String.eqb_spec qtype "missing") as [->|_]; [set_solver|].
    reflexivity.
  - intros fuel rng qtype t q t' Hrun. exact (Htext _ _ _ _ _ _ Hrun).
  - intros libm fuel diff t q t' Hrun. revert t q t' Hrun.
    change (post (RSG.gen_one fuel "circle" diff) (λ q, q.1.1 ≠ symmetry_text)).
    unfold RSG.gen_one.
    eapply post_bind; [apply post_True|]. intros rng _.
    eapply post_bind; [apply post_True|]. intros qtype _.
    cbn. apply Htext.
Qed.

Lemma C9_circle_never_symmetry_witness :
  ∃ q, value_of (RSG.gen_one (libm := libm_nan) 50 "circle" "easy" tape_sq) = Ok q ∧
       q.1.1 ≠ symmetry_text.
Proof.
  assert (∃ q, value_of (RSG.gen_one (libm := libm_nan) 50 "circle" "easy" tape_sq)
               = Ok q) as [q Hq].
  { eexists. vm_compute. reflexivity. }
  destruct (value_of_Ok _ _ Hq) as [t' E].
  exists q. split; [exact Hq|].
  exact (proj2 (proj2 (proj2 C9_circle_never_symmetry)) libm_nan 50%nat "easy"
           tape_sq q t' E).
Defined.

(** ** The two manifests *)

Section Records.
Context {libm : Libm}.

Lemma RSG_main_record_post fuel i :
  post (RSG.main_record fuel i)
       (λ r, ∃ letter correct,
           letter ∈ labels ∧
           dict_get (r_options r) letter = Ok (r_correct_answer r) ∧
           r_correct_answer r = i2s correct).
Proof.
  unfold RSG.main_record.
  eapply post_bind; [apply post_True|]. intros diff _.
  eapply post_bind; [apply post_choice|]. intros shape Hshape.
  eapply post_bind; [by apply RSG_gen_one_post|].
  intros [[qtext options] letter] (d & qtype & correct & _ & _ & vals & Hb & _).
  destruct Hb as [_ _ _ _ Hl Hget]. simpl in Hl, Hget.
  eapply post_bind; [apply post_lift; intros a H; exact H|].
  intros answer Ha. cbv beta in Ha. apply post_ret. simpl.
  exists letter, correct. repeat split; congruence.
Qed.

Lemma U1_build_one_post fuel idx :
  post (U1.build_one fuel idx)
       (λ r, r_correct_answer r ∈ labels ∧
             ∃ correct,
               dict_get (r_options r) (r_correct_answer r) = Ok (i2s correct)).
Proof.
  unfold U1.build_one.
  eapply post_bind; [apply post_True|]. intros diff _.
  eapply post_bind; [apply post_True|]. intros shape _.
  eapply post_bind; [apply U1_gen_one_post|].
  intros [[qtext options] letter] (correct & vals & Hb).
  destruct Hb as [_ _ _ _ Hl Hget]. simpl in Hl, Hget.
  apply post_ret. simpl. split; [done|]. by exists correct.
Qed.

End Records.

Section Records_run.
Context {libm : Libm}.

Lemma RSG_main_record_run fuel i t r t' :
  RSG.main_record fuel i t = Ok (r, t') →
  ∃ diff t1 shape t2 qtext opts letter,
    choice RSG.DIFF_LIST t = Ok (diff, t1) ∧
    choice SHAPES t1 = Ok (shape, t2) ∧
    RSG.gen_one fuel shape diff t2 = Ok ((qtext, opts, letter), t') ∧
    r_question r = qtext ∧ r_options r = opts ∧
    letter ∈ labels ∧
    dict_get opts letter = Ok (r_correct_answer r) ∧
    ∃ correct, r_correct_answer r = i2s correct.
Proof.
  intros Hrun. unfold RSG.main_record in Hrun.
  apply bind_Ok in Hrun as (diff & t1 & Hdiff & Hrun).
  apply bind_Ok in Hrun as (shape & t2 & Hshape & Hrun).
  apply bind_Ok in Hrun as ([[qtext opts] letter] & t3 & Hgen & Hrun).
  apply bind_Ok in Hrun as (answer & t4 & [Hans ->]%lift_Ok & Hrun).
  injection Hrun as <- <-.
  assert (Hin : shape ∈ SHAPES) by exact (post_choice _ _ _ _ Hshape).
  destruct (RSG_gen_one_post fuel shape diff Hin _ _ _ Hgen)
    as (d & qtype & correct & _ & _ & vals & Hb & _).
  destruct Hb as [_ _ _ _ Hl Hget]. simpl in Hl, Hget.
  exists diff, t1, shape, t2, qtext, opts, letter. simpl.
  split_and!; try done. exists correct. congruence.
Qed.

Lemma U1_build_one_run fuel idx t r t' :
  U1.build_one fuel idx t = Ok (r, t') →
  ∃ diff t1 shape t2 qtext opts letter,
    choice U1.DIFF_LEVELS t = Ok (diff, t1) ∧
    choice SHAPES t1 = Ok (shape, t2) ∧
    U1.gen_one fuel shape diff t2 = Ok ((qtext, opts, letter), t') ∧
    r_question r = qtext ∧ r_options r = opts ∧
    r_correct_answer r = letter ∧
    letter ∈ labels ∧
    ∃ correct, dict_get opts letter = Ok (i2s correct).
Proof.
  intros Hrun. unfold U1.build_one in Hrun.
  apply bind_Ok in Hrun as (diff & t1 & Hdiff & Hrun).
  apply bind_Ok in Hrun as (shape & t2 & Hshape & Hrun).
  apply bind_Ok in Hrun as ([[qtext opts] letter] & t3 & Hgen & Hrun).
  injection Hrun as <- <-.
  destruct (U1_gen_one_post fuel shape diff _ _ _ Hgen) as (correct & vals & Hb).
  destruct Hb as [_ _ _ _ Hl Hget]. simpl in Hl, Hget.
  exists diff, t1, shape, t2, qtext, opts, letter. simpl.
  split_and!; try done. by exists correct.
Qed.

End Records_run.

(** C10: a record of randomShapeGenerator.py carries under "correct_answer"
    the value string the options of its question hold at the letter
    [gen_one] returned, a decimal string; a record of untitled1.py carries
    that letter itself, one of A..E, under the same key; so the field of a
    record of the first never equals the field of a record of the second,
    whatever the questions. *)
Theorem C10_correct_answer_field (libm : Libm) :
  (∀ fuel i t r t',
      RSG.main_record fuel i t = Ok (r, t') →
      ∃ diff t1 shape t2 qtext opts letter,
        choice RSG.DIFF_LIST t = Ok (diff, t1) ∧
        choice SHAPES t1 = Ok (shape, t2) ∧
        RSG.gen_one fuel shape diff t2 = Ok ((qtext, opts, letter), t') ∧
        r_question r = qtext ∧ r_options r = opts ∧
        letter ∈ labels ∧
        dict_get opts letter = Ok (r_correct_answer r) ∧
        ∃ correct, r_correct_answer r = i2s correct) ∧
  (∀ fuel idx t r t',
      U1.build_one fuel idx t = Ok (r, t') →
      ∃ diff t1 shape t2 qtext opts letter,
        choice U1.DIFF_LEVELS t = Ok (diff, t1) ∧
        choice SHAPES t1 = Ok (shape, t2) ∧
        U1.gen_one fuel shape diff t2 = Ok ((qtext, opts, letter), t') ∧
        r_question r = qtext ∧ r_options r = opts ∧
        r_correct_answer r = letter ∧
        letter ∈ labels ∧
        ∃ correct, dict_get opts letter = Ok (i2s correct)) ∧
  (∀ fuel1 fuel2 i idx t1 t2 r1 r2 t1' t2',
      RSG.main_record fuel1 i t1 = Ok (r1, t1') →
      U1.build_one fuel2 idx t2 = Ok (r2, t2') →
      r_correct_answer r1 ≠ r_correct_answer r2 ∧ r1 ≠ r2).
Proof.
  split_and!.
  - intros fuel i t r t'. apply RSG_main_record_run.
  - intros fuel idx t r t'. apply U1_build_one_run.
  - intros fuel1 fuel2 i idx t1 t2 r1 r2 t1' t2' Hrun1 Hrun2.
    destruct (RSG_main_record_post _ _ _ _ _ Hrun1)
      as (_ & correct & _ & _ & Heq).
    destruct (U1_build_one_post _ _ _ _ _ Hrun2) as [Hl _].
    assert (Hne : r_correct_answer r1 ≠ r_correct_answer r2).
    { rewrite Heq. by apply i2s_not_label. }
    split; [done|]. by intros ->.
Qed.

Lemma C10_correct_answer_field_witness :
  ∃ r1 r2,
    value_of (RSG.main_record (libm := libm_nan) 50 7 tape_sq) = Ok r1 ∧
    value_of (U1.build_one (libm := libm_nan) 50 7 tape_sq) = Ok r2 ∧
    r_correct_answer r1 = "8" ∧ r_correct_answer r2 = "E" ∧
    r_correct_answer r1 ≠ r_correct_answer r2 ∧ r1 ≠ r2.
Proof.
  assert (∃ r, value_of (RSG.main_record (libm := libm_nan) 50 7 tape_sq) = Ok r
               ∧ r_correct_answer r = "8") as (r1 & H1 & Ha1).
  { eexists. split; [vm_compute; reflexivity|reflexivity]. }
  assert (∃ r, value_of (U1.build_one (libm := libm_nan) 50 7 tape_sq) = Ok r
               ∧ r_correct_answer r = "E") as (r2 & H2 & Ha2).
  { eexists. split; [vm_compute; reflexivity|reflexivity]. }
  destruct (value_of_Ok _ _ H1) as [t1' E1].
  destruct (value_of_Ok _ _ H2) as [t2' E2].
  exists r1, r2. repeat split; try assumption;
    apply (proj2 (proj2 (C10_correct_answer_field libm_nan))
             50%nat 50%nat 7 7 tape_sq tape_sq r1 r2 t1' t2' E1 E2).
Defined.

(** ** Missing-dimension questions *)

(** C6: the missing-dimension question of every shape states the quantity
    obtained by applying the shape's area (or perimeter) formula to the
    sampled dimensions, the hidden one included, and its correct option is
    that hidden dimension: recomputing the formula with the correct value in
    place of the hidden dimension gives back the stated number. *)
Theorem C6_missing_dimension_round_trip (libm : Libm) fuel d t qtext opts letter t' :
  RSG.ask fuel d "missing" t = Ok ((qtext, opts, letter), t') →
  ∃ known,
    RSG.computeAnswer d (RSG.known_kind d) = Ok known ∧
    qtext = RSG.missing_text d known ∧
    RSG.computeAnswer d "missing" = Ok (RSG.hidden d) ∧
    dict_get opts letter = Ok (i2s (RSG.hidden d)).
Proof.
  revert t qtext opts letter t'.
  cut (post (RSG.ask fuel d "missing")
         (λ q, ∃ known,
             RSG.computeAnswer d (RSG.known_kind d) = Ok known ∧
             q.1.1 = RSG.missing_text d known ∧
             RSG.computeAnswer d "missing" = Ok (RSG.hidden d) ∧
             dict_get q.1.2 q.2 = Ok (i2s (RSG.hidden d)))).
  { intros Hpost t qtext opts letter t' Hrun. exact (Hpost _ _ _ Hrun). }
  destruct d; cbn [RSG.ask RSG.computeAnswer RSG.known_kind RSG.hidden
                     RSG.missing_text];
    unfold RSG.ask_square, RSG.ask_rectangle, RSG.ask_equilateral_triangle,
      RSG.ask_isosceles_triangle, RSG.ask_scalene_triangle, RSG.ask_trapezium,
      RSG.ask_parallelogram, RSG.ask_circle, RSG.ask_regular_ngon, by_qtype;
    cbn [String.eqb Ascii.eqb Bool.eqb]; cbv zeta;
    try (float_step; cbv beta in * );
    builder_step RSG_mcq_options_int_post;
    eexists; (split; [first [eassumption | reflexivity]|]);
    (split; [reflexivity|]); (split; [reflexivity|]); apply Hb.
Qed.

Lemma C6_missing_dimension_round_trip_witness :
  ∃ opts letter,
    value_of (RSG.ask (libm := libm_nan) 50 (DCircle 3) "missing" tape_sq)
    = Ok ("The circumference is 19 cm. Find the radius (in cm).", opts, letter) ∧
    RSG.computeAnswer (libm := libm_nan) (DCircle 3) "perimeter" = Ok 19 ∧
    dict_get opts letter = Ok (i2s 3).
Proof.
  assert (∃ opts letter,
             value_of (RSG.ask (libm := libm_nan) 50 (DCircle 3) "missing" tape_sq)
             = Ok ("The circumference is 19 cm. Find the radius (in cm).",
                   opts, letter)) as (opts & letter & Hq).
  { eexists _, _. vm_compute. reflexivity. }
  destruct (value_of_Ok _ _ Hq) as [t' E].
  destruct (C6_missing_dimension_round_trip libm_nan _ _ _ _ _ _ _ E)
    as (known & Hk & _ & _ & Hget).
  exists opts, letter. split; [exact Hq|]. split; [vm_compute; reflexivity|exact Hget].
Defined.

(** ** Sampled dimensions *)

Lemma post_randint_in rng : post (randint rng.1 rng.2) (in_range rng).
Proof. apply post_randint. Qed.

Lemma RSG_scalene_loop_post n rng a b c :
  in_range rng a → in_range rng b → in_range rng c →
  post (RSG.scalene_loop n rng a b c)
       (λ '(a, b, c), in_range rng a ∧ in_range rng b ∧ in_range rng c).
Proof.
  revert a b c. induction n as [|n IH]; intros a b c Ha Hb Hc;
    cbn [RSG.scalene_loop]; destruct (negb (RSG.valid a b c));
    try by apply post_ret.
  eapply post_bind; [apply post_randint_in|]. intros a' Ha'.
  eapply post_bind; [apply post_randint_in|]. intros b' Hb'.
  eapply post_bind; [apply post_randint_in|]. intros c' Hc'.
  by apply IH.
Qed.

Lemma U1_scalene_loop_post n rng a b c :
  post (U1.scalene_loop n rng a b c)
       (λ '(a', b', c'),
          (in_range rng a' ∧ in_range rng b' ∧ in_range rng c')
          ∨ (a', b', c') = (a, b, c)).
Proof.
  revert a b c. induction n as [|n IH]; intros a b c; cbn [U1.scalene_loop].
  { apply post_ret. by right. }
  eapply post_bind; [apply post_randint_in|]. intros a' Ha'.
  eapply post_bind; [apply post_randint_in|]. intros b' Hb'.
  eapply post_bind; [apply post_randint_in|]. intros c' Hc'.
  destruct (_ && _).
  { apply post_ret. by left. }
  eapply post_weaken; [apply IH|].
  intros [[a2 b2] c2] [?|[= -> -> ->]]; left; auto.
Qed.





Lemma RSG_dims_scalene_triangle_post rng :
  post (RSG.dims_scalene_triangle rng)
       (λ '(a, b, c), in_range rng a ∧ in_range rng b ∧ in_range rng c).
Proof.
  unfold RSG.dims_scalene_triangle.
  eapply post_bind; [apply post_randint_in|]. intros a Ha.
  eapply post_bind; [apply post_randint_in|]. intros b Hb.
  eapply post_bind; [apply post_randint_in|]. intros c Hc.
  eapply post_bind; [by apply RSG_scalene_loop_post|].
  intros [[a' b'] c'] H. destruct (a' =? 0); [apply post_raise|by apply post_ret].
Qed.

Lemma U1_dims_scalene_triangle_post rng :
  post (U1.dims_scalene_triangle rng)
       (λ '(a, b, c), in_range rng a ∧ in_range rng b ∧ in_range rng c).
Proof.
  unfold U1.dims_scalene_triangle.
  eapply post_bind; [apply U1_scalene_loop_post|].
  intros [[a b] c] H. destruct (Z.eqb_spec a 0) as [->|Hne]; [apply post_raise|].
  apply post_ret. destruct H as [H|[= -> _ _]]; done.
Qed.







(** ** Scalene triangles *)

(** C5 fails on the code: when the first draw and each of the hundred
    redraws are invalid, both scripts go on with the last triple, here
    (1, 1, 10), and build a question about it. *)
Lemma C5_degenerate_triple_used :
  value_of (RSG.dims_scalene_triangle (1, 10) tape_degenerate) = Ok (1, 1, 10) ∧
  value_of (U1.dims_scalene_triangle (1, 10) tape_degenerate) = Ok (1, 1, 10) ∧
  RSG.valid 1 1 10 = false ∧
  value_of (RSG.gen_one (libm := libm_nan) 50 "scalene_triangle" "easy"
              (tape_cons 1 tape_degenerate))
  = Ok (perimeter_text,
        [("A", "13"); ("B", "5"); ("C", "12"); ("D", "19"); ("E", "4")], "C").
Proof. vm_compute. repeat split. Qed.

(** ** When the distractor loops end *)

Lemma RSG_try_total correct limit : 1 ≤ limit → total (RSG_try correct limit).
Proof.
  intros Hl. unfold RSG_try.
  eapply total_bind; [by apply total_randint | apply post_True|]. intros delta _.
  eapply total_bind; [by apply total_choice | apply post_True|]. intros sign _.
  apply total_ret.
Qed.

Lemma U1_try_total correct spread : 1 ≤ spread → total (U1_try correct spread).
Proof.
  intros Hl. unfold U1_try.
  eapply total_bind; [by apply total_randint | apply post_True|]. intros delta _.
  eapply total_bind; [by apply total_choice | apply post_True|]. intros d _.
  apply total_ret.
Qed.

Lemma RSG_mcq_int_loop_step fuel correct limit (cand : gset Z) t :
  (size cand < 5)%nat →
  RSG.mcq_int_loop (S fuel) correct limit cand t
  = match RSG_try correct limit t with
    | Ok (val, t') =>
        RSG.mcq_int_loop fuel correct limit
          (if 0 <? val then cand ∪ {[val]} else cand) t'
    | Raise e => Raise e
    | OutOfFuel => OutOfFuel
    end.
Proof.
  intros Hlt. cbn [RSG.mcq_int_loop]. case_decide; [|lia].
  unfold RSG_try, mbind, M_bind, bind, mret, M_ret, ret.
  destruct (randint 1 limit t) as [[delta t1]| |]; [|done..].
  by destruct (choice [-1; 1] t1) as [[sign t2]| |].
Qed.

Lemma U1_mcq_int_loop_step fuel correct spread (cand : gset Z) t :
  (size cand < 5)%nat →
  U1.mcq_int_loop (S fuel) correct spread cand t
  = match U1_try correct spread t with
    | Ok (val, t') =>
        U1.mcq_int_loop fuel correct spread
          (if 0 <? val then cand ∪ {[val]} else cand) t'
    | Raise e => Raise e
    | OutOfFuel => OutOfFuel
    end.
Proof.
  intros Hlt. cbn [U1.mcq_int_loop]. case_decide; [|lia].
  unfold U1_try, mbind, M_bind, bind, mret, M_ret, ret.
  destruct (randint 1 spread t) as [[delta t1]| |]; [|done..].
  by destruct (choice [- delta; delta] t1) as [[d t2]| |].
Qed.

(** A loop that stops at five candidates, fed by a total [try]: it returns
    within [fuel] passes exactly when the candidates and the positive values
    of those passes make five. *)
Section Loop.
Variable try : M Z.
Variable loop : nat → gset Z → M (gset Z).
Hypothesis try_total : total try.
Hypothesis loop_done : ∀ fuel cand, ¬ (size cand < 5)%nat → loop fuel cand = mret cand.
Hypothesis loop_0 : ∀ cand t, (size cand < 5)%nat → loop 0 cand t = OutOfFuel.
Hypothesis loop_S : ∀ fuel cand t, (size cand < 5)%nat →
  loop (S fuel) cand t
  = match try t with
    | Ok (val, t') => loop fuel (if 0 <? val then cand ∪ {[val]} else cand) t'
    | Raise e => Raise e
    | OutOfFuel => OutOfFuel
    end.

Lemma loop_runs fuel (cand : gset Z) t :
  (size cand ≤ 5)%nat →
  (5 ≤ size (cand ∪ tried try fuel t) →
   ∃ cand' t', loop fuel cand t = Ok (cand', t') ∧ size cand' = 5 ∧ cand ⊆ cand')%nat
  ∧ (size (cand ∪ tried try fuel t) < 5 → loop fuel cand t = OutOfFuel)%nat.
Proof.
  revert cand t. induction fuel as [|fuel IH]; intros cand t Hle.
  - cbn [tried]. replace (cand ∪ ∅) with cand by set_solver.
    split; intros H; [|by apply loop_0].
    exists cand, t. rewrite loop_done by lia. split; [done|]. split; [lia|done].
  - destruct (decide (size cand < 5)%nat) as [Hlt|Hge].
    + rewrite loop_S by done. cbn [tried].
      destruct (try_total t) as (val & t1 & ->).
      set (cand1 := if 0 <? val then cand ∪ {[val]} else cand).
      assert (cand ∪ ((if 0 <? val then {[val]} else ∅) ∪ tried try fuel t1)
              = cand1 ∪ tried try fuel t1) as ->.
      { unfold cand1. destruct (0 <? val); set_solver. }
      assert (Hle1 : (size cand1 ≤ 5)%nat).
      { unfold cand1. destruct (0 <? val); [|lia].
        pose proof (size_add_le cand val). lia. }
      destruct (IH cand1 t1 Hle1) as [IH1 IH2]. split; [|done].
      intros H. destruct (IH1 H) as (cand' & t' & ? & ? & ?).
      exists cand', t'. split; [done|]. split; [done|].
      unfold cand1 in *. destruct (0 <? val); set_solver.
    + split.
      * intros _. exists cand, t. rewrite loop_done by done.
        split; [done|]. split; [lia|done].
      * intros H.
        assert (Hsub : cand ⊆ cand ∪ tried try (S fuel) t) by set_solver.
        apply subseteq_size in Hsub. lia.
Qed.

End Loop.

Lemma RSG_mcq_options_int_runs fuel correct spread t b :
  py_round (F (Z.abs correct) * 0.2)%float = Ok b →
  let limit := Z.max spread (Z.max 6 b) in
  let seen := {[correct]} ∪ tried (RSG_try correct limit) fuel t in
  ((5 ≤ size seen)%nat →
   ∃ q t', RSG.mcq_options_int fuel correct spread t = Ok (q, t'))
  ∧ ((size seen < 5)%nat →
     RSG.mcq_options_int fuel correct spread t = OutOfFuel).
Proof.
  intros Hb limit seen.
  change (RSG.mcq_options_int fuel correct spread)
    with (r ← lift (py_round (F (Z.abs correct) * 0.2)%float);
          cand ← RSG.mcq_int_loop fuel correct (Z.max spread (Z.max 6 r))
                   {[correct]};
          assemble correct cand).
  assert (Hlift : lift (py_round (F (Z.abs correct) * 0.2)%float) t = Ok (b, t))
    by (unfold lift; by rewrite Hb).
  rewrite (bind_run _ _ _ _ _ Hlift). fold limit.
  destruct (loop_runs (RSG_try correct limit)
              (λ fuel cand, RSG.mcq_int_loop fuel correct limit cand))
    with (fuel := fuel) (cand := ({[correct]} : gset Z)) (t := t) as [Hok Hout].
  - apply RSG_try_total. unfold limit. lia.
  - intros [|f] cand Hge; cbn [RSG.mcq_int_loop]; by case_decide.
  - intros cand t0 Hlt. cbn [RSG.mcq_int_loop]. by case_decide.
  - intros f cand t0 Hlt. by apply RSG_mcq_int_loop_step.
  - rewrite size_singleton. lia.
  - split.
    + intros H5. destruct (Hok H5) as (cand' & t1 & Hrun & Hsize & Hsub).
      rewrite (bind_run _ _ _ _ _ Hrun).
      destruct (assemble_run correct cand' t1 Hsize) as (q & t' & _ & Hq & _);
        [set_solver|]. by exists q, t'.
    + intros H5. by rewrite (bind_OutOfFuel _ _ _ (Hout H5)).
Qed.

Lemma U1_mcq_options_int_runs fuel correct t b :
  py_int (F (Z.abs correct) * 0.2)%float = Ok b →
  let spread := Z.max 6 b in
  let seen := {[correct]} ∪ tried (U1_try correct spread) fuel t in
  ((5 ≤ size seen)%nat →
   ∃ q t', U1.mcq_options_int fuel correct t = Ok (q, t'))
  ∧ ((size seen < 5)%nat → U1.mcq_options_int fuel correct t = OutOfFuel).
Proof.
  intros Hb spread seen.
  change (U1.mcq_options_int fuel correct)
    with (r ← lift (py_int (F (Z.abs correct) * 0.2)%float);
          cand ← U1.mcq_int_loop fuel correct (Z.max 6 r) {[correct]};
          assemble correct cand).
  assert (Hlift : lift (py_int (F (Z.abs correct) * 0.2)%float) t = Ok (b, t))
    by (unfold lift; by rewrite Hb).
  rewrite (bind_run _ _ _ _ _ Hlift). fold spread.
  destruct (loop_runs (U1_try correct spread)
              (λ fuel cand, U1.mcq_int_loop fuel correct spread cand))
    with (fuel := fuel) (cand := ({[correct]} : gset Z)) (t := t) as [Hok Hout].
  - apply U1_try_total. unfold spread. lia.
  - intros [|f] cand Hge; cbn [U1.mcq_int_loop]; by case_decide.
  - intros cand t0 Hlt. cbn [U1.mcq_int_loop]. by case_decide.
  - intros f cand t0 Hlt. by apply U1_mcq_int_loop_step.
  - rewrite size_singleton. lia.
  - split.
    + intros H5. destruct (Hok H5) as (cand' & t1 & Hrun & Hsize & Hsub).
      rewrite (bind_run _ _ _ _ _ Hrun).
      destruct (assemble_run correct cand' t1 Hsize) as (q & t' & _ & Hq & _);
        [set_solver|]. by exists q, t'.
    + intros H5. by rewrite (bind_OutOfFuel _ _ _ (Hout H5)).
Qed.

Lemma tried_const_RSG n : tried (RSG_try 10 8) n (tape_const 0) ⊆ {[9]}.
Proof.
  induction n as [|n IH]; cbn [tried]; [set_solver|].
  change (RSG_try 10 8 (tape_const 0)) with (Ok (9, tape_const 0)).
  cbn. set_solver.
Qed.

Lemma tried_const_U1 n : tried (U1_try 10 6) n (tape_const 0) ⊆ {[9]}.
Proof.
  induction n as [|n IH]; cbn [tried]; [set_solver|].
  change (U1_try 10 6 (tape_const 0)) with (Ok (9, tape_const 0)).
  cbn. set_solver.
Qed.

Lemma size_10_9 (s : gset Z) : s ⊆ {[9]} → (size ({[10%Z]} ∪ s) < 5)%nat.
Proof.
  intros Hs. assert (Hsub : {[10]} ∪ s ⊆ ({[10; 9]} : gset Z)) by set_solver.
  apply subseteq_size in Hsub.
  assert (size ({[10; 9]} : gset Z) = 2%nat) as Hs2.
  { rewrite size_union, !size_singleton by set_solver. done. }
  lia.
Qed.

(** C4, as stated, fails: on the tape whose draws are all 0 the only value
    ever tried around 10 is 9, and for no amount of fuel does either script's
    builder return or raise. *)
Lemma C4_counterexample :
  (∀ fuel, RSG.mcq_options_int fuel 10 8 (tape_const 0) = OutOfFuel) ∧
  (∀ fuel, U1.mcq_options_int fuel 10 (tape_const 0) = OutOfFuel).
Proof.
  split; intros fuel.
  - apply (RSG_mcq_options_int_runs fuel 10 8 (tape_const 0) 2); [by vm_compute|].
    apply size_10_9, tried_const_RSG.
  - apply (U1_mcq_options_int_runs fuel 10 (tape_const 0) 2); [by vm_compute|].
    apply size_10_9, tried_const_U1.
Qed.

(** C4 (amended): the option-building loop of either script has no retry
    cap and raises nothing of its own. Once the spread is computed, the
    builder returns within [fuel] passes of the loop exactly when the
    correct value and the positive values tried in those passes make five
    distinct candidates; as long as they make fewer it is still looping. *)
Theorem C4_distractor_loop_termination fuel correct spread t :
  (∀ b, py_round (F (Z.abs correct) * 0.2)%float = Ok b →
        let seen := {[correct]}
                    ∪ tried (RSG_try correct (Z.max spread (Z.max 6 b))) fuel t in
        ((5 ≤ size seen)%nat →
         ∃ q t', RSG.mcq_options_int fuel correct spread t = Ok (q, t'))
        ∧ ((size seen < 5)%nat →
           RSG.mcq_options_int fuel correct spread t = OutOfFuel)) ∧
  (∀ b, py_int (F (Z.abs correct) * 0.2)%float = Ok b →
        let seen := {[correct]} ∪ tried (U1_try correct (Z.max 6 b)) fuel t in
        ((5 ≤ size seen)%nat →
         ∃ q t', U1.mcq_options_int fuel correct t = Ok (q, t'))
        ∧ ((size seen < 5)%nat →
           U1.mcq_options_int fuel correct t = OutOfFuel)).
Proof.
  split; intros b Hb.
  - by apply RSG_mcq_options_int_runs.
  - by apply U1_mcq_options_int_runs.
Qed.

Lemma C4_distractor_loop_termination_witness :
  py_round (F (Z.abs 10) * 0.2)%float = Ok 2 ∧
  (5 ≤ size (({[10]} : gset Z)
             ∪ tried (RSG_try 10 (Z.max 8 (Z.max 6 2))) 10%nat tape_sq)%Z)%nat ∧
  ∃ q t', RSG.mcq_options_int 10 10 8 tape_sq = Ok (q, t').
Proof.
  assert (Hb : py_round (F (Z.abs 10) * 0.2)%float = Ok 2) by (vm_compute; reflexivity).
  assert (H5 : (5 ≤ size (({[10]} : gset Z)
                    ∪ tried (RSG_try 10 (Z.max 8 (Z.max 6 2))) 10%nat tape_sq)%Z)%nat)
    by (vm_compute; lia).
  split; [exact Hb|]. split; [exact H5|].
  exact (proj1 (proj1 (C4_distractor_loop_termination 10 10 8 tape_sq) 2 Hb) H5).
Defined.

(** ** Rounding *)

Lemma round_half_even_tie (q : Q) (k : Z) :
  (q == inject_Z k + (1 # 2))%Q →
  round_half_even q = if Z.even k then k else k + 1.
Proof.
  intros Hq. unfold round_half_even.
  assert (Hf : Qfloor q = k).
  { rewrite Hq. unfold Qfloor, Qplus, inject_Z. cbn.
    symmetry. apply (Z.div_unique _ _ _ 1); lia. }
  rewrite Hf.
  assert (Hc : (q - inject_Z k ?= 1 # 2)%Q = Eq).
  { apply Qeq_alt. rewrite Hq. ring. }
  by rewrite Hc.
Qed.





(** ** The sorted manifest *)

Lemma ltb_leb s1 s2 : String.ltb s1 s2 = true → String.leb s1 s2 = true.
Proof. unfold String.ltb, String.leb. by destruct (String.compare s1 s2). Qed.

Lemma not_ltb_leb s1 s2 : String.ltb s1 s2 = false → String.leb s2 s1 = true.
Proof.
  unfold String.ltb, String.leb. rewrite (String.compare_antisym s2 s1).
  by destruct (String.compare s1 s2).
Qed.

Lemma leb_trans s1 s2 s3 :
  String.leb s1 s2 = true → String.leb s2 s3 = true → String.leb s1 s3 = true.
Proof.
  unfold String.leb.
  destruct (String.compare s1 s2) eqn:H12; [|..|done].
  { apply String.compare_eq_iff in H12 as ->. done. }
  destruct (String.compare s2 s3) eqn:H23; [|..|done].
  { apply String.compare_eq_iff in H23 as ->. by rewrite H12. }
  intros _ _.
  apply String_as_OT.cmp_lt in H12, H23.
  pose proof (String_as_OT.lt_trans _ _ _ H12 H23) as H13.
  apply String_as_OT.cmp_lt in H13. unfold String_as_OT.cmp in H13.
  by rewrite H13.
Qed.

#[local] Instance path_le_trans : Transitive path_le.
Proof. intros r1 r2 r3. apply leb_trans. Qed.

Lemma insert_by_path_Permutation r l : U1.insert_by_path r l ≡ₚ r :: l.
Proof.
  induction l as [|x l IH]; cbn [U1.insert_by_path]; [done|].
  destruct (String.ltb _ _); [done|]. by rewrite IH, Permutation_swap.
Qed.

Lemma insert_by_path_HdRel x r l :
  path_le x r → HdRel path_le x l → HdRel path_le x (U1.insert_by_path r l).
Proof.
  intros Hxr Hhd. destruct Hhd as [|y l Hxy]; cbn [U1.insert_by_path].
  - by constructor.
  - destruct (String.ltb _ _); by constructor.
Qed.

Lemma insert_by_path_Sorted r l :
  Sorted path_le l → Sorted path_le (U1.insert_by_path r l).
Proof.
  induction 1 as [|x l Hs IH Hhd]; cbn [U1.insert_by_path].
  { by repeat constructor. }
  destruct (String.ltb (r_img_path r) (r_img_path x)) eqn:Hlt.
  - constructor; [by constructor|]. constructor. by apply ltb_leb.
  - constructor; [done|]. apply insert_by_path_HdRel; [|done].
    by apply not_ltb_leb.
Qed.

Lemma sort_by_path_from acc out :
  Sorted path_le acc →
  let res := foldl (λ acc r, U1.insert_by_path r acc) acc out in
  res ≡ₚ acc ++ out ∧ Sorted path_le res.
Proof.
  revert acc. induction out as [|r out IH]; intros acc Hacc; cbn [foldl].
  { by rewrite app_nil_r. }
  destruct (IH (U1.insert_by_path r acc)) as [Hp Hs].
  { by apply insert_by_path_Sorted. }
  split; [|done]. rewrite Hp, insert_by_path_Permutation.
  by rewrite <-Permutation_middle.
Qed.

Lemma main_Permutation out : U1.main out ≡ₚ out.
Proof. apply (sort_by_path_from [] out). constructor. Qed.

Lemma main_Sorted out : Sorted path_le (U1.main out).
Proof. apply (sort_by_path_from [] out). constructor. Qed.

Lemma NoDup_fmap_eq {A B} (f : A → B) (l : list A) x y :
  NoDup (f <$> l) → x ∈ l → y ∈ l → f x = f y → x = y.
Proof.
  intros Hnd [i Hi]%list_elem_of_lookup [j Hj]%list_elem_of_lookup Hxy.
  assert (i = j) as ->; [|congruence].
  eapply NoDup_lookup; [exact Hnd|..]; rewrite list_lookup_fmap.
  - by rewrite Hi.
  - rewrite Hj. simpl. by rewrite Hxy.
Qed.

Lemma main_deterministic out1 out2 :
  out1 ≡ₚ out2 → NoDup (r_img_path <$> out1) → U1.main out1 = U1.main out2.
Proof.
  intros Hperm Hnd.
  apply (Sorted_unique_strong path_le); [|apply main_Sorted..|].
  - intros x1 x2 H1 H2 H12 H21.
    rewrite main_Permutation in H1. rewrite main_Permutation, <-Hperm in H2.
    apply (NoDup_fmap_eq r_img_path out1); [done..|].
    by apply String.leb_antisym.
  - by rewrite !main_Permutation.
Qed.

Lemma length_append s1 s2 :
  String.length (s1 +:+ s2) = (String.length s1 + String.length s2)%nat.
Proof.
  induction s1 as [|a s1 IH]; [done|].
  change (String a s1 +:+ s2) with (String a (s1 +:+ s2)).
  cbn [String.length]. by rewrite IH.
Qed.

Lemma append_inj_l s1 s2 t : s1 +:+ t = s2 +:+ t → s1 = s2.
Proof.
  revert s2. induction s1 as [|a s1 IH]; intros [|b s2] Heq; [done|..].
  - apply (f_equal String.length) in Heq.
    rewrite !length_append in Heq. cbn in Heq. lia.
  - apply (f_equal String.length) in Heq.
    rewrite !length_append in Heq. cbn in Heq. lia.
  - change (String a (s1 +:+ t) = String b (s2 +:+ t)) in Heq.
    injection Heq as -> Heq. f_equal. by apply IH.
Qed.

Lemma img_path_of_inj d1 i1 d2 i2 :
  d1 ∈ U1.DIFF_LEVELS → d2 ∈ U1.DIFF_LEVELS →
  img_path_of d1 i1 = img_path_of d2 i2 → d1 = d2 ∧ i1 = i2.
Proof.
  unfold U1.DIFF_LEVELS, DIFF_RANGES. cbn [fmap list_fmap fst].
  intros H1 H2. set_unfold.
  assert (Hsame : ∀ d, "images/" +:+ d +:+ "/Q" +:+ i2s i1 +:+ ".png"
                       = "images/" +:+ d +:+ "/Q" +:+ i2s i2 +:+ ".png" → i1 = i2).
  { intros d Heq.
    apply (inj (String.append "images/")), (inj (String.append d)),
      (inj (String.append "/Q")) in Heq.
    apply append_inj_l in Heq. by apply i2s_inj in Heq. }
  destruct H1 as [->|[->|[->|[]]]], H2 as [->|[->|[->|[]]]]; intros Heq;
    first [ split; [done|]; eapply Hsame; exact Heq
          | lazy beta iota zeta delta [img_path_of BASE_IMG_DIR String.append]
              in Heq; discriminate ].
Qed.

Lemma U1_build_one_path {libm : Libm} fuel idx :
  post (U1.build_one fuel idx)
       (λ r, r_difficulty_level r ∈ U1.DIFF_LEVELS ∧
             r_img_path r = img_path_of (r_difficulty_level r) idx).
Proof.
  unfold U1.build_one.
  eapply post_bind; [apply post_choice|]. intros diff Hdiff.
  eapply post_bind; [apply post_True|]. intros shape _.
  eapply post_bind; [apply post_True|].
  intros [[qtext options] letter] _. by apply post_ret.
Qed.

(** ** The whole of [main], workers included *)

Section Workers_run.
Context {libm : Libm}.
Variable fuel : nat.
Variable draws : Z → tape.

(** Worker [idx] returns the record [r]. *)
Let returns (idx : Z) (r : record) : Prop :=
  ∃ t', U1.build_one fuel idx (draws idx) = Ok (r, t').

Lemma as_completed_Ok completed out out' :
  U1.as_completed fuel draws completed out = Ok out' ↔
  ∃ records, Forall2 returns completed records ∧ out' = out ++ records.
Proof.
  revert out. induction completed as [|idx completed IH]; intros out;
    cbn [U1.as_completed].
  - split.
    + intros [= <-]. exists []. split; [constructor|by rewrite app_nil_r].
    + intros (records & ->%Forall2_nil_inv_l & ->). by rewrite app_nil_r.
  - destruct (U1.build_one fuel idx (draws idx)) as [[r t']| |] eqn:Hb.
    + rewrite IH. split.
      * intros (records & Hall & ->). exists (r :: records).
        split; [|by rewrite <-app_assoc].
        constructor; [by exists t'|done].
      * intros (records & Hall & ->).
        apply Forall2_cons_inv_l in Hall as (r' & records' & [t'' Hr] & Hall & ->).
        unfold returns in Hr. rewrite Hb in Hr. injection Hr as <- _.
        exists records'. split; [done|by rewrite <-app_assoc].
    + split; [done|]. intros (records & Hall & _).
      apply Forall2_cons_inv_l in Hall as (r' & records' & [t'' Hr] & _).
      unfold returns in Hr. by rewrite Hb in Hr.
    + split; [done|]. intros (records & Hall & _).
      apply Forall2_cons_inv_l in Hall as (r' & records' & [t'' Hr] & _).
      unfold returns in Hr. by rewrite Hb in Hr.
Qed.

Lemma returns_ends l records :
  Forall2 returns l records → forallb (U1.ends fuel draws) l = true.
Proof.
  induction 1 as [|idx r l records [t' Hr] _ IH]; [done|].
  cbn [forallb]. unfold U1.ends at 1. by rewrite Hr, IH.
Qed.

Lemma returns_functional l records1 records2 :
  Forall2 returns l records1 → Forall2 returns l records2 → records1 = records2.
Proof.
  intros H1. revert records2.
  induction H1 as [|idx r l records [t' Hr] _ IH]; intros records2 H2.
  - by apply Forall2_nil_inv_l in H2.
  - apply Forall2_cons_inv_l in H2 as (r' & records' & [t'' Hr'] & H2 & ->).
    rewrite Hr in Hr'. injection Hr' as <- _. f_equal. by apply IH.
Qed.

Lemma returns_paths l records :
  Forall2 returns l records → NoDup l → NoDup (r_img_path <$> records).
Proof.
  induction 1 as [|idx r l records [t' Hr] Hall IH]; intros Hnd; [constructor|].
  apply NoDup_cons in Hnd as [Hidx Hnd]. cbn [fmap list_fmap].
  apply NoDup_cons. split; [|by apply IH].
  intros (r' & Heq & Hin)%list_elem_of_fmap.
  apply list_elem_of_lookup in Hin as [k Hk].
  destruct (Forall2_lookup_r _ _ _ _ _ Hall Hk) as (idx' & Hidx' & [t'' Hr']).
  destruct (U1_build_one_path _ _ _ _ _ Hr) as [Hd Hp].
  destruct (U1_build_one_path _ _ _ _ _ Hr') as [Hd' Hp'].
  rewrite Hp, Hp' in Heq.
  apply img_path_of_inj in Heq as [_ ->]; [|done..].
  apply Hidx. by eapply list_elem_of_lookup_2.
Qed.

Lemma returns_all questionVolume :
  (∀ idx, 1 ≤ idx ≤ questionVolume → ∃ r, returns idx r) →
  ∃ records, Forall2 returns (seqZ 1 questionVolume) records.
Proof.
  intros Hall.
  assert (Hl : ∀ l, Forall (λ idx, 1 ≤ idx ≤ questionVolume) l →
                    ∃ records, Forall2 returns l records).
  { induction 1 as [|idx l Hidx _ [records IH]]; [by exists []|].
    destruct (Hall idx Hidx) as [r Hr]. exists (r :: records). by constructor. }
  apply Hl, Forall_forall. intros idx Hidx%elem_of_seqZ. lia.
Qed.

Lemma main_threads_Ok questionVolume completed manifest :
  completed ≡ₚ seqZ 1 questionVolume →
  U1.main_threads fuel questionVolume draws completed = Ok manifest ↔
  ∃ records, Forall2 returns (seqZ 1 questionVolume) records ∧
             manifest = U1.main records.
Proof.
  intros Hperm. unfold U1.main_threads. split.
  - destruct (forallb _ _); [|done].
    destruct (U1.as_completed fuel draws completed []) as [out| |] eqn:Hc;
      [|done..].
    cbn [res_bind]. intros [= <-].
    apply as_completed_Ok in Hc as (records & Hall & ->). cbn [app].
    destruct (Permutation_Forall2 Hperm Hall) as (records' & Hp & Hall').
    exists records'. split; [done|].
    apply main_deterministic; [done|].
    apply (returns_paths completed); [done|].
    rewrite Hperm. apply NoDup_seqZ.
  - intros (records & Hall & ->).
    rewrite (returns_ends _ _ Hall).
    symmetry in Hperm.
    destruct (Permutation_Forall2 Hperm Hall) as (records' & Hp & Hall').
    assert (Hc : U1.as_completed fuel draws completed [] = Ok records').
    { apply as_completed_Ok. by exists records'. }
    rewrite Hc. cbn [res_bind]. f_equal.
    apply main_deterministic; [by symmetry|].
    apply (returns_paths completed); [done|].
    rewrite <-Hperm. apply NoDup_seqZ.
Qed.

End Workers_run.

(** C8, as stated, fails: the sort key is the path string, so of two
    records of the easy tier the one of index 10 comes before the one of
    index 2, whichever worker finished first. *)
Lemma C8_counterexample :
  ∃ r2 r10,
    value_of (U1.build_one (libm := libm_nan) 50 2 tape_sq) = Ok r2 ∧
    value_of (U1.build_one (libm := libm_nan) 50 10 tape_sq) = Ok r10 ∧
    r_img_path r2 = "images/easy/Q2.png" ∧
    r_img_path r10 = "images/easy/Q10.png" ∧
    U1.main [r2; r10] = [r10; r2] ∧ U1.main [r10; r2] = [r10; r2].
Proof.
  eexists _, _.
  split; [vm_compute; reflexivity|]. split; [vm_compute; reflexivity|].
  vm_compute. repeat split.
Qed.

(** C8 (amended): [main] of untitled1.py comes to a manifest exactly when
    every worker of the indices 1..questionVolume has returned a record; a
    worker that raises or never returns leaves no manifest. The manifest is
    then the list of these records, one per index, sorted by their image
    paths as strings: a permutation of the records, ordered by the
    code-point order of the paths "images/<difficulty>/Q<index>.png", and,
    the paths of different indices being different, the same whatever order
    the workers completed in. The order is by path, not by index. *)
Theorem C8_manifest_order :
  (∀ out, U1.main out ≡ₚ out) ∧
  (∀ out, Sorted path_le (U1.main out)) ∧
  (∀ out1 out2,
      out1 ≡ₚ out2 → NoDup (r_img_path <$> out1) → U1.main out1 = U1.main out2) ∧
  (∀ (libm : Libm) fuel idx t r t',
      U1.build_one fuel idx t = Ok (r, t') →
      r_difficulty_level r ∈ U1.DIFF_LEVELS ∧
      r_img_path r = img_path_of (r_difficulty_level r) idx) ∧
  (∀ d1 i1 d2 i2,
      d1 ∈ U1.DIFF_LEVELS → d2 ∈ U1.DIFF_LEVELS →
      img_path_of d1 i1 = img_path_of d2 i2 → d1 = d2 ∧ i1 = i2) ∧
  (∀ (libm : Libm) fuel questionVolume draws completed manifest,
      completed ≡ₚ seqZ 1 questionVolume →
      U1.main_threads fuel questionVolume draws completed = Ok manifest →
      ∃ records,
        Forall2 (λ idx r, ∃ t', U1.build_one fuel idx (draws idx) = Ok (r, t'))
                (seqZ 1 questionVolume) records ∧
        manifest = U1.main records ∧
        manifest ≡ₚ records ∧
        Sorted path_le manifest ∧
        ∀ completed', completed' ≡ₚ seqZ 1 questionVolume →
          U1.main_threads fuel questionVolume draws completed' = Ok manifest) ∧
  (∀ (libm : Libm) fuel questionVolume draws completed,
      completed ≡ₚ seqZ 1 questionVolume →
      (∀ idx, 1 ≤ idx ≤ questionVolume →
              ∃ r t', U1.build_one fuel idx (draws idx) = Ok (r, t')) →
      ∃ manifest,
        U1.main_threads fuel questionVolume draws completed = Ok manifest) ∧
  (∀ (libm : Libm) fuel questionVolume draws completed idx,
      completed ≡ₚ seqZ 1 questionVolume →
      1 ≤ idx ≤ questionVolume →
      (∀ r t', U1.build_one fuel idx (draws idx) ≠ Ok (r, t')) →
      ∀ manifest,
        U1.main_threads fuel questionVolume draws completed ≠ Ok manifest).
Proof.
  split_and!.
  - apply main_Permutation.
  - apply main_Sorted.
  - apply main_deterministic.
  - intros libm fuel idx t r t' Hrun. exact (U1_build_one_path _ _ _ _ _ Hrun).
  - apply img_path_of_inj.
  - intros libm fuel questionVolume draws completed manifest Hperm Hrun.
    apply main_threads_Ok in Hrun as (records & Hall & ->); [|done].
    exists records. split; [exact Hall|]. split; [done|].
    split; [apply main_Permutation|]. split; [apply main_Sorted|].
    intros completed' Hperm'. apply main_threads_Ok; [done|]. by exists records.
  - intros libm fuel questionVolume draws completed Hperm Hall.
    destruct (returns_all fuel draws questionVolume) as [records Hrec].
    { intros idx Hidx. destruct (Hall idx Hidx) as (r & t' & Hr).
      exists r, t'. exact Hr. }
    exists (U1.main records). apply main_threads_Ok; [done|]. by exists records.
  - intros libm fuel questionVolume draws completed idx Hperm Hidx Hno manifest Hrun.
    apply main_threads_Ok in Hrun as (records & Hall & _); [|done].
    assert (Hin : idx ∈ seqZ 1 questionVolume) by (apply elem_of_seqZ; lia).
    apply list_elem_of_lookup in Hin as [k Hk].
    destruct (Forall2_lookup_l _ _ _ _ _ Hall Hk) as (r & _ & [t' Hr]).
    exact (Hno r t' Hr).
Qed.

Lemma C8_manifest_order_witness :
  ∃ manifest records,
    U1.main_threads (libm := libm_nan) 50 2 (λ _, tape_sq) [2; 1] = Ok manifest ∧
    Forall2 (λ idx r, ∃ t', U1.build_one (libm := libm_nan) 50 idx tape_sq
                            = Ok (r, t')) (seqZ 1 2) records ∧
    manifest = U1.main records ∧
    manifest ≡ₚ records ∧
    Sorted path_le manifest ∧
    ∀ completed', completed' ≡ₚ seqZ 1 2 →
      U1.main_threads (libm := libm_nan) 50 2 (λ _, tape_sq) completed'
      = Ok manifest.
Proof.
  assert (∃ manifest,
            U1.main_threads (libm := libm_nan) 50 2 (λ _, tape_sq) [2; 1]
            = Ok manifest) as [manifest Hm].
  { eexists. vm_compute. reflexivity. }
  assert (Hperm : [2; 1] ≡ₚ seqZ 1 2) by apply Permutation_swap.
  destruct (proj1 (proj2 (proj2 (proj2 (proj2 (proj2 C8_manifest_order)))))
              libm_nan 50%nat 2 (λ _, tape_sq) [2; 1] manifest Hperm Hm)
    as (records & H).
  exists manifest, records. split; [exact Hm|exact H].
Defined.

(** ** Symmetry questions drawn from fewer than five candidates *)

Lemma RSG_small_set_loop_stuck fuel (pool chosen : gset Z) t :
  chosen ⊆ pool → pool ≠ ∅ → (size pool < 5)%nat →
  RSG.small_set_loop fuel pool chosen t = OutOfFuel.
Proof.
  intros Hsub Hne Hpool. revert chosen t Hsub.
  induction fuel as [|fuel IH]; intros chosen t Hsub;
    cbn [RSG.small_set_loop]; pose proof (subseteq_size _ _ Hsub);
    (case_decide; [|lia]); [done|].
  destruct (total_choice (elements pool)) with (t := t) as (v & t1 & Hv).
  { intros Hnil. by apply elements_empty_inv, leibniz_equiv in Hnil. }
  rewrite (bind_run _ _ _ _ _ Hv). apply IH.
  apply post_choice, elem_of_elements in Hv. set_solver.
Qed.

Lemma U1_small_loop_stuck fuel (pool chosen : gset Z) t :
  chosen ⊆ pool → pool ≠ ∅ → (size pool < 5)%nat →
  U1.small_loop fuel pool chosen t = OutOfFuel.
Proof.
  intros Hsub Hne Hpool. revert chosen t Hsub.
  induction fuel as [|fuel IH]; intros chosen t Hsub;
    cbn [U1.small_loop]; pose proof (subseteq_size _ _ Hsub);
    (case_decide; [|lia]); [done|].
  destruct (total_choice (elements pool)) with (t := t) as (v & t1 & Hv).
  { intros Hnil. by apply elements_empty_inv, leibniz_equiv in Hnil. }
  rewrite (bind_run _ _ _ _ _ Hv). apply IH.
  apply post_choice, elem_of_elements in Hv. set_solver.
Qed.

(** The pool [0, 1, 2, 3] joined with a correct value among them has four
    elements. *)
Lemma pool_0123 correct :
  correct ∈ [0; 1; 2; 3] →
  let pool : gset Z := list_to_set [0; 1; 2; 3] ∪ {[correct]} in
  {[correct]} ⊆ pool ∧ pool ≠ ∅ ∧ (size pool < 5)%nat.
Proof.
  intros Hc pool.
  assert (Hpool : pool = {[0; 1; 2; 3]}) by (unfold pool; set_solver).
  rewrite Hpool. split; [set_solver|]. split; [set_solver|].
  rewrite !size_union, !size_singleton by set_solver. lia.
Qed.

(** X1: with a candidate list of four values that contains the correct one,
    the small-set builder of either script never returns: the isosceles
    triangle, the scalene triangle, the trapezium and the parallelogram get
    no symmetry question, only a loop that does not end. *)
Theorem small_set_builder_never_returns (libm : Libm) fuel t :
  (∀ correct, correct ∈ [0; 1; 2; 3] →
     RSG.mcq_options_small_set fuel correct [0; 1; 2; 3] t = OutOfFuel ∧
     U1.mcq_options_small fuel correct [0; 1; 2; 3] t = OutOfFuel) ∧
  (∀ base height, RSG.ask_isosceles_triangle fuel base height "symmetry" t
                  = OutOfFuel) ∧
  (∀ a b c, RSG.ask_scalene_triangle fuel a b c "symmetry" t = OutOfFuel) ∧
  (∀ top bottom h, RSG.ask_trapezium fuel top bottom h "symmetry" t = OutOfFuel) ∧
  (∀ b h slant, RSG.ask_parallelogram fuel b h slant "symmetry" t = OutOfFuel).
Proof.
  assert (Hrsg : ∀ correct, correct ∈ [0; 1; 2; 3] →
            RSG.mcq_options_small_set fuel correct [0; 1; 2; 3] t = OutOfFuel).
  { intros correct Hc. destruct (pool_0123 correct Hc) as (Hsub & Hne & Hsize).
    unfold RSG.mcq_options_small_set. cbv zeta.
    apply bind_OutOfFuel. by apply RSG_small_set_loop_stuck. }
  assert (Hu1 : ∀ correct, correct ∈ [0; 1; 2; 3] →
            U1.mcq_options_small fuel correct [0; 1; 2; 3] t = OutOfFuel).
  { intros correct Hc. destruct (pool_0123 correct Hc) as (Hsub & Hne & Hsize).
    unfold U1.mcq_options_small. cbv zeta.
    apply bind_OutOfFuel. by apply U1_small_loop_stuck. }
  split_and!.
  - intros correct Hc. split; auto.
  - intros base height. unfold RSG.ask_isosceles_triangle.
    cbn [String.eqb Ascii.eqb Bool.eqb]. cbv zeta.
    apply bind_OutOfFuel, Hrsg. set_solver.
  - intros a b c. unfold RSG.ask_scalene_triangle.
    cbn [String.eqb Ascii.eqb Bool.eqb]. cbv zeta.
    apply bind_OutOfFuel, Hrsg. set_solver.
  - intros top bottom h. unfold RSG.ask_trapezium.
    cbn [String.eqb Ascii.eqb Bool.eqb]. cbv zeta.
    apply bind_OutOfFuel, Hrsg. set_solver.
  - intros b h slant. unfold RSG.ask_parallelogram.
    cbn [String.eqb Ascii.eqb Bool.eqb]. cbv zeta.
    apply bind_OutOfFuel, Hrsg. set_solver.
Qed.

(** X2: in the difficult tier every scalene triple either script goes on
    with satisfies the triangle inequality: two sides of at least 51 exceed a
    third of at most 100. *)
Theorem scalene_valid_in_difficult_tier t a b c t' :
  RSG.dims_scalene_triangle (51, 100) t = Ok ((a, b, c), t')
  ∨ U1.dims_scalene_triangle (51, 100) t = Ok ((a, b, c), t') →
  RSG.valid a b c = true ∧ a + b > c ∧ a + c > b ∧ b + c > a.
Proof.
  intros Hrun.
  assert (in_range (51, 100) a ∧ in_range (51, 100) b ∧ in_range (51, 100) c)
    as (Ha & Hb & Hc).
  { destruct Hrun as [Hrun|Hrun].
    - exact (RSG_dims_scalene_triangle_post _ _ _ _ Hrun).
    - exact (U1_dims_scalene_triangle_post _ _ _ _ Hrun). }
  unfold in_range in *. simpl in *. split; [|lia].
  unfold RSG.valid. rewrite !andb_true_iff, !Z.ltb_lt. lia.
Qed.

Lemma scalene_valid_in_difficult_tier_witness :
  ∃ a b c,
    value_of (RSG.dims_scalene_triangle (51, 100) tape_sq) = Ok (a, b, c) ∧
    RSG.valid a b c = true ∧ a + b > c ∧ a + c > b ∧ b + c > a.
Proof.
  assert (∃ d, value_of (RSG.dims_scalene_triangle (51, 100) tape_sq) = Ok d)
    as [[[a b] c] Hq].
  { eexists. vm_compute. reflexivity. }
  destruct (value_of_Ok _ _ Hq) as [t' E].
  exists a, b, c. split; [exact Hq|].
  exact (scalene_valid_in_difficult_tier tape_sq a b c t' (or_introl E)).
Defined.

(** * Further properties of the two scripts *)

(** ** The symmetry table *)

(** X3: [symmetry_count] knows no circle and no shape outside the
    catalogue, and for every other shape it gives the very number the
    shape's generator asks for in its symmetry question. *)
Theorem symmetry_count_agrees (libm : Libm) :
  (∀ shape, shape ∉ SHAPES → RSG.symmetry_count shape = None) ∧
  RSG.symmetry_count "circle" = None ∧
  (∀ shape d, dims_for shape d → shape ≠ "circle" →
     ∃ c, RSG.symmetry_count shape = Some c ∧
          RSG.computeAnswer d "symmetry" = Ok c).
Proof.
  split_and!.
  - intros shape Hs. unfold RSG.symmetry_count. cbn [dict_get].
    repeat (match goal with |- context [String.eqb ?k shape] =>
              destruct (String.eqb_spec k shape) as [<-|_] end;
            [exfalso; apply Hs, list_elem_of_In; simpl; tauto|]).
    reflexivity.
  - reflexivity.
  - intros shape d Hd Hne.
    destruct d; cbn [dims_for] in Hd; try subst shape; try done;
      try (eexists; split; reflexivity).
    destruct Hd as [[-> ->]|[-> ->]]; eexists; split; reflexivity.
Qed.

Lemma symmetry_count_agrees_witness :
  ∃ c, RSG.symmetry_count "regular_hexagon" = Some c ∧
       RSG.computeAnswer (libm := libm_nan) (DNgon 6 7) "symmetry" = Ok c ∧ c = 6.
Proof.
  assert (Hd : dims_for "regular_hexagon" (DNgon 6 7)) by (left; done).
  assert (Hne : "regular_hexagon" ≠ "circle") by discriminate.
  destruct (proj2 (proj2 (symmetry_count_agrees libm_nan)) _ _ Hd Hne)
    as (c & Hc & Ha).
  exists c. split; [exact Hc|]. split; [exact Ha|].
  cbn in Hc. congruence.
Defined.

(** ** Positive options *)

Lemma positive_values_iff correct vals q :
  built correct vals q → distractors correct vals (λ v, 0 < v) →
  Forall positive_value (dict_values q.1) ↔ 0 < correct.
Proof.
  intros Hb Hd. rewrite (built_values _ _ _ Hb). split.
  - intros Hall. rewrite Forall_forall in Hall.
    destruct (Hall (i2s correct)) as (v & Hv & Heq).
    { apply list_elem_of_fmap. exists correct. split; [done|apply Hb]. }
    apply i2s_inj in Heq. lia.
  - intros Hpos. apply Forall_forall. intros s (v & -> & Hv)%list_elem_of_fmap.
    exists v. split; [|done].
    destruct (decide (v = correct)) as [->|Hne]; [done|]. by apply Hd.
Qed.

(** X4: the five options [mcq_options_int] returns are all positive
    exactly when the correct value is: the loop keeps only positive
    distractors but takes the correct value as it comes. *)
Theorem mcq_options_int_positive_iff :
  (∀ fuel correct spread t opts letter t',
      RSG.mcq_options_int fuel correct spread t = Ok ((opts, letter), t') →
      Forall positive_value (dict_values opts) ↔ 0 < correct) ∧
  (∀ fuel correct t opts letter t',
      U1.mcq_options_int fuel correct t = Ok ((opts, letter), t') →
      Forall positive_value (dict_values opts) ↔ 0 < correct).
Proof.
  split.
  - intros fuel correct spread t opts letter t' Hrun.
    destruct (RSG_mcq_options_int_post _ _ _ _ _ _ Hrun) as (vals & Hb & Hd).
    exact (positive_values_iff correct vals (opts, letter) Hb Hd).
  - intros fuel correct t opts letter t' Hrun.
    destruct (U1_mcq_options_int_post _ _ _ _ _ Hrun) as (vals & Hb & Hd).
    exact (positive_values_iff correct vals (opts, letter) Hb Hd).
Qed.

Lemma mcq_options_int_positive_iff_witness :
  ∃ opts letter,
    value_of (RSG.mcq_options_int 50 0 8 tape_sq) = Ok (opts, letter) ∧
    (Forall positive_value (dict_values opts) ↔ 0 < 0).
Proof.
  assert (∃ q, value_of (RSG.mcq_options_int 50 0 8 tape_sq) = Ok q)
    as [[opts letter] Hq].
  { eexists. vm_compute. reflexivity. }
  destruct (value_of_Ok _ _ Hq) as [t' E].
  exists opts, letter. split; [exact Hq|].
  exact (proj1 mcq_options_int_positive_iff 50%nat 0 8 tape_sq opts letter t' E).
Defined.

(** ** How far distractors lie from the correct value *)

Lemma RSG_mcq_int_loop_near fuel correct limit (cand : gset Z) :
  post (RSG.mcq_int_loop fuel correct limit cand)
       (λ cand', ∀ v, v ∈ cand' →
                      v ∈ cand ∨ 1 ≤ Z.abs (v - correct) ≤ limit).
Proof.
  revert cand. induction fuel as [|fuel IH]; intros cand;
    cbn [RSG.mcq_int_loop]; case_decide;
    try (apply post_ret; auto).
  { apply post_out_of_fuel. }
  eapply post_bind; [apply post_randint|]. intros delta Hdelta.
  eapply post_bind; [apply post_choice|]. intros sign Hsign. cbv zeta.
  eapply post_weaken; [apply IH|].
  intros cand' Hv v Hin. destruct (Hv v Hin) as [Hc|?]; [|auto].
  destruct (0 <? correct + sign * delta); [|auto].
  apply elem_of_union in Hc as [?|Hs]; [auto|].
  apply elem_of_singleton in Hs as ->. right.
  cbv beta in Hdelta. set_unfold. destruct Hsign as [->|[->|[]]]; lia.
Qed.

Lemma U1_mcq_int_loop_near fuel correct spread (cand : gset Z) :
  post (U1.mcq_int_loop fuel correct spread cand)
       (λ cand', ∀ v, v ∈ cand' →
                      v ∈ cand ∨ 1 ≤ Z.abs (v - correct) ≤ spread).
Proof.
  revert cand. induction fuel as [|fuel IH]; intros cand;
    cbn [U1.mcq_int_loop]; case_decide;
    try (apply post_ret; auto).
  { apply post_out_of_fuel. }
  eapply post_bind; [apply post_randint|]. intros delta Hdelta.
  eapply post_bind; [apply post_choice|]. intros d Hd. cbv zeta.
  eapply post_weaken; [apply IH|].
  intros cand' Hv v Hin. destruct (Hv v Hin) as [Hc|?]; [|auto].
  destruct (0 <? correct + d); [|auto].
  apply elem_of_union in Hc as [?|Hs]; [auto|].
  apply elem_of_singleton in Hs as ->. right.
  cbv beta in Hdelta. set_unfold. destruct Hd as [->|[->|[]]]; lia.
Qed.

(** X5: every distractor of [mcq_options_int] lies at distance 1 to
    [limit] from the correct value, [limit] being the larger of [spread] and
    of max(6, round(0.2 |correct|)); in untitled1.py the bound is
    max(6, int(0.2 |correct|)). *)
Theorem mcq_options_int_spread :
  (∀ fuel correct spread t opts letter t',
      RSG.mcq_options_int fuel correct spread t = Ok ((opts, letter), t') →
      ∃ b vals,
        py_round (F (Z.abs correct) * 0.2)%float = Ok b ∧
        dict_values opts = i2s <$> vals ∧
        ∀ v, v ∈ vals → v ≠ correct →
             1 ≤ Z.abs (v - correct) ≤ Z.max spread (Z.max 6 b)) ∧
  (∀ fuel correct t opts letter t',
      U1.mcq_options_int fuel correct t = Ok ((opts, letter), t') →
      ∃ b vals,
        py_int (F (Z.abs correct) * 0.2)%float = Ok b ∧
        dict_values opts = i2s <$> vals ∧
        ∀ v, v ∈ vals → v ≠ correct →
             1 ≤ Z.abs (v - correct) ≤ Z.max 6 b).
Proof.
  split.
  - intros fuel correct spread t opts letter t'.
    change (RSG.mcq_options_int fuel correct spread)
      with (r ← lift (py_round (F (Z.abs correct) * 0.2)%float);
            cand ← RSG.mcq_int_loop fuel correct (Z.max spread (Z.max 6 r))
                     {[correct]};
            assemble correct cand).
    intros (b & t1 & Hb & Hrun)%bind_Ok.
    apply bind_Ok in Hrun as (cand & t2 & Hloop & Hasm).
    assert (Hround : py_round (F (Z.abs correct) * 0.2)%float = Ok b).
    { unfold lift in Hb. by destruct (py_round _); simplify_eq. }
    destruct (RSG_mcq_int_loop_post _ _ _ _ ltac:(rewrite size_singleton; lia)
                _ _ _ Hloop) as (Hsize & Hsub & _).
    pose proof (RSG_mcq_int_loop_near _ _ _ _ _ _ _ Hloop) as Hnear.
    destruct (post_assemble correct cand Hsize ltac:(set_solver) _ _ _ Hasm)
      as (vals & Hbuilt & Hperm).
    exists b, vals. split; [done|]. split; [exact (built_values _ _ _ Hbuilt)|].
    intros v Hv Hne. rewrite Hperm in Hv. apply elem_of_elements in Hv.
    destruct (Hnear v Hv) as [Hc|?]; [|done]. set_solver.
  - intros fuel correct t opts letter t'.
    change (U1.mcq_options_int fuel correct)
      with (r ← lift (py_int (F (Z.abs correct) * 0.2)%float);
            cand ← U1.mcq_int_loop fuel correct (Z.max 6 r) {[correct]};
            assemble correct cand).
    intros (b & t1 & Hb & Hrun)%bind_Ok.
    apply bind_Ok in Hrun as (cand & t2 & Hloop & Hasm).
    assert (Hround : py_int (F (Z.abs correct) * 0.2)%float = Ok b).
    { unfold lift in Hb. by destruct (py_int _); simplify_eq. }
    destruct (U1_mcq_int_loop_post _ _ _ _ ltac:(rewrite size_singleton; lia)
                _ _ _ Hloop) as (Hsize & Hsub & _).
    pose proof (U1_mcq_int_loop_near _ _ _ _ _ _ _ Hloop) as Hnear.
    destruct (post_assemble correct cand Hsize ltac:(set_solver) _ _ _ Hasm)
      as (vals & Hbuilt & Hperm).
    exists b, vals. split; [done|]. split; [exact (built_values _ _ _ Hbuilt)|].
    intros v Hv Hne. rewrite Hperm in Hv. apply elem_of_elements in Hv.
    destruct (Hnear v Hv) as [Hc|?]; [|done]. set_solver.
Qed.

Lemma mcq_options_int_spread_witness :
  ∃ opts letter b vals,
    value_of (RSG.mcq_options_int 50 100 8 tape_sq) = Ok (opts, letter) ∧
    py_round (F (Z.abs 100) * 0.2)%float = Ok b ∧ b = 20 ∧
    dict_values opts = i2s <$> vals ∧
    ∀ v, v ∈ vals → v ≠ 100 → 1 ≤ Z.abs (v - 100) ≤ Z.max 8 (Z.max 6 b).
Proof.
  assert (∃ q, value_of (RSG.mcq_options_int 50 100 8 tape_sq) = Ok q)
    as [[opts letter] Hq].
  { eexists. vm_compute. reflexivity. }
  destruct (value_of_Ok _ _ Hq) as [t' E].
  destruct (proj1 mcq_options_int_spread 50%nat 100 8 tape_sq opts letter t' E)
    as (b & vals & Hb & Hvals & Hnear).
  exists opts, letter, b, vals. split; [exact Hq|]. split; [exact Hb|].
  split; [|split; [exact Hvals|exact Hnear]].
  assert (Hb' : py_round (F (Z.abs 100) * 0.2)%float = Ok 20) by (vm_compute; reflexivity).
  congruence.
Defined.

(** ** A pool of exactly five values *)

(** X6: when the candidates and the correct value make exactly five
    values, the options the small-set builder returns are those five, each
    once: the random draws only decide their order. The rectangle's and the
    equilateral triangle's symmetry questions are of this kind. *)
Theorem small_set_five_candidates fuel correct candidates t opts letter t' :
  size (list_to_set candidates ∪ {[correct]} : gset Z) = 5%nat →
  RSG.mcq_options_small_set fuel correct candidates t = Ok ((opts, letter), t')
  ∨ U1.mcq_options_small fuel correct candidates t = Ok ((opts, letter), t') →
  ∃ vals, dict_values opts = i2s <$> vals ∧ NoDup vals ∧
          ∀ v, v ∈ vals ↔ v ∈ candidates ∨ v = correct.
Proof.
  intros Hfive Hrun.
  set (pool := (list_to_set candidates ∪ {[correct]} : gset Z)) in *.
  assert (∃ chosen t1, size chosen = 5%nat ∧ chosen ⊆ pool ∧ correct ∈ chosen ∧
                       assemble correct chosen t1 = Ok ((opts, letter), t'))
    as (chosen & t1 & Hsize & Hsub & Hin & Hasm).
  { destruct Hrun as [Hrun|Hrun].
    - change (RSG.mcq_options_small_set fuel correct candidates)
        with (chosen ← RSG.small_set_loop fuel pool {[correct]};
              assemble correct chosen) in Hrun.
      apply bind_Ok in Hrun as (chosen & t1 & Hloop & Hasm).
      destruct (RSG_small_set_loop_post _ _ _ ltac:(rewrite size_singleton; lia)
                  _ _ _ Hloop) as (Hsize & Hsub & Hsup).
      exists chosen, t1. split_and!; [done|set_solver|set_solver|done].
    - change (U1.mcq_options_small fuel correct candidates)
        with (chosen ← U1.small_loop fuel pool {[correct]};
              assemble correct chosen) in Hrun.
      apply bind_Ok in Hrun as (chosen & t1 & Hloop & Hasm).
      destruct (U1_small_loop_post _ _ _ ltac:(rewrite size_singleton; lia)
                  _ _ _ Hloop) as (Hsize & Hsub & Hsup).
      exists chosen, t1. split_and!; [done|set_solver|set_solver|done]. }
  assert (chosen = pool) as ->.
  { apply set_subseteq_size_eq; [done|]. rewrite Hfive, Hsize. done. }
  destruct (post_assemble correct pool Hsize Hin _ _ _ Hasm)
    as (vals & Hbuilt & Hperm).
  exists vals. split; [exact (built_values _ _ _ Hbuilt)|].
  split; [apply Hbuilt|].
  intros v. rewrite Hperm, elem_of_elements. unfold pool. set_solver.
Qed.

Lemma small_set_five_candidates_witness :
  ∃ opts letter vals,
    value_of (RSG.mcq_options_small_set 50 2 [0; 1; 2; 3; 4] tape_sq)
    = Ok (opts, letter) ∧
    dict_values opts = i2s <$> vals ∧ NoDup vals ∧
    ∀ v, v ∈ vals ↔ v ∈ [0; 1; 2; 3; 4] ∨ v = 2.
Proof.
  assert (∃ q, value_of (RSG.mcq_options_small_set 50 2 [0; 1; 2; 3; 4] tape_sq)
               = Ok q) as [[opts letter] Hq].
  { eexists. vm_compute. reflexivity. }
  destruct (value_of_Ok _ _ Hq) as [t' E].
  assert (Hfive : size (list_to_set [0; 1; 2; 3; 4] ∪ {[2]} : gset Z) = 5%nat)
    by (vm_compute; reflexivity).
  destruct (small_set_five_candidates 50 2 [0; 1; 2; 3; 4] tape_sq opts letter t'
              Hfive (or_introl E)) as (vals & H).
  exists opts, letter, vals. split; [exact Hq|exact H].
Defined.

(** ** [gen_one] off the beaten path *)

Lemma dict_get_DIFF_RANGES diff :
  diff ∉ DIFF_RANGES.*1 → dict_get DIFF_RANGES diff = Raise KeyError.
Proof.
  intros Hd. unfold DIFF_RANGES in *. cbn [dict_get].
  repeat (match goal with |- context [String.eqb ?k diff] =>
            destruct (String.eqb_spec k diff) as [<-|_] end;
          [exfalso; apply Hd, list_elem_of_In; simpl; tauto|]).
  reflexivity.
Qed.

(** X7: asked for a difficulty that is not one of the three tiers,
    [gen_one] of either script raises [KeyError], whatever the shape and
    before anything is drawn. *)
Theorem gen_one_unknown_difficulty (libm : Libm) fuel shape diff t :
  diff ∉ DIFF_RANGES.*1 →
  RSG.gen_one fuel shape diff t = Raise KeyError ∧
  U1.gen_one fuel shape diff t = Raise KeyError.
Proof.
  intros Hd. apply dict_get_DIFF_RANGES in Hd.
  unfold RSG.gen_one, U1.gen_one, mbind, M_bind, bind, lift.
  by rewrite Hd.
Qed.

Lemma gen_one_unknown_difficulty_witness :
  RSG.gen_one (libm := libm_nan) 50 "square" "hard" tape_sq = Raise KeyError ∧
  U1.gen_one (libm := libm_nan) 50 "square" "hard" tape_sq = Raise KeyError.
Proof.
  apply gen_one_unknown_difficulty.
  intros Hin. apply list_elem_of_In in Hin. simpl in Hin.
  repeat (destruct Hin as [Hin|Hin]; [discriminate|]). exact Hin.
Defined.

Lemma forallb_seqZ (f : Z → bool) a n z :
  forallb f (seqZ a n) = true → a ≤ z < a + n → f z = true.
Proof.
  intros Hall Hz. apply (proj1 (forallb_forall f (seqZ a n)) Hall).
  apply list_elem_of_In, elem_of_seqZ. lia.
Qed.

Lemma bind_Raise {A B} (c : M A) (k : A → M B) t e :
  (c ≫= k) t = Raise e →
  c t = Raise e ∨ ∃ a t1, c t = Ok (a, t1) ∧ k a t1 = Raise e.
Proof.
  unfold mbind, M_bind, bind.
  destruct (c t) as [[a t1]| |]; intros H; [right; eauto | injection H as ->; by left | done].
Qed.

Lemma dict_get_DIFF_RANGES_in diff :
  diff ∈ DIFF_RANGES.*1 →
  ∃ rng, dict_get DIFF_RANGES diff = Ok rng ∧ 1 ≤ rng.1 ∧ rng.1 ≤ rng.2 ≤ 100.
Proof.
  unfold DIFF_RANGES. cbn [fmap list_fmap fst]. intros Hd. set_unfold.
  destruct Hd as [->|[->|[->|[]]]]; eexists; (split; [reflexivity|simpl; lia]).
Qed.

Lemma RSG_mcq_options_int_no_raise fuel correct spread t b e :
  py_round (F (Z.abs correct) * 0.2)%float = Ok b →
  RSG.mcq_options_int fuel correct spread t ≠ Raise e.
Proof.
  intros Hb Hraise.
  destruct (RSG_mcq_options_int_runs fuel correct spread t b Hb) as [Hok Hout].
  cbv zeta in Hok, Hout.
  destruct (le_lt_dec 5 (size ({[correct]} ∪ tried (RSG_try correct
              (Z.max spread (Z.max 6 b))) fuel t))) as [Hle|Hlt].
  - destruct (Hok Hle) as (q & t' & Hq). congruence.
  - rewrite (Hout Hlt) in Hraise. done.
Qed.

Lemma U1_mcq_options_int_no_raise fuel correct t b e :
  py_int (F (Z.abs correct) * 0.2)%float = Ok b →
  U1.mcq_options_int fuel correct t ≠ Raise e.
Proof.
  intros Hb Hraise.
  destruct (U1_mcq_options_int_runs fuel correct t b Hb) as [Hok Hout].
  cbv zeta in Hok, Hout.
  destruct (le_lt_dec 5 (size ({[correct]} ∪ tried (U1_try correct (Z.max 6 b))
              fuel t))) as [Hle|Hlt].
  - destruct (Hok Hle) as (q & t' & Hq). congruence.
  - rewrite (Hout Hlt) in Hraise. done.
Qed.

Lemma square_spread_table :
  forallb (λ s, match py_int (F (Z.abs (s * s)) * 0.2)%float with
                | Ok _ => true
                | _ => false
                end) (seqZ 1 100) = true.
Proof. vm_compute. reflexivity. Qed.

(** X8: for a shape outside the catalogue and a difficulty of the three
    tiers, [gen_one] raises nothing. What randomShapeGenerator.py returns is
    an area question whose correct answer is 1, with five positive options;
    what untitled1.py returns is the area question of a square with a side
    of the tier. *)
Theorem gen_one_unknown_shape (libm : Libm) fuel shape diff t :
  shape ∉ SHAPES → diff ∈ DIFF_RANGES.*1 →
  (∀ e, RSG.gen_one fuel shape diff t ≠ Raise e) ∧
  (∀ qtext opts letter t',
     RSG.gen_one fuel shape diff t = Ok ((qtext, opts, letter), t') →
     qtext = area_text ∧ dict_get opts letter = Ok (i2s 1) ∧
     Forall positive_value (dict_values opts)) ∧
  (∀ e, U1.gen_one fuel shape diff t ≠ Raise e) ∧
  (∀ qtext opts letter t',
     U1.gen_one fuel shape diff t = Ok ((qtext, opts, letter), t') →
     qtext = area_text ∧
     ∃ rng s, dict_get DIFF_RANGES diff = Ok rng ∧ in_range rng s ∧
              dict_get opts letter = Ok (i2s (s * s))).
Proof.
  intros Hs Hdiff.
  assert (Hne : ∀ k, k ∈ SHAPES → String.eqb shape k = false).
  { intros k Hk. apply String.eqb_neq. by intros ->. }
  assert (Hin : ∀ k, In k SHAPES → String.eqb shape k = false).
  { intros k Hk. by apply Hne, list_elem_of_In. }
  destruct (dict_get_DIFF_RANGES_in diff Hdiff) as (rng & Hrng & Hlo & Hhi).
  assert (Hq : ∀ e, RSG.choose_qtype shape t ≠ Raise e
                    ∧ U1.choose_qtype shape t ≠ Raise e).
  { intros e. unfold RSG.choose_qtype, U1.choose_qtype.
    rewrite (Hin "circle") by (simpl; tauto). cbn [negb].
    destruct (total_choice Q_TYPES ltac:(done) t) as (q & t1 & ->). done. }
  split_and!.
  - intros e Hraise. unfold RSG.gen_one in Hraise.
    apply bind_Raise in Hraise as [Hraise|(rng' & t0 & [_ ->]%lift_Ok & Hraise)].
    { unfold lift in Hraise. by rewrite Hrng in Hraise. }
    apply bind_Raise in Hraise as [Hraise|(qtype & t1 & _ & Hraise)].
    { by apply (Hq e). }
    rewrite !Hin in Hraise by (simpl; tauto).
    apply bind_Raise in Hraise as [Hraise|([o l] & t2 & _ & Hraise)]; [|done].
    by apply (RSG_mcq_options_int_no_raise fuel 1 8 t1 0 e).
  - intros qtext opts letter t'.
    cut (post (RSG.gen_one fuel shape diff)
           (λ q, q.1.1 = area_text ∧ dict_get q.1.2 q.2 = Ok (i2s 1) ∧
                 Forall positive_value (dict_values q.1.2))).
    { intros Hpost Hrun. exact (Hpost _ _ _ Hrun). }
    unfold RSG.gen_one.
    eapply post_bind; [apply post_True|]. intros rng' _.
    eapply post_bind; [apply post_True|]. intros qtype _.
    rewrite !Hin by (simpl; tauto).
    eapply post_bind; [apply RSG_mcq_options_int_post|].
    intros [o l] (vals & Hb & Hd). apply post_ret. cbn.
    split; [done|]. split; [apply Hb|].
    by apply (positive_values_iff 1 vals (o, l)).
  - intros e Hraise. unfold U1.gen_one in Hraise.
    apply bind_Raise in Hraise as [Hraise|(rng' & t0 & [Hrng' ->]%lift_Ok & Hraise)].
    { unfold lift in Hraise. by rewrite Hrng in Hraise. }
    assert (rng' = rng) as -> by congruence.
    apply bind_Raise in Hraise as [Hraise|(qtype & t1 & _ & Hraise)].
    { by apply (Hq e). }
    rewrite !Hin in Hraise by (simpl; tauto).
    unfold U1.gen_square, U1.dims_square in Hraise.
    apply bind_Raise in Hraise as [Hraise|(s & t2 & Hs2 & Hraise)].
    { destruct (total_randint rng.1 rng.2 ltac:(lia) t1) as (s & t2 & Hs2).
      congruence. }
    apply post_randint in Hs2. cbv beta in Hs2.
    unfold U1.ask_square in Hraise.
    cbn [String.eqb Ascii.eqb Bool.eqb] in Hraise. cbv zeta in Hraise.
    apply bind_Raise in Hraise as [Hraise|([o l] & t3 & _ & Hraise)]; [|done].
    pose proof (forallb_seqZ _ 1 100 s square_spread_table ltac:(lia)) as Hb.
    cbv beta in Hb.
    destruct (py_int (F (Z.abs (s * s)) * 0.2)%float) as [b| |] eqn:Hpy; [|done..].
    by apply (U1_mcq_options_int_no_raise fuel (s * s) t2 b e).
  - intros qtext opts letter t'.
    cut (post (U1.gen_one fuel shape diff)
           (λ q, q.1.1 = area_text ∧
                 ∃ rng s, dict_get DIFF_RANGES diff = Ok rng ∧ in_range rng s ∧
                          dict_get q.1.2 q.2 = Ok (i2s (s * s)))).
    { intros Hpost Hrun. exact (Hpost _ _ _ Hrun). }
    unfold U1.gen_one.
    eapply post_bind; [apply post_lift; intros r H; exact H|]. intros rng' Hrng'.
    eapply post_bind; [apply post_True|]. intros qtype _.
    rewrite !Hin by (simpl; tauto).
    unfold U1.gen_square, U1.dims_square.
    eapply post_bind; [apply post_randint_in|]. intros s Hrange.
    unfold U1.ask_square. cbn [String.eqb Ascii.eqb Bool.eqb]. cbv zeta.
    eapply post_bind; [apply U1_mcq_options_int_post|].
    intros [o l] (vals & Hb & Hd). apply post_ret. cbn.
    split; [done|]. exists rng', s. split_and!; [done|done|apply Hb].
Qed.

Lemma gen_one_unknown_shape_witness :
  ∃ qtext opts letter,
    value_of (RSG.gen_one (libm := libm_nan) 50 "rhombus" "easy" tape_sq)
    = Ok (qtext, opts, letter) ∧
    qtext = area_text ∧ dict_get opts letter = Ok (i2s 1) ∧
    Forall positive_value (dict_values opts) ∧
    ∀ e, U1.gen_one (libm := libm_nan) 50 "rhombus" "easy" tape_sq ≠ Raise e.
Proof.
  assert (∃ q, value_of (RSG.gen_one (libm := libm_nan) 50 "rhombus" "easy" tape_sq)
               = Ok q) as [[[qtext opts] letter] Hq].
  { eexists. vm_compute. reflexivity. }
  destruct (value_of_Ok _ _ Hq) as [t' E].
  assert (Hs : "rhombus" ∉ SHAPES).
  { intros Hin. apply list_elem_of_In in Hin. simpl in Hin.
    repeat (destruct Hin as [Hin|Hin]; [discriminate|]). exact Hin. }
  assert (Hd : "easy" ∈ DIFF_RANGES.*1) by (apply list_elem_of_In; simpl; tauto).
  destruct (gen_one_unknown_shape libm_nan 50 "rhombus" "easy" tape_sq Hs Hd)
    as (_ & Hrsg & Hu1 & _).
  exists qtext, opts, letter. split; [exact Hq|].
  destruct (Hrsg qtext opts letter t' E) as (H1 & H2 & H3).
  split; [exact H1|]. split; [exact H2|]. split; [exact H3|exact Hu1].
Defined.

(** ** Sampling never fails in a tier *)

Lemma total_randint_in rng : rng.1 ≤ rng.2 → total (randint rng.1 rng.2).
Proof. apply total_randint. Qed.

Lemma RSG_scalene_loop_total n rng a b c :
  rng.1 ≤ rng.2 → total (RSG.scalene_loop n rng a b c).
Proof.
  intros Hr. revert a b c. induction n as [|n IH]; intros a b c;
    cbn [RSG.scalene_loop]; destruct (negb (RSG.valid a b c));
    try apply total_ret.
  eapply total_bind; [by apply total_randint_in|apply post_True|]. intros a' _.
  eapply total_bind; [by apply total_randint_in|apply post_True|]. intros b' _.
  eapply total_bind; [by apply total_randint_in|apply post_True|]. intros c' _.
  apply IH.
Qed.

Lemma U1_scalene_loop_total n rng a b c :
  rng.1 ≤ rng.2 → total (U1.scalene_loop n rng a b c).
Proof.
  intros Hr. revert a b c. induction n as [|n IH]; intros a b c;
    cbn [U1.scalene_loop]; [apply total_ret|].
  eapply total_bind; [by apply total_randint_in|apply post_True|]. intros a' _.
  eapply total_bind; [by apply total_randint_in|apply post_True|]. intros b' _.
  eapply total_bind; [by apply total_randint_in|apply post_True|]. intros c' _.
  destruct (_ && _); [apply total_ret|apply IH].
Qed.

Lemma U1_scalene_loop_S_post n rng a b c :
  post (U1.scalene_loop (S n) rng a b c)
       (λ '(a', b', c'), in_range rng a' ∧ in_range rng b' ∧ in_range rng c').
Proof.
  cbn [U1.scalene_loop].
  eapply post_bind; [apply post_randint_in|]. intros a' Ha'.
  eapply post_bind; [apply post_randint_in|]. intros b' Hb'.
  eapply post_bind; [apply post_randint_in|]. intros c' Hc'.
  destruct (_ && _); [by apply post_ret|].
  eapply post_weaken; [apply U1_scalene_loop_post|].
  intros [[a2 b2] c2] [?|[= -> -> ->]]; auto.
Qed.

(** X9: the three tiers have a positive low end and at least three values,
    and in every such range each dimension sampler of both scripts returns
    on every random stream: no empty [randint] range, no division by a zero
    side. *)
Theorem sampling_total_in_tiers :
  (∀ diff rng, dict_get DIFF_RANGES diff = Ok rng → tier rng) ∧
  (∀ rng, tier rng →
     total (RSG.dims_square rng) ∧ total (RSG.dims_rectangle rng) ∧
     total (RSG.dims_equilateral_triangle rng) ∧
     total (RSG.dims_isosceles_triangle rng) ∧
     total (RSG.dims_scalene_triangle rng) ∧ total (RSG.dims_trapezium rng) ∧
     total (RSG.dims_parallelogram rng) ∧ total (RSG.dims_circle rng) ∧
     total (RSG.dims_regular_ngon rng) ∧
     total (U1.dims_scalene_triangle rng) ∧ total (U1.dims_trapezium rng)).
Proof.
  split.
  { intros diff rng. unfold DIFF_RANGES. cbn [dict_get].
    repeat (destruct (String.eqb _ diff); [intros [= <-]; unfold tier; simpl; lia|]).
    done. }
  intros rng [Hlo Hhi].
  assert (Hr : rng.1 ≤ rng.2) by lia.
  assert (Ht : total (randint rng.1 rng.2)) by by apply total_randint_in.
  split_and!; try exact Ht.
  - unfold RSG.dims_rectangle.
    eapply total_bind; [exact Ht|apply post_True|]. intros w _.
    eapply total_bind; [exact Ht|apply post_True|]. intros h _.
    apply total_ret.
  - unfold RSG.dims_isosceles_triangle.
    eapply total_bind; [exact Ht|apply post_True|]. intros w _.
    eapply total_bind; [exact Ht|apply post_True|]. intros h _.
    apply total_ret.
  - unfold RSG.dims_scalene_triangle.
    eapply total_bind; [exact Ht|apply post_randint_in|]. intros a Ha.
    eapply total_bind; [exact Ht|apply post_randint_in|]. intros b Hb.
    eapply total_bind; [exact Ht|apply post_randint_in|]. intros c Hc.
    eapply total_bind;
      [by apply RSG_scalene_loop_total|by apply RSG_scalene_loop_post|].
    intros [[a' b'] c'] (Ha' & _). unfold in_range in Ha'.
    destruct (Z.eqb_spec a' 0); [lia|apply total_ret].
  - unfold RSG.dims_trapezium.
    eapply total_bind; [exact Ht|apply post_randint_in|]. intros top Htop.
    unfold in_range in Htop.
    eapply total_bind; [apply total_randint; lia|apply post_True|].
    intros bottom _.
    eapply total_bind; [exact Ht|apply post_True|]. intros h _.
    apply total_ret.
  - unfold RSG.dims_parallelogram.
    eapply total_bind; [exact Ht|apply post_True|]. intros b _.
    eapply total_bind; [exact Ht|apply post_True|]. intros h _.
    eapply total_bind; [apply total_randint; lia|apply post_True|].
    intros slant _. apply total_ret.
  - unfold U1.dims_scalene_triangle.
    eapply total_bind;
      [by apply U1_scalene_loop_total|apply U1_scalene_loop_S_post|].
    intros [[a' b'] c'] (Ha' & _). unfold in_range in Ha'.
    destruct (Z.eqb_spec a' 0); [lia|apply total_ret].
  - unfold U1.dims_trapezium.
    eapply total_bind; [exact Ht|apply post_randint_in|]. intros top Htop.
    unfold in_range in Htop.
    eapply total_bind; [apply total_randint; lia|apply post_True|].
    intros bottom _.
    eapply total_bind; [exact Ht|apply post_True|]. intros h _.
    apply total_ret.
Qed.

Lemma sampling_total_in_tiers_witness :
  dict_get DIFF_RANGES "medium" = Ok (11, 50) ∧ tier (11, 50) ∧
  ∃ d t', RSG.dims_trapezium (11, 50) tape_sq = Ok (d, t').
Proof.
  assert (Hd : dict_get DIFF_RANGES "medium" = Ok (11, 50)) by reflexivity.
  pose proof (proj1 sampling_total_in_tiers _ _ Hd) as Htier.
  split; [exact Hd|]. split; [exact Htier|].
  destruct (proj2 sampling_total_in_tiers _ Htier)
    as (_ & _ & _ & _ & _ & Htrap & _).
  exact (Htrap tape_sq).
Defined.

(** X10: in a range of fewer than three values the trapezium of
    randomShapeGenerator.py cannot be sampled: the range it asks [randint]
    for the bottom side is empty and [ValueError] is raised on every random
    stream, while untitled1.py still returns a trapezium. *)
Theorem trapezium_narrow_range lo hi t :
  lo ≤ hi → hi < lo + 2 →
  RSG.dims_trapezium (lo, hi) t = Raise ValueError ∧
  ∃ top bottom h t', U1.dims_trapezium (lo, hi) t = Ok ((top, bottom, h), t') ∧
                     bottom = top + 2.
Proof.
  intros Hle Hnarrow. split.
  - unfold RSG.dims_trapezium. cbn [fst snd].
    destruct (total_randint lo hi Hle t) as (top & t1 & Htop).
    rewrite (bind_run _ _ _ _ _ Htop).
    apply post_randint in Htop. cbv beta in Htop.
    unfold mbind, M_bind, bind, randint.
    destruct (Z.ltb_spec (hi + Z.max 0 (top - lo))
                (Z.max (top + 2) (lo + 2))); [done|lia].
  - unfold U1.dims_trapezium. cbn [fst snd].
    destruct (total_randint lo hi Hle t) as (top & t1 & Htop).
    rewrite (bind_run _ _ _ _ _ Htop).
    apply post_randint in Htop. cbv beta in Htop.
    destruct (total_randint (Z.max (top + 2) (lo + 2)) (Z.max (top + 2) hi)
                ltac:(lia) t1) as (bottom & t2 & Hbot).
    rewrite (bind_run _ _ _ _ _ Hbot).
    apply post_randint in Hbot. cbv beta in Hbot.
    destruct (total_randint lo hi Hle t2) as (h & t3 & Hh).
    rewrite (bind_run _ _ _ _ _ Hh).
    exists top, bottom, h, t3. split; [done|lia].
Qed.

Lemma trapezium_narrow_range_witness :
  RSG.dims_trapezium (4, 5) tape_sq = Raise ValueError ∧
  ∃ top bottom h t', U1.dims_trapezium (4, 5) tape_sq = Ok ((top, bottom, h), t') ∧
                     bottom = top + 2.
Proof. apply trapezium_narrow_range; lia. Defined.

(** ** When a degenerate scalene triple can get through *)

Lemma randint_tape a b t v t' : randint a b t = Ok (v, t') → t' = tl_tape t.
Proof.
  unfold randint. destruct (b <? a); [done|].
  unfold mbind, M_bind, bind, randbelow, mret, M_ret, ret. by intros [= _ <-].
Qed.

Lemma three_draws (rng : Z * Z) t (k : Z → Z → Z → M (Z * Z * Z)) r t' :
  (a ← randint rng.1 rng.2; b ← randint rng.1 rng.2; c ← randint rng.1 rng.2;
   k a b c) t = Ok (r, t') →
  ∃ a b c, k a b c (Nat.iter 3 tl_tape t) = Ok (r, t').
Proof.
  intros (a' & t1 & H1 & Hrun)%bind_Ok.
  apply bind_Ok in Hrun as (b' & t2 & H2 & Hrun).
  apply bind_Ok in Hrun as (c' & t3' & H3 & Hrun).
  apply randint_tape in H1 as ->. apply randint_tape in H2 as ->.
  apply randint_tape in H3 as ->. by exists a', b', c'.
Qed.

Lemma size_three_distinct (a b c : Z) :
  size ({[a; b; c]} : gset Z) = 3%nat → a ≠ b ∧ a ≠ c ∧ b ≠ c.
Proof.
  intros Hsize. split_and!; intros ->.
  - assert (({[b; b; c]} : gset Z) = {[b; c]}) as Heq by set_solver.
    rewrite Heq in Hsize.
    pose proof (size_add_le ({[b]} : gset Z) c) as Hle.
    rewrite size_singleton in Hle. lia.
  - assert (({[c; b; c]} : gset Z) = {[c; b]}) as Heq by set_solver.
    rewrite Heq in Hsize.
    pose proof (size_add_le ({[c]} : gset Z) b) as Hle.
    rewrite size_singleton in Hle. lia.
  - assert (({[a; c; c]} : gset Z) = {[a; c]}) as Heq by set_solver.
    rewrite Heq in Hsize.
    pose proof (size_add_le ({[a]} : gset Z) c) as Hle.
    rewrite size_singleton in Hle. lia.
Qed.

Lemma RSG_scalene_loop_draws n rng a b c t a' b' c' t' :
  RSG.scalene_loop n rng a b c t = Ok ((a', b', c'), t') →
  RSG.valid a' b' c' = true ∨ t' = Nat.iter (3 * n) tl_tape t.
Proof.
  revert a b c t. induction n as [|n IH]; intros a b c t;
    cbn [RSG.scalene_loop]; destruct (RSG.valid a b c) eqn:Hv; cbn [negb];
    try (intros [= <- <- <- <-]; auto).
  intros Hrun.
  apply (three_draws rng t (λ a b c, RSG.scalene_loop n rng a b c))
    in Hrun as (a1 & b1 & c1 & Hrun).
  destruct (IH _ _ _ _ Hrun) as [Hok|Heq]; [by left|right; subst t'].
  replace (3 * S n)%nat with (3 * n + 3)%nat by lia. by rewrite Nat.iter_add.
Qed.

Lemma U1_scalene_loop_draws n rng a b c t a' b' c' t' :
  U1.scalene_loop n rng a b c t = Ok ((a', b', c'), t') →
  (U1.valid a' b' c' = true ∧ a' ≠ b' ∧ a' ≠ c' ∧ b' ≠ c')
  ∨ t' = Nat.iter (3 * n) tl_tape t.
Proof.
  revert a b c t. induction n as [|n IH]; intros a b c t;
    cbn [U1.scalene_loop].
  { intros [= <- <- <- <-]. by right. }
  intros Hrun.
  apply (three_draws rng t
           (λ a b c, if U1.valid a b c
                        && bool_decide (size ({[a; b; c]} : gset Z) = 3%nat)
                     then mret (a, b, c) else U1.scalene_loop n rng a b c))
    in Hrun as (a1 & b1 & c1 & Hrun).
  destruct (U1.valid a1 b1 c1) eqn:Hv; cbn [andb] in Hrun.
  - case_bool_decide as Hsize.
    + injection Hrun as <- <- <- <-. left. split; [done|].
      by apply size_three_distinct.
    + destruct (IH _ _ _ _ Hrun) as [Hok|Heq]; [by left|right; subst t'].
      replace (3 * S n)%nat with (3 * n + 3)%nat by lia. by rewrite Nat.iter_add.
  - destruct (IH _ _ _ _ Hrun) as [Hok|Heq]; [by left|right; subst t'].
    replace (3 * S n)%nat with (3 * n + 3)%nat by lia. by rewrite Nat.iter_add.
Qed.

(** X11: a scalene triple that violates the triangle inequality (in
    untitled1.py: or that has two equal sides) is gone on with only when the
    sampler has used up all its draws: 303 in randomShapeGenerator.py, the
    first triple and a hundred redraws, 300 in untitled1.py. *)
Theorem scalene_invalid_only_when_exhausted rng t a b c t' :
  (RSG.dims_scalene_triangle rng t = Ok ((a, b, c), t') →
     RSG.valid a b c = true ∨ t' = Nat.iter 303 tl_tape t) ∧
  (U1.dims_scalene_triangle rng t = Ok ((a, b, c), t') →
     (U1.valid a b c = true ∧ a ≠ b ∧ a ≠ c ∧ b ≠ c)
     ∨ t' = Nat.iter 300 tl_tape t).
Proof.
  split.
  - unfold RSG.dims_scalene_triangle. intros Hrun.
    apply (three_draws rng t
             (λ a b c, '(a, b, c) ← RSG.scalene_loop 100 rng a b c;
                       if a =? 0 then raise ZeroDivisionError else mret (a, b, c)))
      in Hrun as (a1 & b1 & c1 & Hrun).
    apply bind_Ok in Hrun as ([[a2 b2] c2] & t2 & Hloop & Hret).
    destruct (a2 =? 0); [done|]. injection Hret as -> -> -> ->.
    destruct (RSG_scalene_loop_draws _ _ _ _ _ _ _ _ _ _ Hloop) as [Hok|Heq];
      [by left|right; subst t'].
    change 303%nat with (3 * 100 + 3)%nat. by rewrite Nat.iter_add.
  - unfold U1.dims_scalene_triangle. intros Hrun.
    apply bind_Ok in Hrun as ([[a2 b2] c2] & t2 & Hloop & Hret).
    destruct (a2 =? 0); [done|]. injection Hret as -> -> -> ->.
    exact (U1_scalene_loop_draws _ _ _ _ _ _ _ _ _ _ Hloop).
Qed.

Lemma scalene_invalid_only_when_exhausted_witness :
  ∃ t', RSG.dims_scalene_triangle (1, 10) tape_degenerate = Ok ((1, 1, 10), t') ∧
        RSG.valid 1 1 10 = false ∧
        (RSG.valid 1 1 10 = true ∨ t' = Nat.iter 303 tl_tape tape_degenerate).
Proof.
  assert (Hq : value_of (RSG.dims_scalene_triangle (1, 10) tape_degenerate)
               = Ok (1, 1, 10)) by (vm_compute; reflexivity).
  destruct (value_of_Ok _ _ Hq) as [t' E].
  exists t'. split; [exact E|]. split; [reflexivity|].
  exact (proj1 (scalene_invalid_only_when_exhausted (1, 10) tape_degenerate
                  1 1 10 t') E).
Defined.

(** ** The sequential manifest *)

Lemma RSG_main_record_path {libm : Libm} fuel i :
  post (RSG.main_record fuel i)
       (λ r, r_difficulty_level r ∈ RSG.DIFF_LIST ∧
             r_img_path r = img_path_of (r_difficulty_level r) i).
Proof.
  unfold RSG.main_record.
  eapply post_bind; [apply post_choice|]. intros diff Hdiff.
  eapply post_bind; [apply post_True|]. intros shape _.
  eapply post_bind; [apply post_True|].
  intros [[qtext options] letter] _.
  eapply post_bind; [apply post_True|]. intros answer _. by apply post_ret.
Qed.

Lemma RSG_main_loop_post {libm : Libm} fuel ids acc :
  post (RSG.main_loop fuel ids acc)
       (λ out, ∃ new, out = acc ++ new ∧
          Forall2 (λ i r, r_difficulty_level r ∈ RSG.DIFF_LIST ∧
                          r_img_path r = img_path_of (r_difficulty_level r) i)
                  ids new).
Proof.
  revert acc. induction ids as [|i ids IH]; intros acc; cbn [RSG.main_loop].
  { apply post_ret. exists []. by rewrite app_nil_r. }
  eapply post_bind; [apply RSG_main_record_path|]. intros r Hr.
  eapply post_weaken; [apply IH|].
  intros out (new & -> & Hnew). exists (r :: new).
  split; [by rewrite <-app_assoc|]. by constructor.
Qed.

(** X12: when [main] of randomShapeGenerator.py returns, the manifest has
    one record per index 1..questionVolume, in that order: the k-th record
    (from 0) has a difficulty of the three tiers and the image path
    images/<difficulty>/Q<k+1>.png. For a question volume of zero or less it
    is empty. *)
Theorem RSG_main_manifest (libm : Libm) fuel questionVolume t out t' :
  RSG.main fuel questionVolume t = Ok (out, t') →
  length out = Z.to_nat questionVolume ∧
  ∀ k r, out !! k = Some r →
         r_difficulty_level r ∈ RSG.DIFF_LIST ∧
         r_img_path r = img_path_of (r_difficulty_level r) (1 + Z.of_nat k).
Proof.
  intros Hrun. unfold RSG.main in Hrun.
  destruct (RSG_main_loop_post _ _ _ _ _ _ Hrun) as (new & -> & Hnew).
  cbn [app]. split.
  - by rewrite <-(Forall2_length _ _ _ Hnew), length_seqZ.
  - intros k r Hk.
    destruct (Forall2_lookup_r _ _ _ _ _ Hnew Hk) as (i & Hi & Hr).
    apply lookup_seqZ in Hi as [-> _]. exact Hr.
Qed.

Lemma RSG_main_manifest_witness :
  ∃ out, value_of (RSG.main (libm := libm_nan) 60 3 tape_sq) = Ok out ∧
         length out = 3%nat ∧
         ∀ k r, out !! k = Some r →
                r_difficulty_level r ∈ RSG.DIFF_LIST ∧
                r_img_path r = img_path_of (r_difficulty_level r) (1 + Z.of_nat k).
Proof.
  assert (∃ out, value_of (RSG.main (libm := libm_nan) 60 3 tape_sq) = Ok out)
    as [out Hq].
  { eexists. vm_compute. reflexivity. }
  destruct (value_of_Ok _ _ Hq) as [t' E].
  exists out. split; [exact Hq|].
  exact (RSG_main_manifest libm_nan 60 3 tape_sq out t' E).
Defined.

(** ** The sorted manifest of untitled1.py *)

Lemma leb_not_ltb s1 s2 : String.leb s1 s2 = true → String.ltb s2 s1 = false.
Proof.
  unfold String.leb, String.ltb. rewrite (String.compare_antisym s1 s2).
  by destruct (String.compare s2 s1).
Qed.

Lemma insert_by_path_last r l :
  Forall (λ x, path_le x r) l → U1.insert_by_path r l = l ++ [r].
Proof.
  induction 1 as [|x l Hx _ IH]; cbn [U1.insert_by_path app]; [done|].
  by rewrite (leb_not_ltb _ _ Hx), IH.
Qed.

Lemma sort_by_path_sorted acc out :
  StronglySorted path_le (acc ++ out) →
  foldl (λ acc r, U1.insert_by_path r acc) acc out = acc ++ out.
Proof.
  revert acc. induction out as [|r out IH]; intros acc Hs; cbn [foldl].
  { by rewrite app_nil_r. }
  rewrite insert_by_path_last.
  - rewrite IH; rewrite <-app_assoc; done.
  - apply Forall_forall. intros x Hx.
    apply (StronglySorted_app_1_elem_of _ _ _ x r Hs Hx). by left.
Qed.

(** X13: sorting leaves a manifest that is already in path order as it is,
    records of equal paths included, so sorting twice is sorting once. *)
Theorem main_sorted_unchanged out :
  Sorted path_le out → U1.main out = out ∧ U1.main (U1.main out) = U1.main out.
Proof.
  assert (Hfix : ∀ l, Sorted path_le l → U1.main l = l).
  { intros l Hl. apply (sort_by_path_sorted [] l).
    by apply (Sorted_StronglySorted path_le). }
  intros Hs. split; [by apply Hfix|]. apply Hfix, main_Sorted.
Qed.

Lemma main_sorted_unchanged_witness :
  ∃ r1 r3,
    value_of (U1.build_one (libm := libm_nan) 50 1 tape_sq) = Ok r1 ∧
    value_of (U1.build_one (libm := libm_nan) 50 3 (tl_tape tape_sq)) = Ok r3 ∧
    Sorted path_le [r1; r3] ∧
    U1.main [r1; r3] = [r1; r3] ∧
    U1.main (U1.main [r1; r3]) = U1.main [r1; r3].
Proof.
  assert (∃ r, value_of (U1.build_one (libm := libm_nan) 50 1 tape_sq) = Ok r
               ∧ r_img_path r = "images/easy/Q1.png") as (r1 & H1 & Hp1).
  { eexists. split; [vm_compute; reflexivity|reflexivity]. }
  assert (∃ r, value_of (U1.build_one (libm := libm_nan) 50 3 (tl_tape tape_sq))
               = Ok r
               ∧ r_img_path r = "images/medium/Q3.png") as (r3 & H3 & Hp3).
  { eexists. split; [vm_compute; reflexivity|reflexivity]. }
  assert (Hs : Sorted path_le [r1; r3]).
  { repeat constructor. unfold path_le. rewrite Hp1, Hp3. reflexivity. }
  exists r1, r3.
  split; [exact H1|]. split; [exact H3|]. split; [exact Hs|].
  exact (main_sorted_unchanged [r1; r3] Hs).
Defined.

Lemma StronglySorted_lookup {A} (R : relation A) l i j x y :
  StronglySorted R l → (i < j)%nat → l !! i = Some x → l !! j = Some y → R x y.
Proof.
  intros Hs Hij Hi Hj. rewrite <-(take_drop j l) in Hs.
  apply (StronglySorted_app_1_elem_of _ _ _ x y Hs).
  - apply list_elem_of_lookup. exists i. by rewrite lookup_take_lt.
  - apply list_elem_of_lookup. exists 0%nat. by rewrite lookup_drop, Nat.add_0_r.
Qed.

Lemma img_path_of_leb d1 i1 d2 i2 :
  d1 ∈ U1.DIFF_LEVELS → d2 ∈ U1.DIFF_LEVELS →
  String.leb (img_path_of d1 i1) (img_path_of d2 i2) = true →
  String.leb d1 d2 = true.
Proof.
  unfold U1.DIFF_LEVELS, DIFF_RANGES. cbn [fmap list_fmap fst].
  intros H1 H2. set_unfold.
  destruct H1 as [->|[->|[->|[]]]], H2 as [->|[->|[->|[]]]]; intros Hle;
    first [ reflexivity | vm_compute in Hle; discriminate ].
Qed.

(** X14: the manifest of untitled1.py comes out grouped by difficulty, in
    the alphabetical order of the directory names: of two records built by
    [build_one], the earlier one in the manifest has the difficulty that is
    not the greater as a string, so the records of "difficult" come first,
    then those of "easy", then those of "medium". *)
Theorem manifest_grouped_by_difficulty out i j r1 r2 :
  Forall (λ r, r_difficulty_level r ∈ U1.DIFF_LEVELS ∧
               ∃ idx, r_img_path r = img_path_of (r_difficulty_level r) idx) out →
  (i < j)%nat → U1.main out !! i = Some r1 → U1.main out !! j = Some r2 →
  String.leb (r_difficulty_level r1) (r_difficulty_level r2) = true ∧
  (r_difficulty_level r2 = "difficult" → r_difficulty_level r1 = "difficult") ∧
  (r_difficulty_level r1 = "medium" → r_difficulty_level r2 = "medium").
Proof.
  intros Hout Hij Hi Hj.
  assert (Hin : ∀ k r, U1.main out !! k = Some r →
            r_difficulty_level r ∈ U1.DIFF_LEVELS ∧
            ∃ idx, r_img_path r = img_path_of (r_difficulty_level r) idx).
  { intros k r Hk. apply (proj1 (Forall_forall _ _) Hout).
    rewrite <-(main_Permutation out). by eapply list_elem_of_lookup_2. }
  destruct (Hin _ _ Hi) as [Hd1 [i1 Hp1]], (Hin _ _ Hj) as [Hd2 [i2 Hp2]].
  assert (Hle : path_le r1 r2).
  { apply (StronglySorted_lookup path_le (U1.main out) i j); [|done..].
    apply (Sorted_StronglySorted path_le), main_Sorted. }
  unfold path_le in Hle. rewrite Hp1, Hp2 in Hle.
  apply img_path_of_leb in Hle; [|done..].
  split; [exact Hle|].
  revert Hd1 Hd2 Hle. unfold U1.DIFF_LEVELS, DIFF_RANGES.
  cbn [fmap list_fmap fst]. set_unfold.
  intros [->|[->|[->|[]]]] [->|[->|[->|[]]]] Hle;
    first [ discriminate Hle | split; intros; congruence ].
Qed.

Lemma manifest_grouped_by_difficulty_witness :
  ∃ r1 r3,
    value_of (U1.build_one (libm := libm_nan) 50 1 tape_sq) = Ok r1 ∧
    value_of (U1.build_one (libm := libm_nan) 50 3 (tl_tape tape_sq)) = Ok r3 ∧
    U1.main [r3; r1] = [r1; r3] ∧
    r_difficulty_level r1 = "easy" ∧ r_difficulty_level r3 = "medium" ∧
    String.leb (r_difficulty_level r1) (r_difficulty_level r3) = true ∧
    (r_difficulty_level r3 = "difficult" → r_difficulty_level r1 = "difficult") ∧
    (r_difficulty_level r1 = "medium" → r_difficulty_level r3 = "medium").
Proof.
  assert (∃ r, value_of (U1.build_one (libm := libm_nan) 50 1 tape_sq) = Ok r
               ∧ r_img_path r = "images/easy/Q1.png"
               ∧ r_difficulty_level r = "easy") as (r1 & H1 & Hp1 & Hd1).
  { eexists. split; [vm_compute; reflexivity|]. split; reflexivity. }
  assert (∃ r, value_of (U1.build_one (libm := libm_nan) 50 3 (tl_tape tape_sq))
               = Ok r
               ∧ r_img_path r = "images/medium/Q3.png"
               ∧ r_difficulty_level r = "medium") as (r3 & H3 & Hp3 & Hd3).
  { eexists. split; [vm_compute; reflexivity|]. split; reflexivity. }
  assert (Hm : U1.main [r3; r1] = [r1; r3]).
  { unfold U1.main, U1.sort_by_path. cbn [foldl U1.insert_by_path].
    rewrite Hp1, Hp3. reflexivity. }
  assert (Hlev : ∀ d, d = "easy" ∨ d = "medium" → d ∈ U1.DIFF_LEVELS).
  { intros d [->| ->]; apply list_elem_of_In; simpl; tauto. }
  assert (Hout : Forall (λ r, r_difficulty_level r ∈ U1.DIFF_LEVELS ∧
                   ∃ idx, r_img_path r = img_path_of (r_difficulty_level r) idx)
                 [r3; r1]).
  { apply Forall_cons_2; [|apply Forall_cons_2; [|apply Forall_nil_2]].
    - split; [apply Hlev; by right|]. exists 3. rewrite Hp3, Hd3. reflexivity.
    - split; [apply Hlev; by left|]. exists 1. rewrite Hp1, Hd1. reflexivity. }
  assert (H0 : U1.main [r3; r1] !! 0%nat = Some r1) by (by rewrite Hm).
  assert (H1' : U1.main [r3; r1] !! 1%nat = Some r3) by (by rewrite Hm).
  exists r1, r3.
  split; [exact H1|]. split; [exact H3|]. split; [exact Hm|].
  split; [exact Hd1|]. split; [exact Hd3|].
  exact (manifest_grouped_by_difficulty [r3; r1] 0 1 r1 r3 Hout
           (Nat.lt_0_succ 0) H0 H1').
Defined.

(** ** Areas that are half of an integer product *)

Lemma round_half_even_half n :
  round_half_even (n # 2) =
  if Z.even n then n `div` 2
  else if Z.even (n `div` 2) then n `div` 2 else n `div` 2 + 1.
Proof.
  destruct (Z.even n) eqn:He.
  - apply Z.even_spec in He as [k ->].
    unfold round_half_even.
    assert (Hf : Qfloor (2 * k # 2) = k).
    { unfold Qfloor. symmetry. apply (Z.div_unique _ _ _ 0); lia. }
    rewrite Hf.
    assert (Hc : ((2 * k # 2) - inject_Z k ?= 1 # 2)%Q = Lt).
    { apply (proj1 (Qlt_alt _ _)). unfold Qlt, Qminus, Qplus, Qopp, inject_Z. cbn. lia. }
    rewrite Hc. apply (Z.div_unique _ _ _ 0); lia.
  - apply round_half_even_tie.
    assert (Ho : Z.odd n = true) by (by rewrite <-Z.negb_even, He).
    apply Z.odd_spec in Ho as [k ->].
    assert (Hd : (2 * k + 1) `div` 2 = k).
    { symmetry. apply (Z.div_unique _ _ _ 1); lia. }
    rewrite Hd. unfold Qeq, Qplus, inject_Z. cbn. lia.
Qed.

Lemma half_product_spec x n :
  half_product x n = true →
  RSG.clamp_int x = Ok (round_half_even (n # 2)) ∧
  U1.clamp_int x = Ok (round_half_even (n # 2)).
Proof.
  unfold half_product.
  destruct (RSG.clamp_int x) as [v| |], (U1.clamp_int x) as [v'| |]; try done.
  intros [->%Z.eqb_eq ->%Z.eqb_eq]%andb_true_iff. done.
Qed.

Lemma isosceles_area_table :
  forallb (λ base, forallb (λ height,
             half_product (0.5 * F base * F height)%float (base * height))
           (seqZ 1 101)) (seqZ 1 101) = true.
Proof. vm_compute. reflexivity. Qed.

Lemma trapezium_area_table :
  forallb (λ s, forallb (λ h, half_product (F (s * h) / 2)%float (s * h))
                  (seqZ 1 101)) (seqZ 1 203) = true.
Proof. vm_compute. reflexivity. Qed.

(** X15: with dimensions of the three tiers (sides up to 101, the sum of a
    trapezium's parallel sides up to 203), the floating-point area of the
    isosceles triangle and of the trapezium is computed without error, so
    the answer is the exact half product rounded half to even: the area
    itself when the product is even, its even neighbour when it is odd. *)
Theorem half_product_areas (libm : Libm) :
  (∀ base height, 1 ≤ base ≤ 101 → 1 ≤ height ≤ 101 →
     RSG.computeAnswer (DIsosceles base height) "area"
       = Ok (round_half_even (base * height # 2)) ∧
     U1.clamp_int (0.5 * F base * F height)%float
       = Ok (round_half_even (base * height # 2))) ∧
  (∀ top bottom h, 1 ≤ top + bottom ≤ 203 → 1 ≤ h ≤ 101 →
     RSG.computeAnswer (DTrapezium top bottom h) "area"
       = Ok (round_half_even ((top + bottom) * h # 2)) ∧
     U1.clamp_int (F ((top + bottom) * h) / 2)%float
       = Ok (round_half_even ((top + bottom) * h # 2))) ∧
  (∀ n, round_half_even (n # 2) =
        if Z.even n then n `div` 2
        else if Z.even (n `div` 2) then n `div` 2 else n `div` 2 + 1).
Proof.
  split_and!.
  - intros base height Hb Hh. apply half_product_spec.
    apply (forallb_seqZ (λ height,
             half_product (0.5 * F base * F height)%float (base * height))
             1 101 height); [|lia].
    apply (forallb_seqZ (λ base, forallb (λ height,
             half_product (0.5 * F base * F height)%float (base * height))
           (seqZ 1 101)) 1 101 base isosceles_area_table). lia.
  - intros top bottom h Hs Hh. apply half_product_spec.
    apply (forallb_seqZ (λ h,
             half_product (F ((top + bottom) * h) / 2)%float ((top + bottom) * h))
             1 101 h); [|lia].
    apply (forallb_seqZ (λ s, forallb (λ h,
             half_product (F (s * h) / 2)%float (s * h))
           (seqZ 1 101)) 1 203 (top + bottom) trapezium_area_table). lia.
  - apply round_half_even_half.
Qed.

Lemma half_product_areas_witness :
  RSG.computeAnswer (libm := libm_nan) (DIsosceles 3 5) "area" = Ok 8 ∧
  RSG.computeAnswer (libm := libm_nan) (DTrapezium 3 6 5) "area" = Ok 22.
Proof.
  split.
  - apply (proj1 (proj1 (half_product_areas libm_nan) 3 5 ltac:(lia) ltac:(lia))).
  - apply (proj1 (proj1 (proj2 (half_product_areas libm_nan)) 3 6 5
                    ltac:(lia) ltac:(lia))).
Defined.
